(** * llm-cache: request fingerprints, the SQLite cache store and the proxy

    A shallow embedding of [llm_cache/hasher.py], [llm_cache/cache.py] and
    the request handler of [llm_cache/proxy.py], with the properties the
    specification states about them.

    Conventions of the embedding.
    - A Python [str] is a [string]; its characters are the code points
      0..255.  [json.dumps] escapes everything outside the printable ASCII
      range, so the serialized text is plain ASCII.
    - A Python [dict] with string keys is an association list that keeps
      the insertion order and holds each key once.
    - A Python [float] is carried by the text [float.__repr__] gives for
      it; no arithmetic is done on JSON floats anywhere in the package.
    - [time.time()] readings are integers (seconds); the rounding of float
      arithmetic on time stamps is not modelled.
    - A SQLite table is the list of its rows in rowid order.
    - JSON texts are read within these bounds: a text whose strings hold
      an escape of a code point above 255 is outside the embedding, and a
      float literal stands for the float it is the repr of. *)

From Stdlib Require Import ZArith List Ascii String Lia DecimalString DecimalFacts DecimalPos DecimalZ.
From stdpp Require Import base list sorting strings.

Open Scope string_scope.
Open Scope list_scope.
Open Scope Z_scope.

Set Warnings "-register-all".

(** ** JSON values, which are also the Python values the package handles *)

Inductive json : Type :=
| JNull
| JBool (b : bool)
| JInt (n : Z)
| JFloat (repr : string)
| JStr (s : string)
| JArr (items : list json)
| JObj (fields : list (string * json)).

Abbreviation dict := (list (string * json)).

(** [x is not None] *)
Definition is_not_none (v : json) : bool :=
  match v with JNull => false | _ => true end.

(** Python truth value of a JSON value: [None], [False], zero, and the
    empty string, list and dict are false. *)
Definition truthy (v : json) : bool :=
  match v with
  | JNull => false
  | JBool b => b
  | JInt n => negb (n =? 0)
  | JFloat r => negb (String.eqb r "0.0" || String.eqb r "-0.0")
  | JStr s => negb (String.eqb s "")
  | JArr l => match l with [] => false | _ => true end
  | JObj d => match d with [] => false | _ => true end
  end.

(** ** Python dict operations *)

Section dict_ops.
Context {A : Type}.

(** [d.get(k)], [None] when the key is absent *)
Fixpoint dict_get (d : list (string * A)) (k : string) : option A :=
  match d with
  | [] => None
  | (k', v) :: d' => if String.eqb k' k then Some v else dict_get d' k
  end.

(** [d.get(k, dflt)] *)
Definition dict_get_default (d : list (string * A)) (k : string) (dflt : A) : A :=
  match dict_get d k with Some v => v | None => dflt end.

(** [k in d] *)
Definition dict_contains (d : list (string * A)) (k : string) : bool :=
  match dict_get d k with Some _ => true | None => false end.

(** [d[k] = v]: an existing key keeps its place, a new one goes last. *)
Fixpoint dict_set (d : list (string * A)) (k : string) (v : A) : list (string * A) :=
  match d with
  | [] => [(k, v)]
  | (k', v') :: d' =>
      if String.eqb k' k then (k', v) :: d' else (k', v') :: dict_set d' k v
  end.

(** [sorted(d.items())]: the keys of a dict are distinct, so the tuples
    are ordered by key alone.  A stable insertion sort. *)
Fixpoint insert_item (x : string * A) (l : list (string * A)) : list (string * A) :=
  match l with
  | [] => [x]
  | y :: l' => if String.leb x.1 y.1 then x :: l else y :: insert_item x l'
  end.

Definition sorted_items (d : list (string * A)) : list (string * A) :=
  foldr insert_item [] d.
End dict_ops.

(** ** [json.dumps] *)

Module Json.

Definition dquote : ascii := Eval cbv in ascii_of_N 34.
Definition backslash : ascii := Eval cbv in ascii_of_N 92.

Definition hex_digit (d : N) : ascii :=
  if (d <? 10)%N then ascii_of_N (48 + d) else ascii_of_N (87 + d).

(** One character of a string as [json.dumps] writes it with
    [ensure_ascii=True]: the two-character escapes, the character itself
    when printable ASCII, a [\u00XX] escape otherwise. *)
Definition escape_char (c : ascii) : string :=
  let n := N_of_ascii c in
  if (n =? 34)%N then String backslash (String dquote "")
  else if (n =? 92)%N then String backslash (String backslash "")
  else if (n =? 8)%N then String backslash "b"
  else if (n =? 12)%N then String backslash "f"
  else if (n =? 10)%N then String backslash "n"
  else if (n =? 13)%N then String backslash "r"
  else if (n =? 9)%N then String backslash "t"
  else if ((32 <=? n) && (n <=? 126))%N then String c ""
  else String backslash
         (String "u" (String "0" (String "0"
            (String (hex_digit (n / 16)) (String (hex_digit (n mod 16)) ""))))).

Fixpoint escape (s : string) : string :=
  match s with
  | EmptyString => ""
  | String c s' => escape_char c +:+ escape s'
  end.

Definition encode_str (s : string) : string :=
  String dquote (escape s +:+ String dquote "").

(** [int.__repr__] *)
Definition encode_int (n : Z) : string := NilZero.string_of_int (Z.to_int n).

(** [floatstr]: [float.__repr__], except for the three non-finite values. *)
Definition encode_float (r : string) : string :=
  if String.eqb r "nan" then "NaN"
  else if String.eqb r "inf" then "Infinity"
  else if String.eqb r "-inf" then "-Infinity"
  else r.

Definition encode_item (key_sep : string) (kv : string * string) : string :=
  encode_str kv.1 +:+ key_sep +:+ kv.2.

(** [json.dumps(v, sort_keys=sort_keys, separators=(item_sep, key_sep))].
    The values of a dict are serialized before its items are put in key
    order; [sorted_items_map_values] below shows that this is the same
    list as serializing after sorting. *)
Fixpoint dumps (sort_keys : bool) (item_sep key_sep : string) (v : json) : string :=
  match v with
  | JNull => "null"
  | JBool true => "true"
  | JBool false => "false"
  | JInt n => encode_int n
  | JFloat r => encode_float r
  | JStr s => encode_str s
  | JArr items =>
      "[" +:+ String.concat item_sep (List.map (dumps sort_keys item_sep key_sep) items) +:+ "]"
  | JObj fields =>
      let done :=
        List.map (fun kv : string * json =>
                    let (k, x) := kv in (k, dumps sort_keys item_sep key_sep x)) fields in
      let ordered := if sort_keys then sorted_items done else done in
      "{" +:+ String.concat item_sep (List.map (encode_item key_sep) ordered) +:+ "}"
  end.

(** *** [json.loads]

    The scanner of the [json] module on a text: white space between
    tokens, the literals, strings with their escapes, arrays and objects.
    A float literal is kept as it is written, so the parser is exact on
    the texts [dumps] produces, where every float literal is a repr.
    [None] is a [JSONDecodeError]. *)

Definition is_ws (c : ascii) : bool :=
  let n := N_of_ascii c in
  ((n =? 32) || (n =? 9) || (n =? 10) || (n =? 13))%N.

Fixpoint skip_ws (s : string) : string :=
  match s with
  | String c s' => if is_ws c then skip_ws s' else s
  | EmptyString => s
  end.

Definition is_digit (c : ascii) : bool :=
  let n := N_of_ascii c in ((48 <=? n) && (n <=? 57))%N.

Definition hex_value (c : ascii) : option N :=
  let n := N_of_ascii c in
  if ((48 <=? n) && (n <=? 57))%N then Some (n - 48)%N
  else if ((97 <=? n) && (n <=? 102))%N then Some (n - 87)%N
  else if ((65 <=? n) && (n <=? 70))%N then Some (n - 55)%N
  else None.

(** The character a two-character escape stands for. *)
Definition unescape (e : ascii) : option ascii :=
  let n := N_of_ascii e in
  if (n =? 34)%N then Some dquote
  else if (n =? 92)%N then Some backslash
  else if (n =? 47)%N then Some (ascii_of_N 47)
  else if (n =? 98)%N then Some (ascii_of_N 8)
  else if (n =? 102)%N then Some (ascii_of_N 12)
  else if (n =? 110)%N then Some (ascii_of_N 10)
  else if (n =? 114)%N then Some (ascii_of_N 13)
  else if (n =? 116)%N then Some (ascii_of_N 9)
  else None.

(** The body of a string literal, after its opening quote, and the text
    that follows the closing quote.  Escapes of code points above 255
    are outside the embedding's strings and are refused. *)
Fixpoint scan_string (s : string) : option (string * string) :=
  match s with
  | EmptyString => None
  | String c s' =>
      if Ascii.eqb c dquote then Some ("", s')
      else if Ascii.eqb c backslash then
        match s' with
        | String e s'' =>
            if Ascii.eqb e "u" then
              match s'' with
              | String h1 (String h2 (String h3 (String h4 r))) =>
                  a ← hex_value h1; b ← hex_value h2;
                  c ← hex_value h3; d ← hex_value h4;
                  if ((a =? 0) && (b =? 0))%N then
                    '(body, rest) ← scan_string r;
                    Some (String (ascii_of_N (16 * c + d)) body, rest)
                  else None
              | _ => None
              end
            else
              c' ← unescape e;
              '(body, rest) ← scan_string s'';
              Some (String c' body, rest)
        | EmptyString => None
        end
      else if (N_of_ascii c <? 32)%N then None
      else '(body, rest) ← scan_string s'; Some (String c body, rest)
  end.

Fixpoint span_digits (s : string) : string * string :=
  match s with
  | String c s' =>
      if is_digit c then let (ds, rest) := span_digits s' in (String c ds, rest)
      else ("", s)
  | EmptyString => ("", "")
  end.

(** The integer part of a number: an optional minus sign, then a single
    zero or a digit string that does not start with zero. *)
Definition scan_integer (s : string) : option (string * string) :=
  let (sign, s1) :=
    match s with
    | String c s' => if Ascii.eqb c "-" then ("-", s') else ("", s)
    | EmptyString => ("", s)
    end in
  match s1 with
  | String c s2 =>
      if Ascii.eqb c "0" then Some (sign +:+ "0", s2)
      else if is_digit c then
        let (ds, rest) := span_digits s1 in Some (sign +:+ ds, rest)
      else None
  | EmptyString => None
  end.

(** The optional fraction: a point and at least one digit. *)
Definition scan_frac (s : string) : string * string :=
  match s with
  | String c s' =>
      if Ascii.eqb c "." then
        match span_digits s' with
        | (EmptyString, _) => ("", s)
        | (ds, rest) => (String c ds, rest)
        end
      else ("", s)
  | EmptyString => ("", s)
  end.

(** The optional exponent: e or E, an optional sign, at least one digit. *)
Definition scan_exp (s : string) : string * string :=
  match s with
  | String c s' =>
      if Ascii.eqb c "e" || Ascii.eqb c "E" then
        let (sign, s1) :=
          match s' with
          | String g s'' =>
              if Ascii.eqb g "-" || Ascii.eqb g "+" then (String g "", s'') else ("", s')
          | EmptyString => ("", s')
          end in
        match span_digits s1 with
        | (EmptyString, _) => ("", s)
        | (ds, rest) => (String c (sign +:+ ds), rest)
        end
      else ("", s)
  | EmptyString => ("", s)
  end.

Definition scan_number (s : string) : option (json * string) :=
  '(integer, s1) ← scan_integer s;
  let (frac, s2) := scan_frac s1 in
  let (exp, s3) := scan_exp s2 in
  if String.eqb frac "" && String.eqb exp "" then
    n ← NilZero.int_of_string integer; Some (JInt (Z.of_int n), s3)
  else Some (JFloat (integer +:+ frac +:+ exp), s3).

(** [s] without the prefix [p], when it starts with it. *)
Fixpoint strip_prefix (p s : string) : option string :=
  match p, s with
  | EmptyString, _ => Some s
  | String a p', String b s' => if Ascii.eqb a b then strip_prefix p' s' else None
  | String _ _, EmptyString => None
  end.

(** The literals other than strings, arrays and objects, in the order
    the scanner tries them. *)
Definition scan_atom (s : string) : option (json * string) :=
  match strip_prefix "null" s with Some r => Some (JNull, r) | None =>
  match strip_prefix "true" s with Some r => Some (JBool true, r) | None =>
  match strip_prefix "false" s with Some r => Some (JBool false, r) | None =>
  match scan_number s with Some res => Some res | None =>
  match strip_prefix "NaN" s with Some r => Some (JFloat "nan", r) | None =>
  match strip_prefix "Infinity" s with Some r => Some (JFloat "inf", r) | None =>
  match strip_prefix "-Infinity" s with Some r => Some (JFloat "-inf", r) | None =>
  None end end end end end end end.

(** [scan_value] reads one value; [scan_elements] the rest of an array
    after an element is due, [scan_members] the rest of an object after
    a key is due.  The fuel bounds the number of calls. *)
Fixpoint scan_value (fuel : nat) (s : string) : option (json * string) :=
  match fuel with
  | O => None
  | S fuel' =>
      match s with
      | String c s' =>
          if Ascii.eqb c dquote then
            '(str, rest) ← scan_string s'; Some (JStr str, rest)
          else if Ascii.eqb c "[" then
            match skip_ws s' with
            | String c1 r1 =>
                if Ascii.eqb c1 "]" then Some (JArr [], r1)
                else '(items, rest) ← scan_elements fuel' (String c1 r1);
                     Some (JArr items, rest)
            | EmptyString => None
            end
          else if Ascii.eqb c "{" then
            match skip_ws s' with
            | String c1 r1 =>
                if Ascii.eqb c1 "}" then Some (JObj [], r1)
                else '(fields, rest) ← scan_members fuel' (String c1 r1);
                     Some (JObj (fold_left (fun d kv => dict_set d kv.1 kv.2) fields []), rest)
            | EmptyString => None
            end
          else scan_atom s
      | EmptyString => None
      end
  end
with scan_elements (fuel : nat) (s : string) : option (list json * string) :=
  match fuel with
  | O => None
  | S fuel' =>
      '(v, r) ← scan_value fuel' s;
      match skip_ws r with
      | String c r1 =>
          if Ascii.eqb c "," then
            '(vs, rest) ← scan_elements fuel' (skip_ws r1); Some (v :: vs, rest)
          else if Ascii.eqb c "]" then Some ([v], r1)
          else None
      | EmptyString => None
      end
  end
with scan_members (fuel : nat) (s : string) : option (list (string * json) * string) :=
  match fuel with
  | O => None
  | S fuel' =>
      match s with
      | String q s' =>
          if Ascii.eqb q dquote then
            '(k, r) ← scan_string s';
            match skip_ws r with
            | String c r1 =>
                if Ascii.eqb c ":" then
                  '(v, r2) ← scan_value fuel' (skip_ws r1);
                  match skip_ws r2 with
                  | String c2 r3 =>
                      if Ascii.eqb c2 "," then
                        '(kvs, rest) ← scan_members fuel' (skip_ws r3);
                        Some ((k, v) :: kvs, rest)
                      else if Ascii.eqb c2 "}" then Some ([(k, v)], r3)
                      else None
                  | EmptyString => None
                  end
                else None
            | EmptyString => None
            end
          else None
      | EmptyString => None
      end
  end.

(** [json.loads(s)]: one value, white space around it, nothing else. *)
Definition loads (s : string) : option json :=
  '(v, rest) ← scan_value (S (String.length s)) (skip_ws s);
  match skip_ws rest with
  | EmptyString => Some v
  | String _ _ => None
  end.

End Json.

(** ** SHA-256 ([hashlib.sha256], FIPS 180-4)

    Words are integers below 2^32; every addition is reduced by [wrap]. *)

Module SHA256.

Definition mask32 : Z := 0xFFFFFFFF.
Definition wrap (x : Z) : Z := Z.land x mask32.
Definition add32 (x y : Z) : Z := wrap (x + y).
Definition rotr (n x : Z) : Z :=
  Z.lor (Z.shiftr x n) (wrap (Z.shiftl x (32 - n))).
Definition shr (n x : Z) : Z := Z.shiftr x n.
Definition not32 (x : Z) : Z := Z.lxor x mask32.

Definition Ch (x y z : Z) : Z := Z.lxor (Z.land x y) (Z.land (not32 x) z).
Definition Maj (x y z : Z) : Z :=
  Z.lxor (Z.lxor (Z.land x y) (Z.land x z)) (Z.land y z).
Definition Sigma0 (x : Z) : Z := Z.lxor (Z.lxor (rotr 2 x) (rotr 13 x)) (rotr 22 x).
Definition Sigma1 (x : Z) : Z := Z.lxor (Z.lxor (rotr 6 x) (rotr 11 x)) (rotr 25 x).
Definition sigma0 (x : Z) : Z := Z.lxor (Z.lxor (rotr 7 x) (rotr 18 x)) (shr 3 x).
Definition sigma1 (x : Z) : Z := Z.lxor (Z.lxor (rotr 17 x) (rotr 19 x)) (shr 10 x).

(** The round constants are the first 32 bits of the fractional parts of
    the cube roots of the first 64 primes, the initial hash value those of
    the square roots of the first 8 (FIPS 180-4, 4.2.2 and 5.3.3). *)
Definition is_prime (n : Z) : bool :=
  forallb (fun d => (n <=? d) || negb (n mod d =? 0)) (Z.of_nat <$> seq 2 16).

Definition primes : list Z := List.filter is_prime (Z.of_nat <$> seq 2 310).

(** The largest [r] with [r ^ k <= n], found bit by bit below bit [i]. *)
Fixpoint root_bits (k n : Z) (i : nat) (r : Z) : Z :=
  match i with
  | O => r
  | S i' =>
      let r' := Z.lor r (Z.shiftl 1 (Z.of_nat i')) in
      root_bits k n i' (if r' ^ k <=? n then r' else r)
  end.

Definition frac_root (k p : Z) : Z :=
  wrap (root_bits k (Z.shiftl p (32 * k)) 40 0).

Definition K : list Z := Eval vm_compute in frac_root 3 <$> primes.

Definition H0 : list Z := Eval vm_compute in frac_root 2 <$> take 8 primes.

(** Big-endian bytes of [x], [n] of them. *)
Fixpoint be_bytes (n : nat) (x : Z) : list Z :=
  match n with
  | O => []
  | S n' => be_bytes n' (Z.shiftr x 8) ++ [Z.land x 0xFF]
  end.

Definition be_word (bs : list Z) : Z :=
  fold_left (fun acc b => Z.lor (Z.shiftl acc 8) b) bs 0.

(** The message followed by 0x80, zero bytes up to 56 mod 64, and the bit
    length on eight bytes. *)
Definition pad (msg : list Z) : list Z :=
  let len := Z.of_nat (List.length msg) in
  let zeros := Z.to_nat ((55 - len) mod 64) in
  msg ++ [0x80] ++ repeat 0 zeros ++ be_bytes 8 (8 * len).

Fixpoint chunks (fuel : nat) (size : nat) (l : list Z) : list (list Z) :=
  match fuel with
  | O => []
  | S fuel' =>
      match l with
      | [] => []
      | _ => take size l :: chunks fuel' size (drop size l)
      end
  end.

(** [w] holds the schedule so far, latest word first. *)
Fixpoint extend (n : nat) (w : list Z) : list Z :=
  match n with
  | O => w
  | S n' =>
      let wt := add32 (add32 (add32 (sigma1 (nth 1 w 0)) (nth 6 w 0))
                             (sigma0 (nth 14 w 0))) (nth 15 w 0) in
      extend n' (wt :: w)
  end.

Definition schedule (block : list Z) : list Z :=
  rev (extend 48 (rev (map be_word (chunks 16 4 block)))).

Definition round (st : list Z) (kw : Z * Z) : list Z :=
  match st with
  | [a; b; c; d; e; f; g; h] =>
      let t1 := add32 (add32 (add32 (add32 h (Sigma1 e)) (Ch e f g)) (fst kw)) (snd kw) in
      let t2 := add32 (Sigma0 a) (Maj a b c) in
      [add32 t1 t2; a; b; c; add32 d t1; e; f; g]
  | _ => st
  end.

Definition compress (h : list Z) (block : list Z) : list Z :=
  let st := fold_left round (combine K (schedule block)) h in
  map (fun p => add32 (fst p) (snd p)) (combine h st).

Definition digest_words (msg : list Z) : list Z :=
  let padded := pad msg in
  fold_left compress (chunks (List.length padded) 64 padded) H0.

Definition hex_digit (d : Z) : ascii :=
  if d <? 10 then ascii_of_N (Z.to_N (48 + d)) else ascii_of_N (Z.to_N (87 + d)).

Fixpoint hex_of (n : nat) (x : Z) : string :=
  match n with
  | O => ""
  | S n' => hex_of n' (Z.shiftr x 4) +:+ String (hex_digit (Z.land x 0xF)) ""
  end.

Definition hexdigest (msg : list Z) : string :=
  String.concat "" (map (hex_of 8) (digest_words msg)).

End SHA256.

(** [str.encode()]: UTF-8, for code points below 256. *)
Definition utf8_char (c : ascii) : list Z :=
  let n := Z.of_N (N_of_ascii c) in
  if n <? 128 then [n]
  else [Z.lor 0xC0 (Z.shiftr n 6); Z.lor 0x80 (Z.land n 0x3F)].

Fixpoint utf8_encode (s : string) : list Z :=
  match s with
  | EmptyString => []
  | String c s' => utf8_char c ++ utf8_encode s'
  end.

(** [hashlib.sha256(s.encode()).hexdigest()] *)
Definition sha256_hexdigest (s : string) : string :=
  SHA256.hexdigest (utf8_encode s).

(** ** hasher.py *)

Module Hasher.

(** [if k in msg: norm_msg[k] = msg[k]] *)
Definition copy_if_present (k : string) (msg norm_msg : dict) : dict :=
  match dict_get msg k with
  | Some v => dict_set norm_msg k v
  | None => norm_msg
  end.

Definition normalize_message (msg : dict) : dict :=
  let norm_msg :=
    [ ("role", dict_get_default msg "role" (JStr ""));
      ("content", dict_get_default msg "content" (JStr "")) ] in
  let norm_msg := copy_if_present "name" msg norm_msg in
  let norm_msg := copy_if_present "tool_calls" msg norm_msg in
  let norm_msg := copy_if_present "tool_call_id" msg norm_msg in
  norm_msg.

Definition normalize_messages (messages : list dict) : list dict :=
  List.map normalize_message messages.

(** The body of the loop over [sorted(kwargs.items())]. *)
Definition add_kwarg (request_data : dict) (kv : string * json) : dict :=
  if is_not_none kv.2 then dict_set request_data kv.1 kv.2 else request_data.

(** The dict that [hash_request] serializes. *)
Definition request_data (messages : list dict) (model : json)
    (temperature max_tokens tools : json) (kwargs : dict) : dict :=
  let request_data :=
    [ ("messages", JArr (List.map JObj (normalize_messages messages)));
      ("model", model) ] in
  let request_data :=
    if is_not_none temperature
    then dict_set request_data "temperature" temperature else request_data in
  let request_data :=
    if is_not_none max_tokens
    then dict_set request_data "max_tokens" max_tokens else request_data in
  let request_data :=
    if truthy tools then dict_set request_data "tools" tools else request_data in
  fold_left add_kwarg (sorted_items kwargs) request_data.

(** [json.dumps(request_data, sort_keys=True, separators=(",", ":"))] *)
Definition canonical_json (messages : list dict) (model : json)
    (temperature max_tokens tools : json) (kwargs : dict) : string :=
  Json.dumps true "," ":"
    (JObj (request_data messages model temperature max_tokens tools kwargs)).

Definition hash_request (messages : list dict) (model : json)
    (temperature max_tokens tools : json) (kwargs : dict) : string :=
  sha256_hexdigest
    (canonical_json messages model temperature max_tokens tools kwargs).

(** *** A call [hash_request(messages, model, k1=v1, ..., kn=vn)]

    Python binds the keywords named [temperature], [max_tokens] and
    [tools] to the parameters of those names (default [None]) and
    collects the others, in call order, in [kwargs].  A keyword given
    twice, or one named after [messages] or [model], which the call
    already passes, is a [TypeError]: the result is [None] then. *)

Definition named_params : list string := ["temperature"; "max_tokens"; "tools"].
Definition required_params : list string := ["messages"; "model"].

Definition kwarg (kw : dict) (name : string) : json :=
  dict_get_default kw name JNull.

(** A keyword that goes to [kwargs]. *)
Definition is_extra (kv : string * json) : Prop := kv.1 ∉ named_params.

Definition call_ok (kw : dict) : Prop :=
  NoDup kw.*1 ∧ Forall (fun kv : string * json => kv.1 ∉ required_params) kw.

Definition call_hash_request (messages : list dict) (model : json) (kw : dict)
  : option string :=
  if decide (call_ok kw) then
    Some (hash_request messages model
            (kwarg kw "temperature") (kwarg kw "max_tokens") (kwarg kw "tools")
            (filter is_extra kw))
  else None.

(** *** [hash_completion_request] *)

(** The dict that [hash_completion_request] serializes. *)
Definition completion_data (prompt model : string) (temperature max_tokens : json)
    (kwargs : dict) : dict :=
  let request_data := [ ("prompt", JStr prompt); ("model", JStr model) ] in
  let request_data :=
    if is_not_none temperature
    then dict_set request_data "temperature" temperature else request_data in
  let request_data :=
    if is_not_none max_tokens
    then dict_set request_data "max_tokens" max_tokens else request_data in
  fold_left add_kwarg (sorted_items kwargs) request_data.

Definition hash_completion_request (prompt model : string)
    (temperature max_tokens : json) (kwargs : dict) : string :=
  sha256_hexdigest
    (Json.dumps true "," ":"
       (JObj (completion_data prompt model temperature max_tokens kwargs))).

(** A call [hash_completion_request(prompt, model, k1=v1, ..., kn=vn)]:
    here only [temperature] and [max_tokens] are parameters of their own,
    and a keyword named [tools] or [messages] goes to [kwargs]. *)
Definition completion_named_params : list string := ["temperature"; "max_tokens"].
Definition completion_required_params : list string := ["prompt"; "model"].

Definition is_completion_extra (kv : string * json) : Prop :=
  kv.1 ∉ completion_named_params.

Definition completion_call_ok (kw : dict) : Prop :=
  NoDup kw.*1 ∧ Forall (fun kv : string * json => kv.1 ∉ completion_required_params) kw.

Definition call_hash_completion_request (prompt model : string) (kw : dict)
  : option string :=
  if decide (completion_call_ok kw) then
    Some (hash_completion_request prompt model
            (kwarg kw "temperature") (kwarg kw "max_tokens")
            (filter is_completion_extra kw))
  else None.

End Hasher.

(** ** cache.py *)

Module Cache.

(** A row of the table [cache]; [key] is its primary key. *)
Record row : Type := Row {
  key : string;
  response : string;
  model : string;
  created_at : Z;
  expires_at : option Z;
  hit_count : Z;
  last_accessed : Z
}.

(** The table [stats] holds the two rows [_init_db] inserts. *)
Record counters : Type := Counters { hits : Z; misses : Z }.

(** The database file: the rows of [cache] in rowid order, and [stats]. *)
Record database : Type := Database { cache : list row; stats : counters }.

(** The attributes of a [Cache] object besides the path of its file. *)
Record t : Type := Config { ttl_seconds : option Z; max_entries : option Z }.

(** The database [_init_db] creates on a new file. *)
Definition empty : database := Database [] (Counters 0 0).

(** [SELECT ... FROM cache WHERE key = ?] *)
Definition select (rows : list row) (k : string) : option row :=
  List.find (fun r => String.eqb (key r) k) rows.

(** [DELETE FROM cache WHERE key = ?] *)
Definition delete_key (rows : list row) (k : string) : list row :=
  filter (fun r => key r ≠ k) rows.

(** [UPDATE stats SET value = value + 1 WHERE key = 'misses'] and the
    same for ['hits']. *)
Definition count_miss (c : counters) : counters := Counters (hits c) (misses c + 1).
Definition count_hit (c : counters) : counters := Counters (hits c + 1) (misses c).

(** [UPDATE cache SET hit_count = hit_count + 1, last_accessed = ?
    WHERE key = ?] *)
Definition touch (now : Z) (k : string) (r : row) : row :=
  if String.eqb (key r) k
  then Row (key r) (response r) (model r) (created_at r) (expires_at r)
           (hit_count r + 1) now
  else r.

(** [expires_at is not None and expires_at < now] *)
Definition expired (r : row) (now : Z) : bool :=
  match expires_at r with
  | Some e => e <? now
  | None => false
  end.

(** What a call of [get] gives back: [None], the decoded response, or
    the error of [json.loads] on a text that is not JSON. *)
Inductive lookup : Type :=
| Absent
| Found (v : json)
| DecodeError.

(** [Cache.get(key)] at clock reading [now]. *)
Definition get (db : database) (k : string) (now : Z) : lookup * database :=
  match select (cache db) k with
  | None => (Absent, Database (cache db) (count_miss (stats db)))
  | Some r =>
      if expired r now then
        (Absent, Database (delete_key (cache db) k) (count_miss (stats db)))
      else
        let db' := Database (List.map (touch now k) (cache db)) (count_hit (stats db)) in
        match Json.loads (response r) with
        | Some v => (Found v, db')
        | None => (DecodeError, db')
        end
  end.

(** [INSERT OR REPLACE INTO cache ...]: a row with the same key is
    deleted, the new row gets the next rowid. *)
Definition insert_or_replace (rows : list row) (r : row) : list row :=
  delete_key rows (key r) ++ [r].

(** [ORDER BY last_accessed ASC]: rows with equal [last_accessed] stay in
    rowid order, the order of the index [idx_last_accessed]. *)
Fixpoint insert_by_access (r : row) (l : list row) : list row :=
  match l with
  | [] => [r]
  | r' :: l' =>
      if last_accessed r <=? last_accessed r' then r :: l
      else r' :: insert_by_access r l'
  end.

Definition order_by_last_accessed (rows : list row) : list row :=
  foldr insert_by_access [] rows.

(** [DELETE FROM cache WHERE key IN (...)] *)
Definition delete_keys (rows : list row) (ks : list string) : list row :=
  filter (fun r => key r ∉ ks) rows.

(** [Cache._evict_lru()], for [self.max_entries = limit]. *)
Definition _evict_lru (limit : Z) (db : database) : database :=
  let count := Z.of_nat (List.length (cache db)) in
  if count >? limit then
    let to_delete := count - limit in
    let victims :=
      key <$> take (Z.to_nat to_delete) (order_by_last_accessed (cache db)) in
    Database (delete_keys (cache db) victims) (stats db)
  else db.

(** [Cache.set(key, response, model, ttl_seconds)] at clock reading
    [now].  [if self.max_entries:] is false for [None] and for 0. *)
Definition set (self : t) (db : database) (k : string) (resp : json) (m : string)
    (ttl_override : option Z) (now : Z) : database :=
  let ttl := match ttl_override with Some x => Some x | None => ttl_seconds self end in
  let expires := match ttl with Some x => Some (now + x) | None => None end in
  let r := Row k (Json.dumps false ", " ": " resp) m now expires 0 now in
  let db' := Database (insert_or_replace (cache db) r) (stats db) in
  match max_entries self with
  | Some limit => if limit =? 0 then db' else _evict_lru limit db'
  | None => db'
  end.

(** [Cache.delete(key)] *)
Definition delete (db : database) (k : string) : bool * database :=
  let rows := delete_key (cache db) k in
  (negb (List.length rows =? List.length (cache db))%nat, Database rows (stats db)).

(** [Cache.clear(older_than_days)] at clock reading [now];
    [UPDATE stats SET value = 0] runs in both branches. *)
Definition clear (db : database) (older_than_days : option Z) (now : Z) : database :=
  let rows :=
    match older_than_days with
    | Some days =>
        let cutoff := now - days * 86400 in
        filter (fun r => ¬ (created_at r < cutoff)) (cache db)
    | None => []
    end in
  Database rows (Counters 0 0).

End Cache.

(** ** proxy.py *)

Module Proxy.

(** *** Python and Flask values *)

Inductive exn : Type :=
| AttributeError | TypeError | ValueError
| OverflowError | IntegrityError | ProgrammingError.

Inductive result (A : Type) : Type :=
| Returned (a : A)
| Raised (e : exn).
Arguments Returned {A} a.
Arguments Raised {A} e.

(** The body of a Flask response: the JSON text of a value handed to
    [jsonify], or bytes passed on as they came. *)
Inductive body : Type :=
| JsonBody (v : json)
| RawBody (content : string).

Record response : Type := Response {
  status_code : Z;
  headers : list (string * string);
  payload : body
}.

(** [jsonify(v)] *)
Definition jsonify (v : json) : response :=
  Response 200 [("Content-Type", "application/json")] (JsonBody v).

(** [response.headers[name] = value] *)
Definition set_header (name value : string) (r : response) : response :=
  Response (status_code r) (dict_set (headers r) name value) (payload r).

(** What a view function returns: a response object, or the pair of a
    response object and a status. *)
Inductive view : Type :=
| Plain (r : response)
| WithStatus (r : response) (status : Z).

(** [result.status_code]; a tuple has no such attribute. *)
Definition view_status_code (v : view) : result Z :=
  match v with
  | Plain r => Returned (status_code r)
  | WithStatus _ _ => Raised AttributeError
  end.

(** [result.get_json()] on a response whose content type is JSON. *)
Definition view_get_json (v : view) : result json :=
  match v with
  | Plain r =>
      match payload r with
      | JsonBody x => Returned x
      | RawBody content =>
          match Json.loads content with
          | Some x => Returned x
          | None => Raised ValueError
          end
      end
  | WithStatus _ _ => Raised AttributeError
  end.

(** What Flask sends for the outcome of a view function: the response
    itself, the response with the status of the pair, and the page of
    status 500 for an exception that nothing caught. *)
Definition internal_server_error : response :=
  Response 500 [("Content-Type", "text/html; charset=utf-8")]
           (RawBody "Internal Server Error").

Definition finalize (o : result view) : response :=
  match o with
  | Returned (Plain r) => r
  | Returned (WithStatus r status) => Response status (headers r) (payload r)
  | Raised _ => internal_server_error
  end.

(** *** The inbound request and the outside world *)

(** [request], for a request whose body [request.get_json()] has read as
    a JSON object: the payload and the headers.  What the handler does
    with any other request is [chat_completions] below. *)
Record request : Type := Request {
  get_json : dict;
  request_headers : list (string * string)
}.

(** What [request.get_json()] does with the body of an inbound request:
    it returns the value read, [None] included, or aborts with an HTTP
    error (400 for a body that does not parse, 415 for one that is not
    declared as JSON). *)
Inductive got_json : Type :=
| GotJson (data : json)
| Abort (status : Z) (description : string).

Record http_request : Type := HttpRequest {
  body_json : got_json;
  http_headers : list (string * string)
}.

(** The response Flask sends for an HTTP error raised in a view. *)
Definition http_error (status : Z) (description : string) : response :=
  Response status [("Content-Type", "text/html; charset=utf-8")] (RawBody description).

(** What [requests.post] does: it returns the upstream's status and
    content, or raises a [RequestException]. *)
Inductive transport : Type :=
| Upstream (status : Z) (content : string)
| RequestException (msg : string).

(** The surroundings of one request: what [time.time()] reads in
    [Cache.get] and in [Cache.set], the upstream service, and the text
    SQLite writes for a float (given by its repr) that goes into a column
    of text affinity. *)
Record env : Type := Env {
  clock_get : Z;
  clock_set : Z;
  post : string -> dict -> list (string * string) -> transport;
  real_text : string -> string
}.

(** The calls a handler makes, in order. *)
Inductive event : Type :=
| Hashed (cache_key : string)
| CacheGet (cache_key : string)
| CacheSet (cache_key : string) (v : json) (model : string)
| Posted (url : string) (data : dict) (hdrs : list (string * string)).

Record world : Type := World { db : Cache.database; log : list event }.

(** Computations that change the world and may raise. *)
Definition M (A : Type) : Type := world -> result A * world.

Definition ret {A} (a : A) : M A := fun w => (Returned a, w).
Definition raise {A} (e : exn) : M A := fun w => (Raised e, w).
Definition bind {A B} (m : M A) (k : A -> M B) : M B :=
  fun w =>
    match m w with
    | (Returned a, w') => k a w'
    | (Raised e, w') => (Raised e, w')
    end.
Definition lift {A} (r : result A) : M A := fun w => (r, w).
Definition emit (ev : event) : M unit :=
  fun w => (Returned tt, World (db w) (log w ++ [ev])).

Notation "'let*' x ':=' m 'in' k" := (bind m (fun x => k))
  (at level 10, x name, m at level 100, k at level 200, only parsing).

(** *** The proxy *)

Record t : Type := Proxy {
  cache : Cache.t;
  target_url : string;
  provider : string
}.

Definition lower_char (c : ascii) : ascii :=
  let n := N_of_ascii c in
  if ((65 <=? n) && (n <=? 90))%N then ascii_of_N (n + 32) else c.

Fixpoint lower (s : string) : string :=
  match s with
  | EmptyString => ""
  | String c s' => String (lower_char c) (lower s')
  end.

(** [request.headers.get(name)]: header names match without regard to
    case. *)
Fixpoint header_get (hs : list (string * string)) (name : string) : option string :=
  match hs with
  | [] => None
  | (n, v) :: hs' =>
      if String.eqb (lower n) (lower name) then Some v else header_get hs' name
  end.

Definition forwarded_names : list string :=
  ["Authorization"; "X-Api-Key"; "Anthropic-Version"; "Content-Type"].

Definition forward_headers (req : request) : list (string * string) :=
  let hdrs :=
    fold_left (fun acc name =>
                 match header_get (request_headers req) name with
                 | Some v => dict_set acc name v
                 | None => acc
                 end) forwarded_names [] in
  if dict_contains hdrs "Content-Type" then hdrs
  else dict_set hdrs "Content-Type" "application/json".

(** [CacheProxy._forward_request(data)] *)
Definition _forward_request (self : t) (e : env) (req : request) (data : dict) : M view :=
  let path :=
    if String.eqb (provider self) "anthropic" then "/messages" else "/chat/completions" in
  let url := target_url self +:+ path in
  let hdrs := forward_headers req in
  let* _ := emit (Posted url data hdrs) in
  match post e url data hdrs with
  | Upstream status content =>
      ret (Plain (Response status [("Content-Type", "application/json")] (RawBody content)))
  | RequestException msg =>
      ret (WithStatus (jsonify (JObj [("error", JStr msg)])) 502)
  end.

(** The [messages] argument as [normalize_messages] goes through it: a
    list of dicts; a string or dict with nothing in it iterates as no
    message; anything else raises. *)
Fixpoint as_dicts (l : list json) : result (list dict) :=
  match l with
  | [] => Returned []
  | JObj d :: l' =>
      match as_dicts l' with
      | Returned ds => Returned (d :: ds)
      | Raised e => Raised e
      end
  | _ :: _ => Raised AttributeError
  end.

Definition as_messages (v : json) : result (list dict) :=
  match v with
  | JArr l => as_dicts l
  | JStr s => if String.eqb s "" then Returned [] else Raised AttributeError
  | JObj d => match d with [] => Returned [] | _ => Raised AttributeError end
  | _ => Raised TypeError
  end.

(** The [model] argument of [Cache.set] as [sqlite3] binds it to the
    column [model TEXT NOT NULL].  The annotation [str] is not checked:
    a string goes in as it is; an integer (a boolean is one) that fits 64
    bits, and a float, as the text SQLite turns the number into; [None],
    and a NaN, which SQLite takes for NULL, violate [NOT NULL]; a list or
    a dict cannot be bound.  When the statement fails nothing is written. *)
Definition bind_model (e : env) (model : json) : result string :=
  match model with
  | JStr s => Returned s
  | JInt n =>
      if (- 2 ^ 63 <=? n) && (n <? 2 ^ 63) then Returned (Json.encode_int n)
      else Raised OverflowError
  | JBool b => Returned (if b then "1" else "0")
  | JFloat r => if String.eqb r "nan" then Raised IntegrityError else Returned (real_text e r)
  | JNull => Raised IntegrityError
  | JArr _ | JObj _ => Raised ProgrammingError
  end.

(** [hash_request(messages=..., model=..., ...)] as the handler calls it:
    [model] is whatever the payload holds and is serialized as such. *)
Definition hash_request (messages model temperature max_tokens tools : json) : M string :=
  let* msgs := lift (as_messages messages) in
  let cache_key := Hasher.hash_request msgs model temperature max_tokens tools [] in
  let* _ := emit (Hashed cache_key) in
  ret cache_key.

Definition cache_get (e : env) (cache_key : string) : M json :=
  let* _ := emit (CacheGet cache_key) in
  fun w =>
    match Cache.get (db w) cache_key (clock_get e) with
    | (Cache.Found v, db') => (Returned v, World db' (log w))
    | (Cache.Absent, db') => (Returned JNull, World db' (log w))
    | (Cache.DecodeError, db') => (Raised ValueError, World db' (log w))
    end.

(** [self.cache.set(cache_key, response_data, model)]; the event records
    a row written. *)
Definition cache_set (self : t) (e : env) (cache_key : string) (v : json) (model : json)
  : M unit :=
  let* m := lift (bind_model e model) in
  let* _ := emit (CacheSet cache_key v m) in
  fun w =>
    (Returned tt,
     World (Cache.set (cache self) (db w) cache_key v m None (clock_set e)) (log w)).

(** [CacheProxy._handle_chat_completion()] *)
Definition _handle_chat_completion (self : t) (e : env) (req : request) : M view :=
  let data := get_json req in
  let messages := dict_get_default data "messages" (JArr []) in
  let model := dict_get_default data "model" (JStr "unknown") in
  let temperature := dict_get_default data "temperature" JNull in
  let max_tokens := dict_get_default data "max_tokens" JNull in
  let tools := dict_get_default data "tools" JNull in
  if truthy (dict_get_default data "stream" (JBool false)) then
    _forward_request self e req data
  else
    let* cache_key := hash_request messages model temperature max_tokens tools in
    let* cached := cache_get e cache_key in
    if is_not_none cached then
      ret (Plain (set_header "X-Cache" "HIT" (jsonify cached)))
    else
      let* result := _forward_request self e req data in
      let* status := lift (view_status_code result) in
      if status =? 200 then
        let* response_data := lift (view_get_json result) in
        let* _ := cache_set self e cache_key response_data model in
        ret (Plain (set_header "X-Cache" "MISS" (jsonify response_data)))
      else ret result.

(** One request with a JSON object for a body through the handler: the
    response the client gets and the world afterwards. *)
Definition serve (self : t) (e : env) (req : request) (w : world) : response * world :=
  let (o, w') := _handle_chat_completion self e req w in (finalize o, w').

(** The routes [/v1/chat/completions] and [/v1/messages] for any inbound
    request.  Line 94 reads the body; when the value read is not a dict
    the first [data.get] raises [AttributeError], before anything else
    is done. *)
Definition chat_completions (self : t) (e : env) (i : http_request) (w : world)
  : response * world :=
  match body_json i with
  | GotJson (JObj data) => serve self e (Request data (http_headers i)) w
  | GotJson _ => (internal_server_error, w)
  | Abort status description => (http_error status description, w)
  end.

(** Requests served one after the other. *)
Fixpoint serve_all (self : t) (reqs : list (env * request)) (w : world)
  : list response * world :=
  match reqs with
  | [] => ([], w)
  | (e, req) :: reqs' =>
      let (r, w1) := serve self e req w in
      let (rs, w2) := serve_all self reqs' w1 in
      (r :: rs, w2)
  end.

(** *** The constructor and the other routes *)

(** [s.rstrip(c)] for one character [c]. *)
Fixpoint rstrip (c : ascii) (s : string) : string :=
  match s with
  | EmptyString => ""
  | String a s' =>
      let r := rstrip c s' in
      if Ascii.eqb a c && String.eqb r "" then "" else String a r
  end.

(** [CacheProxy.ENDPOINTS] *)
Definition ENDPOINTS : list (string * list (string * string)) :=
  [ ("openai", [ ("base_url", "https://api.openai.com/v1");
                 ("chat_path", "/chat/completions") ]);
    ("anthropic", [ ("base_url", "https://api.anthropic.com/v1");
                    ("chat_path", "/messages") ]) ].

(** [CacheProxy.__init__(cache, target_url, provider)], Flask being
    there; [Cache()] is a store without TTL and without limit. *)
Definition __init__ (cache : option Cache.t) (target_url : option string)
    (provider : string) : t :=
  let default :=
    dict_get_default (dict_get_default ENDPOINTS provider []) "base_url"
      "https://api.openai.com/v1" in
  Proxy
    (match cache with Some c => c | None => Cache.Config None None end)
    (match target_url with
     | Some u => if String.eqb u "" then default else rstrip "/" u
     | None => default
     end)
    provider.

(** The route [/cache/clear]: [self.cache.clear()]. *)
Definition cache_clear (now : Z) : M view :=
  fun w =>
    (Returned (Plain (jsonify (JObj [("status", JStr "cleared")]))),
     World (Cache.clear (db w) None now) (log w)).

End Proxy.

(** ** Notions used in the statements below *)

(** The keywords of a call whose value is not [None]. *)
Definition supplied (kw : dict) : dict := filter (fun kv => is_not_none kv.2) kw.

(** The order of the keys of a dict. *)
Definition key_le {A} (x y : string * A) : Prop := String.le x.1 y.1.

Definition example_messages : list dict :=
  [[("role", JStr "user"); ("content", JStr "hi")]].

(** A value that survives [json.dumps] followed by [json.loads]. *)
Definition json_representable (v : json) : Prop :=
  Json.loads (Json.dumps false ", " ": " v) = Some v.

(** The entry limit of a store, when there is one, is not negative. *)
Definition limit_ok (self : Cache.t) : Prop :=
  ∀ n, Cache.max_entries self = Some n → 0 ≤ n.

(** No stored entry was accessed after the clock reading [now]: the clock
    has not run backwards since. *)
Definition clock_ok (db : Cache.database) (now : Z) : Prop :=
  Forall (fun r => Cache.last_accessed r ≤ now) (Cache.cache db).

(** The primary key of the table [cache]. *)
Definition keys_unique (db : Cache.database) : Prop :=
  NoDup (Cache.key <$> Cache.cache db).

(** The order of [ORDER BY last_accessed ASC]. *)
Definition access_le (r r' : Cache.row) : Prop :=
  Cache.last_accessed r ≤ Cache.last_accessed r'.

(** The TTL [Cache.set] applies and the row it inserts. *)
Definition effective_ttl (self : Cache.t) (ttl_override : option Z) : option Z :=
  match ttl_override with
  | Some x => Some x
  | None => Cache.ttl_seconds self
  end.

Definition fresh_row (self : Cache.t) (k : string) (v : json) (m : string)
    (ttl_override : option Z) (now : Z) : Cache.row :=
  Cache.Row k (Json.dumps false ", " ": " v) m now
    (match effective_ttl self ttl_override with
     | Some x => Some (now + x)
     | None => None
     end) 0 now.

(** A store of at most two entries with a default TTL of a minute, and a
    database that holds one entry. *)
Definition example_store : Cache.t := Cache.Config (Some 60) (Some 2).

Definition example_response : json :=
  JObj [("id", JStr "r-1"); ("choices", JArr [JObj [("text", JStr "hello")]]);
        ("usage", JObj [("total_tokens", JInt 12)])].

Definition example_db : Cache.database :=
  Cache.Database
    [Cache.Row "k0" "{}" "gpt-x" 40 None 3 90]
    (Cache.Counters 3 1).

(** The test [data.get("stream", False)] of the handler. *)
Definition streaming (req : Proxy.request) : bool :=
  truthy (dict_get_default (Proxy.get_json req) "stream" (JBool false)).

(** The URL [_forward_request] posts to. *)
Definition upstream_url (self : Proxy.t) : string :=
  Proxy.target_url self
  +:+ (if String.eqb (Proxy.provider self) "anthropic"
       then "/messages" else "/chat/completions").

(** The call upstream for a request, and the event it leaves. *)
Definition upstream_answer (self : Proxy.t) (e : Proxy.env) (req : Proxy.request)
  : Proxy.transport :=
  Proxy.post e (upstream_url self) (Proxy.get_json req) (Proxy.forward_headers req).

Definition posted (self : Proxy.t) (req : Proxy.request) : Proxy.event :=
  Proxy.Posted (upstream_url self) (Proxy.get_json req) (Proxy.forward_headers req).

(** What the client gets when [_forward_request] is the whole answer. *)
Definition relay (t : Proxy.transport) : Proxy.response :=
  match t with
  | Proxy.Upstream status content =>
      Proxy.Response status [("Content-Type", "application/json")] (Proxy.RawBody content)
  | Proxy.RequestException msg =>
      Proxy.Response 502 [("Content-Type", "application/json")]
        (Proxy.JsonBody (JObj [("error", JStr msg)]))
  end.

(** The cache-status header of a response. *)
Definition x_cache (r : Proxy.response) : option string :=
  dict_get (Proxy.headers r) "X-Cache".

(** The fields of the payload the handler fingerprints. *)
Definition payload_messages (req : Proxy.request) : json :=
  dict_get_default (Proxy.get_json req) "messages" (JArr []).
Definition payload_model (req : Proxy.request) : json :=
  dict_get_default (Proxy.get_json req) "model" (JStr "unknown").
(** The inbound request as the handler sees it past line 94, if its
    body was read as a JSON object. *)
Definition read_request (i : Proxy.http_request) : option Proxy.request :=
  match Proxy.body_json i with
  | Proxy.GotJson (JObj data) => Some (Proxy.Request data (Proxy.http_headers i))
  | _ => None
  end.

Definition payload_key (req : Proxy.request) (msgs : list dict) : string :=
  Hasher.hash_request msgs (payload_model req)
    (dict_get_default (Proxy.get_json req) "temperature" JNull)
    (dict_get_default (Proxy.get_json req) "max_tokens" JNull)
    (dict_get_default (Proxy.get_json req) "tools" JNull) [].

(** The ways one request through the handler can go: the response sent
    and the world left behind. *)
Inductive served (self : Proxy.t) (e : Proxy.env) (req : Proxy.request) (w : Proxy.world)
  : Proxy.response → Proxy.world → Prop :=
| served_stream :
    streaming req = true →
    served self e req w
      (relay (upstream_answer self e req))
      (Proxy.World (Proxy.db w) (Proxy.log w ++ [posted self req]))
| served_bad_messages ex :
    streaming req = false →
    Proxy.as_messages (payload_messages req) = Proxy.Raised ex →
    served self e req w Proxy.internal_server_error w
| served_corrupt msgs db1 :
    streaming req = false →
    Proxy.as_messages (payload_messages req) = Proxy.Returned msgs →
    Cache.get (Proxy.db w) (payload_key req msgs) (Proxy.clock_get e)
    = (Cache.DecodeError, db1) →
    served self e req w Proxy.internal_server_error
      (Proxy.World db1
         (Proxy.log w ++ [Proxy.Hashed (payload_key req msgs);
                          Proxy.CacheGet (payload_key req msgs)]))
| served_hit msgs v db1 :
    streaming req = false →
    Proxy.as_messages (payload_messages req) = Proxy.Returned msgs →
    Cache.get (Proxy.db w) (payload_key req msgs) (Proxy.clock_get e)
    = (Cache.Found v, db1) →
    v ≠ JNull →
    served self e req w
      (Proxy.set_header "X-Cache" "HIT" (Proxy.jsonify v))
      (Proxy.World db1
         (Proxy.log w ++ [Proxy.Hashed (payload_key req msgs);
                          Proxy.CacheGet (payload_key req msgs)]))
| served_miss_stored msgs m res db1 content v :
    streaming req = false →
    Proxy.as_messages (payload_messages req) = Proxy.Returned msgs →
    Cache.get (Proxy.db w) (payload_key req msgs) (Proxy.clock_get e) = (res, db1) →
    res = Cache.Absent ∨ res = Cache.Found JNull →
    upstream_answer self e req = Proxy.Upstream 200 content →
    Json.loads content = Some v →
    Proxy.bind_model e (payload_model req) = Proxy.Returned m →
    served self e req w
      (Proxy.set_header "X-Cache" "MISS" (Proxy.jsonify v))
      (Proxy.World
         (Cache.set (Proxy.cache self) db1 (payload_key req msgs) v m None
            (Proxy.clock_set e))
         (Proxy.log w ++ [Proxy.Hashed (payload_key req msgs);
                          Proxy.CacheGet (payload_key req msgs);
                          posted self req;
                          Proxy.CacheSet (payload_key req msgs) v m]))
| served_miss_unbound msgs ex res db1 content v :
    streaming req = false →
    Proxy.as_messages (payload_messages req) = Proxy.Returned msgs →
    Cache.get (Proxy.db w) (payload_key req msgs) (Proxy.clock_get e) = (res, db1) →
    res = Cache.Absent ∨ res = Cache.Found JNull →
    upstream_answer self e req = Proxy.Upstream 200 content →
    Json.loads content = Some v →
    Proxy.bind_model e (payload_model req) = Proxy.Raised ex →
    served self e req w Proxy.internal_server_error
      (Proxy.World db1
         (Proxy.log w ++ [Proxy.Hashed (payload_key req msgs);
                          Proxy.CacheGet (payload_key req msgs);
                          posted self req]))
| served_miss_relayed msgs res db1 status content :
    streaming req = false →
    Proxy.as_messages (payload_messages req) = Proxy.Returned msgs →
    Cache.get (Proxy.db w) (payload_key req msgs) (Proxy.clock_get e) = (res, db1) →
    res = Cache.Absent ∨ res = Cache.Found JNull →
    upstream_answer self e req = Proxy.Upstream status content →
    status ≠ 200 →
    served self e req w
      (relay (Proxy.Upstream status content))
      (Proxy.World db1
         (Proxy.log w ++ [Proxy.Hashed (payload_key req msgs);
                          Proxy.CacheGet (payload_key req msgs);
                          posted self req]))
| served_miss_undecodable msgs res db1 content :
    streaming req = false →
    Proxy.as_messages (payload_messages req) = Proxy.Returned msgs →
    Cache.get (Proxy.db w) (payload_key req msgs) (Proxy.clock_get e) = (res, db1) →
    res = Cache.Absent ∨ res = Cache.Found JNull →
    upstream_answer self e req = Proxy.Upstream 200 content →
    Json.loads content = None →
    served self e req w Proxy.internal_server_error
      (Proxy.World db1
         (Proxy.log w ++ [Proxy.Hashed (payload_key req msgs);
                          Proxy.CacheGet (payload_key req msgs);
                          posted self req]))
| served_miss_transport_error msgs res db1 msg :
    streaming req = false →
    Proxy.as_messages (payload_messages req) = Proxy.Returned msgs →
    Cache.get (Proxy.db w) (payload_key req msgs) (Proxy.clock_get e) = (res, db1) →
    res = Cache.Absent ∨ res = Cache.Found JNull →
    upstream_answer self e req = Proxy.RequestException msg →
    served self e req w Proxy.internal_server_error
      (Proxy.World db1
         (Proxy.log w ++ [Proxy.Hashed (payload_key req msgs);
                          Proxy.CacheGet (payload_key req msgs);
                          posted self req])).

(** A proxy in front of an OpenAI-style service, a chat request, the same
    request flagged as streaming, and a world where nothing has happened
    yet. *)
Definition example_proxy : Proxy.t :=
  Proxy.Proxy example_store "https://api.example.com/v1" "openai".

Definition example_request : Proxy.request :=
  Proxy.Request
    [("model", JStr "gpt-x"); ("messages", JArr (JObj <$> example_messages))]
    [("Authorization", "Bearer t")].

Definition example_stream_request : Proxy.request :=
  Proxy.Request
    (dict_set (Proxy.get_json example_request) "stream" (JBool true))
    (Proxy.request_headers example_request).

Definition fresh_world : Proxy.world := Proxy.World Cache.empty [].

(** Surroundings where the upstream cannot be reached, where it answers
    with status 500, and where it answers with status 200. *)
Definition unreachable : Proxy.env :=
  Proxy.Env 100 100 (fun _ _ _ => Proxy.RequestException "connection refused")
    (fun r => r).

Definition overloaded : Proxy.env :=
  Proxy.Env 100 100 (fun _ _ _ => Proxy.Upstream 500 "[]") (fun r => r).

Definition answering : Proxy.env :=
  Proxy.Env 100 100 (fun _ _ _ => Proxy.Upstream 200 "[1, 2]") (fun r => r).

(** The events a run of the handler adds to the log. *)
Definition new_events (w w' : Proxy.world) : list Proxy.event :=
  drop (List.length (Proxy.log w)) (Proxy.log w').

(** ** Calls on a cache, one after the other *)

(** A call of a method of [Cache] and the clock reading it makes. *)
Inductive call : Type :=
| CallGet (k : string)
| CallSet (k : string) (v : json) (m : string) (ttl_override : option Z)
| CallDelete (k : string)
| CallClear (older_than_days : option Z).

Definition step (self : Cache.t) (db : Cache.database) (tc : Z * call) : Cache.database :=
  match tc.2 with
  | CallGet k => (Cache.get db k tc.1).2
  | CallSet k v m ttl_override => Cache.set self db k v m ttl_override tc.1
  | CallDelete k => (Cache.delete db k).2
  | CallClear older_than_days => Cache.clear db older_than_days tc.1
  end.

Definition run (self : Cache.t) (calls : list (Z * call)) (db : Cache.database)
  : Cache.database :=
  fold_left (step self) calls db.

Definition is_get (tc : Z * call) : bool :=
  match tc.2 with CallGet _ => true | _ => false end.

Definition is_clear (tc : Z * call) : bool :=
  match tc.2 with CallClear _ => true | _ => false end.

(** The number of lookups the table [stats] has counted. *)
Definition lookups (db : Cache.database) : Z :=
  Cache.hits (Cache.stats db) + Cache.misses (Cache.stats db).

(** Clock readings that do not decrease, from [t] on. *)
Fixpoint clock_monotone (t : Z) (calls : list (Z * call)) : Prop :=
  match calls with
  | [] => True
  | tc :: calls' => t ≤ tc.1 ∧ clock_monotone tc.1 calls'
  end.

(** The last clock reading of a sequence of calls that starts after [t]. *)
Definition last_reading (t : Z) (calls : list (Z * call)) : Z :=
  match last calls with Some tc => tc.1 | None => t end.

(** The number of rows the table holds. *)
Definition entry_count (db : Cache.database) : Z :=
  Z.of_nat (List.length (Cache.cache db)).

(** ** Requests with the same fingerprint *)

(** The fields of a payload that [_handle_chat_completion] passes to
    [hash_request]. *)
Definition fingerprint_fields : list string :=
  ["messages"; "model"; "temperature"; "max_tokens"; "tools"].

Definition same_fingerprint_fields (req req' : Proxy.request) : Prop :=
  Forall (fun name => dict_get (Proxy.get_json req) name
                      = dict_get (Proxy.get_json req') name) fingerprint_fields.

(** The fields of a message that [normalize_messages] reads. *)
Definition same_hashed_fields (msg msg' : dict) : Prop :=
  dict_get_default msg "role" (JStr "") = dict_get_default msg' "role" (JStr "")
  ∧ dict_get_default msg "content" (JStr "") = dict_get_default msg' "content" (JStr "")
  ∧ Forall (fun name => dict_get msg name = dict_get msg' name)
      ["name"; "tool_calls"; "tool_call_id"].

(** The example request with one more field in its payload, and without
    the header. *)
Definition example_request_more : Proxy.request :=
  Proxy.Request (dict_set (Proxy.get_json example_request) "top_p" (JInt 1)) [].

(** The example request with the number 5 for its model. *)
Definition example_request_numbered : Proxy.request :=
  Proxy.Request (dict_set (Proxy.get_json example_request) "model" (JInt 5))
    (Proxy.request_headers example_request).

(** Surroundings where the upstream answers with status 200 and the body
    [null]. *)
Definition answering_null : Proxy.env :=
  Proxy.Env 100 100 (fun _ _ _ => Proxy.Upstream 200 "null") (fun r => r).

(** The string of [n] characters [c]. *)
Fixpoint replicate_char (n : nat) (c : ascii) : string :=
  match n with
  | O => ""
  | S n' => String c (replicate_char n' c)
  end.

(** The fields of a message that [normalize_messages] keeps. *)
Definition hashed_fields : list string :=
  ["role"; "content"; "name"; "tool_calls"; "tool_call_id"].

(** ** JSON values that [json.dumps] and [json.loads] give back *)

(** Values without floats whose dicts have distinct keys. *)
Fixpoint plain (v : json) : Prop :=
  match v with
  | JNull | JBool _ | JInt _ | JStr _ => True
  | JFloat _ => False
  | JArr items =>
      (fix all (l : list json) : Prop :=
         match l with
         | [] => True
         | x :: l' => plain x ∧ all l'
         end) items
  | JObj fields =>
      NoDup fields.*1
      ∧ (fix all (l : list (string * json)) : Prop :=
           match l with
           | [] => True
           | kv :: l' => plain kv.2 ∧ all l'
           end) fields
  end.

(** Calls of the scanner that reading a value back takes at most. *)
Fixpoint scan_depth (v : json) : nat :=
  match v with
  | JArr items =>
      S ((fix sum (l : list json) : nat :=
            match l with
            | [] => O
            | x :: l' => S (scan_depth x + sum l')
            end) items)
  | JObj fields =>
      S ((fix sum (l : list (string * json)) : nat :=
            match l with
            | [] => O
            | kv :: l' => S (scan_depth kv.2 + sum l')
            end) fields)
  | _ => 1%nat
  end.

(** What may follow a value in a JSON text: nothing, a comma, or the end
    of the array or object around it. *)
Definition after_value (rest : string) : Prop :=
  match rest with
  | EmptyString => True
  | String c _ => c = ","%char ∨ c = "]"%char ∨ c = "}"%char
  end.

(** The calls that reading back the elements of an array, or the values
    of the members of an object, takes at most. *)
Definition depth_sum (items : list json) : nat :=
  fold_right (fun x n => S (scan_depth x + n)) O items.

(** The texts of the members of an object as [json.dumps] writes them
    with its default separators. *)
Definition member_texts (fields : list (string * json)) : list string :=
  List.map (Json.encode_item ": ")
    (List.map (fun kv : string * json =>
                 let (k, x) := kv in (k, Json.dumps false ", " ": " x)) fields).

(** * Properties *)

(** ** hashlib: test vectors of SHA-256 *)

Example sha256_test_vectors :
  List.length SHA256.K = 64%nat
  ∧ hd 0 SHA256.K = 0x428a2f98
  ∧ last SHA256.K = Some 0xc67178f2
  ∧ sha256_hexdigest ""
    = "e3b0c44298fc1c149afbf4c8996fb92427ae41e4649b934ca495991b7852b855"
  ∧ sha256_hexdigest "abc"
    = "ba7816bf8f01cfea414140de5dae2223b00361a396177a9cb410ff61f20015ad"
  ∧ sha256_hexdigest "abcdbcdecdefdefgefghfghighijhijkijkljklmklmnlmnomnopnopq"
    = "248d6a61d20638b8e5c026930c3e6039a33ce45964ff2167f6ecedd419db06c1".
Proof. vm_compute. done. Qed.

Opaque sha256_hexdigest.

(** ** Dicts and their sorted items *)

Section dict_facts.
Context {A : Type}.
Implicit Types (d : list (string * A)) (k : string) (v : A).

Lemma dict_get_None d k : dict_get d k = None ↔ k ∉ d.*1.
Proof.
  induction d as [|[k' v'] d IH]; simpl.
  - split; [intros _; apply not_elem_of_nil | done].
  - rewrite not_elem_of_cons. destruct (String.eqb_spec k' k) as [->|Hne].
    + split; [done | intros [? _]; done].
    + rewrite IH. split; [intros ?; split; [congruence | done] | intros [_ ?]; done].
Qed.

Lemma dict_get_Some d k v : NoDup d.*1 → dict_get d k = Some v ↔ (k, v) ∈ d.
Proof.
  induction d as [|[k' v'] d IH]; simpl; intros Hnd.
  - split; [done | intros ?%elem_of_nil; done].
  - apply NoDup_cons in Hnd as [Hk' Hnd]. rewrite elem_of_cons.
    destruct (String.eqb_spec k' k) as [->|Hne].
    + split; [intros [= ->]; by left |].
      intros [[= ->]|Hin]; [done |].
      exfalso. apply Hk'. apply list_elem_of_fmap. by exists (k, v).
    + rewrite IH by done. split; [by right | intros [[= ? ?]|?]; [congruence | done]].
Qed.

Lemma dict_get_perm d d' k : NoDup d.*1 → d ≡ₚ d' → dict_get d k = dict_get d' k.
Proof.
  intros Hnd Hp.
  assert (NoDup d'.*1) as Hnd' by (by rewrite <- Hp).
  destruct (dict_get d k) as [v|] eqn:E.
  - symmetry. apply dict_get_Some; [done |]. rewrite <- Hp. by apply dict_get_Some.
  - symmetry. apply dict_get_None. rewrite <- Hp. by apply dict_get_None.
Qed.

Lemma insert_item_perm x d : insert_item x d ≡ₚ x :: d.
Proof.
  induction d as [|y d IH]; simpl; [done |].
  destruct (String.leb x.1 y.1); [done |].
  rewrite IH. apply Permutation_swap.
Qed.

Lemma sorted_items_perm d : sorted_items d ≡ₚ d.
Proof.
  induction d as [|x d IH]; simpl; [done |].
  unfold sorted_items in *. simpl. by rewrite insert_item_perm, IH.
Qed.

Lemma key_le_trans (x y z : string * A) : key_le x y → key_le y z → key_le x z.
Proof. unfold key_le. apply (transitivity (R := String.le)). Qed.

Lemma insert_item_sorted x d :
  StronglySorted key_le d → StronglySorted key_le (insert_item x d).
Proof.
  induction 1 as [|y d Hd IH Hy]; simpl.
  - repeat constructor.
  - destruct (String.leb x.1 y.1) eqn:E.
    + constructor; [by constructor |].
      assert (key_le x y) as Hxy by (unfold key_le, String.le; by rewrite E).
      constructor; [done |].
      eapply Forall_impl; [exact Hy |]. intros z Hz. by eapply key_le_trans.
    + constructor; [done |].
      rewrite insert_item_perm. constructor; [| done].
      destruct (total String.le x.1 y.1) as [Hle|Hle]; [| done].
      unfold String.le in Hle. by rewrite E in Hle.
Qed.

Lemma sorted_items_sorted d : StronglySorted key_le (sorted_items d).
Proof.
  induction d as [|x d IH]; [constructor |].
  unfold sorted_items in *. simpl. by apply insert_item_sorted.
Qed.

Lemma filter_sorted (P : string * A → Prop) `{∀ x, Decision (P x)} d :
  StronglySorted key_le d → StronglySorted key_le (filter P d).
Proof.
  induction 1 as [|y d Hd IH Hy]; [constructor |].
  rewrite filter_cons. destruct (decide (P y)); [| done].
  constructor; [done |].
  apply Forall_forall. intros z [_ Hz]%list_elem_of_filter.
  by eapply Forall_forall in Hy.
Qed.

(** Two key-ordered lists with the same items and no repeated key are
    the same list. *)
Lemma sorted_unique d d' :
  NoDup d.*1 → StronglySorted key_le d → StronglySorted key_le d' →
  d ≡ₚ d' → d = d'.
Proof.
  intros Hnd Hs Hs' Hp.
  apply (StronglySorted_unique_strong key_le); [| done..].
  intros [k1 v1] [k2 v2] H1 H2 H12 H21.
  rewrite <- Hp in H2.
  assert (k1 = k2) as <-.
  { apply (anti_symm String.le); done. }
  f_equal.
  apply (dict_get_Some d k1 v1) in H1; [| done].
  apply (dict_get_Some d k1 v2) in H2; [| done].
  congruence.
Qed.

Lemma sorted_items_perm_eq d d' :
  NoDup d.*1 → d ≡ₚ d' → sorted_items d = sorted_items d'.
Proof.
  intros Hnd Hp. apply sorted_unique.
  - by rewrite sorted_items_perm.
  - apply sorted_items_sorted.
  - apply sorted_items_sorted.
  - by rewrite !sorted_items_perm.
Qed.
End dict_facts.

Section dict_facts_more.
Context {A B : Type}.
Implicit Types (d : list (string * A)) (k : string) (v : A).

Lemma dict_get_set_eq d k v : dict_get (dict_set d k v) k = Some v.
Proof.
  induction d as [|[k' v'] d IH]; simpl.
  - by rewrite String.eqb_refl.
  - destruct (String.eqb_spec k' k) as [->|Hne]; simpl.
    + by rewrite String.eqb_refl.
    + by destruct (String.eqb_spec k' k).
Qed.

Lemma dict_get_set_ne d k k' v : k ≠ k' → dict_get (dict_set d k' v) k = dict_get d k.
Proof.
  intros Hne. induction d as [|[k0 v0] d IH]; simpl.
  - by destruct (String.eqb_spec k' k).
  - destruct (String.eqb_spec k0 k') as [->|Hne0]; simpl.
    + by destruct (String.eqb_spec k' k).
    + by rewrite IH.
Qed.

(** Serializing the values of a dict and ordering its items by key can
    be done in either order. *)
Lemma insert_item_map_values (f : A → B) (x : string * A) d :
  insert_item (x.1, f x.2) (List.map (fun kv : string * A => let (k, y) := kv in (k, f y)) d)
  = List.map (fun kv : string * A => let (k, y) := kv in (k, f y)) (insert_item x d).
Proof.
  induction d as [|[k' v'] d IH]; simpl; [by destruct x |].
  destruct (String.leb x.1 k'); simpl; [by destruct x | by rewrite IH].
Qed.

Lemma sorted_items_map_values (f : A → B) d :
  sorted_items (List.map (fun kv : string * A => let (k, y) := kv in (k, f y)) d)
  = List.map (fun kv : string * A => let (k, y) := kv in (k, f y)) (sorted_items d).
Proof.
  induction d as [|[k v] d IH]; [done |].
  unfold sorted_items in *. simpl. rewrite IH.
  apply (insert_item_map_values f (k, v)).
Qed.
End dict_facts_more.

(** ** hasher.py: the fingerprint does not depend on how the keywords are
    written *)

Lemma add_kwarg_supplied (l : dict) (rd : dict) :
  fold_left Hasher.add_kwarg l rd = fold_left Hasher.add_kwarg (supplied l) rd.
Proof.
  revert rd. induction l as [|[k v] l IH]; intros rd; [done |].
  unfold supplied. rewrite filter_cons. simpl.
  destruct v; simpl; try apply IH.
Qed.

Lemma kwarg_supplied (kw : dict) (name : string) :
  NoDup kw.*1 → Hasher.kwarg (supplied kw) name = Hasher.kwarg kw name.
Proof.
  unfold Hasher.kwarg, dict_get_default.
  induction kw as [|[k v] kw IH]; [done |].
  intros [Hk Hnd]%NoDup_cons. unfold supplied. rewrite filter_cons. simpl.
  destruct (String.eqb_spec k name) as [->|Hne].
  - destruct (decide (is_not_none v)) as [Hv|Hv]; simpl.
    + by rewrite String.eqb_refl.
    + assert (dict_get (filter (fun kv : string * json => is_not_none kv.2) kw) name = None) as ->.
      { apply dict_get_None. intros Hin. apply Hk.
        apply list_elem_of_fmap in Hin as [kv [-> Hin]].
        apply list_elem_of_filter in Hin as [_ Hin].
        apply list_elem_of_fmap. by exists kv. }
      by destruct v.
  - destruct (decide (is_not_none v)); simpl.
    + destruct (String.eqb_spec k name); [done |]. by apply IH.
    + by apply IH.
Qed.

Lemma NoDup_keys_filter (P : string * json → Prop) `{∀ x, Decision (P x)} (kw : dict) :
  NoDup kw.*1 → NoDup (filter P kw).*1.
Proof.
  intros Hnd. eapply sublist_NoDup; [exact Hnd |].
  apply fmap_sublist, sublist_filter.
Qed.

Lemma filter_comm {A} (P Q : A → Prop) `{∀ x, Decision (P x), ∀ x, Decision (Q x)}
    (l : list A) :
  filter P (filter Q l) = filter Q (filter P l).
Proof.
  rewrite !list_filter_filter. apply list_filter_iff. intros x. tauto.
Qed.

Lemma kwarg_perm (kw kw' : dict) (name : string) :
  NoDup kw.*1 → NoDup kw'.*1 → supplied kw ≡ₚ supplied kw' →
  Hasher.kwarg kw name = Hasher.kwarg kw' name.
Proof.
  intros Hnd Hnd' Hp.
  rewrite <- (kwarg_supplied kw), <- (kwarg_supplied kw') by done.
  unfold Hasher.kwarg, dict_get_default.
  rewrite (dict_get_perm (supplied kw) (supplied kw') name); [done | | done].
  by apply NoDup_keys_filter.
Qed.

Lemma extras_perm (kw kw' : dict) :
  NoDup kw.*1 → NoDup kw'.*1 → supplied kw ≡ₚ supplied kw' →
  supplied (sorted_items (filter Hasher.is_extra kw))
  = supplied (sorted_items (filter Hasher.is_extra kw')).
Proof.
  intros Hnd Hnd' Hp. apply sorted_unique.
  - apply NoDup_keys_filter. rewrite sorted_items_perm. by apply NoDup_keys_filter.
  - apply filter_sorted, sorted_items_sorted.
  - apply filter_sorted, sorted_items_sorted.
  - unfold supplied in *. rewrite !sorted_items_perm.
    rewrite !(filter_comm _ Hasher.is_extra). by rewrite Hp.
Qed.

Lemma call_hash_request_supplied (messages : list dict) (model : json) (kw kw' : dict) :
  Hasher.call_ok kw → Hasher.call_ok kw' → supplied kw ≡ₚ supplied kw' →
  Hasher.call_hash_request messages model kw
  = Hasher.call_hash_request messages model kw'.
Proof.
  intros Hok Hok' Hp. unfold Hasher.call_hash_request.
  rewrite !decide_True by done. f_equal.
  destruct Hok as [Hnd _], Hok' as [Hnd' _].
  unfold Hasher.hash_request, Hasher.canonical_json, Hasher.request_data.
  rewrite (kwarg_perm kw kw' "temperature"), (kwarg_perm kw kw' "max_tokens"),
    (kwarg_perm kw kw' "tools") by done.
  do 3 f_equal.
  rewrite (add_kwarg_supplied (sorted_items (filter Hasher.is_extra kw))).
  rewrite (add_kwarg_supplied (sorted_items (filter Hasher.is_extra kw'))).
  by rewrite (extras_perm kw kw').
Qed.

Lemma call_ok_perm (kw kw' : dict) : kw ≡ₚ kw' → Hasher.call_ok kw → Hasher.call_ok kw'.
Proof. intros Hp [Hnd Hall]. split; by rewrite <- Hp. Qed.

Lemma call_ok_drop (kw1 kw2 : dict) (kv : string * json) :
  Hasher.call_ok (kw1 ++ kv :: kw2) → Hasher.call_ok (kw1 ++ kw2).
Proof.
  intros [Hnd Hall]. split.
  - rewrite fmap_app, fmap_cons in Hnd. rewrite fmap_app.
    apply NoDup_app in Hnd as (H1 & H12 & H2). apply NoDup_cons in H2 as [_ H2].
    apply NoDup_app. split_and!; [done | | done].
    intros x Hx Hx2. apply (H12 x Hx). by right.
  - apply Forall_app in Hall as [H1 H2]. apply Forall_cons in H2 as [_ H2].
    by apply Forall_app.
Qed.

(** C1. For every list of messages and model, a legal call of
    [hash_request] returns the same SHA-256 hex digest whatever the order
    of its optional keyword arguments, and a keyword with value [None]
    gives the digest of the call without that keyword. *)
Theorem hash_request_keyword_order_and_none (messages : list dict) (model : json) :
  (∀ kw kw' : dict,
      Hasher.call_ok kw → kw ≡ₚ kw' →
      ∃ digest,
        Hasher.call_hash_request messages model kw = Some digest
        ∧ Hasher.call_hash_request messages model kw' = Some digest)
  ∧ (∀ (kw1 kw2 : dict) (name : string),
        Hasher.call_ok (kw1 ++ (name, JNull) :: kw2) →
        ∃ digest,
          Hasher.call_hash_request messages model (kw1 ++ (name, JNull) :: kw2) = Some digest
          ∧ Hasher.call_hash_request messages model (kw1 ++ kw2) = Some digest).
Proof.
  split.
  - intros kw kw' Hok Hp.
    assert (Hasher.call_ok kw') as Hok' by (by eapply call_ok_perm).
    rewrite <- (call_hash_request_supplied messages model kw kw') by
      (try done; unfold supplied; by rewrite Hp).
    unfold Hasher.call_hash_request. rewrite decide_True by done. eauto.
  - intros kw1 kw2 name Hok.
    assert (Hasher.call_ok (kw1 ++ kw2)) as Hok' by (by eapply call_ok_drop).
    rewrite <- (call_hash_request_supplied messages model
                  (kw1 ++ (name, JNull) :: kw2) (kw1 ++ kw2)).
    + unfold Hasher.call_hash_request. rewrite decide_True by done. eauto.
    + done.
    + done.
    + unfold supplied. by rewrite !filter_app, filter_cons.
Qed.


Lemma hash_request_keyword_order_and_none_witness :
  Hasher.call_hash_request example_messages (JStr "gpt-x")
    [("temperature", JFloat "0.7"); ("seed", JInt 7)]
  = Hasher.call_hash_request example_messages (JStr "gpt-x")
      [("seed", JInt 7); ("temperature", JFloat "0.7")]
  ∧ Hasher.call_hash_request example_messages (JStr "gpt-x")
      [("temperature", JFloat "0.7"); ("max_tokens", JNull); ("seed", JInt 7)]
    = Hasher.call_hash_request example_messages (JStr "gpt-x")
        [("temperature", JFloat "0.7"); ("seed", JInt 7)].
Proof.
  destruct (hash_request_keyword_order_and_none example_messages (JStr "gpt-x")) as [Hord Hnone].
  split.
  - destruct (Hord [("temperature", JFloat "0.7"); ("seed", JInt 7)]
                   [("seed", JInt 7); ("temperature", JFloat "0.7")])
      as (digest & -> & ->); [| apply Permutation_swap | reflexivity].
    split; compute_done.
  - destruct (Hnone [("temperature", JFloat "0.7")] [("seed", JInt 7)] "max_tokens")
      as (digest & H1 & H2); [| simpl in *; congruence].
    split; compute_done.
Defined.

(** The canonical text of the scenario of the specification, and its
    digest. *)
Example canonical_json_example :
  Hasher.canonical_json example_messages (JStr "gpt-x") (JFloat "0.7") JNull JNull []
  = String.concat (String Json.dquote "")
      ["{"; "messages"; ":[{"; "content"; ":"; "hi"; ","; "role"; ":"; "user"; "}],";
       "model"; ":"; "gpt-x"; ","; "temperature"; ":0.7}"].
Proof. vm_compute. reflexivity. Qed.

(** ** hasher.py: an empty list of tools *)

Lemma dict_get_app_skip {A} (d1 d2 : list (string * A)) (k name : string) (v : A) :
  name ≠ k → dict_get (d1 ++ (k, v) :: d2) name = dict_get (d1 ++ d2) name.
Proof.
  intros Hne. induction d1 as [|[k1 v1] d1 IH]; simpl.
  - by destruct (String.eqb_spec k name).
  - by rewrite IH.
Qed.

Lemma request_data_lookup_other (rd : dict) (l : dict) (name : string) :
  name ∉ l.*1 →
  dict_get (fold_left Hasher.add_kwarg l rd) name = dict_get rd name.
Proof.
  revert rd. induction l as [|[k v] l IH]; intros rd Hn; [done |].
  simpl in *. apply not_elem_of_cons in Hn as [Hne Hn].
  rewrite IH by done. unfold Hasher.add_kwarg. simpl.
  destruct (is_not_none v); [| done]. by apply dict_get_set_ne.
Qed.

(** C10. [hash_request] with [tools] the empty list returns the
    fingerprint of the same call with [tools] absent ([None]): the truth
    test leaves the empty list out of the serialized dict, which then has
    no [tools] member. *)
Theorem hash_request_empty_tools_is_no_tools
    (messages : list dict) (model : json) (temperature max_tokens : json) (kwargs : dict) :
  Hasher.hash_request messages model temperature max_tokens (JArr []) kwargs
  = Hasher.hash_request messages model temperature max_tokens JNull kwargs
  ∧ Hasher.canonical_json messages model temperature max_tokens (JArr []) kwargs
    = Hasher.canonical_json messages model temperature max_tokens JNull kwargs
  ∧ ("tools" ∉ kwargs.*1 →
     dict_get (Hasher.request_data messages model temperature max_tokens (JArr []) kwargs)
       "tools" = None)
  ∧ (∀ kw1 kw2 : dict,
        Hasher.call_ok (kw1 ++ ("tools", JArr []) :: kw2) →
        ∃ digest,
          Hasher.call_hash_request messages model (kw1 ++ ("tools", JArr []) :: kw2)
          = Some digest
          ∧ Hasher.call_hash_request messages model (kw1 ++ kw2) = Some digest).
Proof.
  split_and!; [done | done | |].
  - intros Hn. unfold Hasher.request_data. simpl.
    rewrite request_data_lookup_other by (by rewrite sorted_items_perm).
    by destruct temperature, max_tokens.
  - intros kw1 kw2 Hok.
    assert (Hasher.call_ok (kw1 ++ kw2)) as Hok' by (by eapply call_ok_drop).
    unfold Hasher.call_hash_request. rewrite !decide_True by done.
    destruct Hok as [Hnd _], Hok' as [Hnd' _].
    assert ("tools" ∉ ((kw1 ++ kw2)%list).*1) as Hfresh.
    { rewrite fmap_app, fmap_cons in Hnd. apply NoDup_app in Hnd as (_ & H12 & H2).
      apply NoDup_cons in H2 as [H2 _]. rewrite fmap_app, elem_of_app.
      intros [Hin|Hin]; [| done]. apply (H12 _ Hin). by left. }
    assert (∀ name, name ≠ "tools" →
              Hasher.kwarg (kw1 ++ ("tools", JArr []) :: kw2) name
              = Hasher.kwarg (kw1 ++ kw2) name) as Hother.
    { intros name Hne. unfold Hasher.kwarg, dict_get_default.
      by rewrite dict_get_app_skip. }
    assert (Hasher.kwarg (kw1 ++ ("tools", JArr []) :: kw2) "tools" = JArr []) as Ht.
    { unfold Hasher.kwarg, dict_get_default.
      assert (dict_get (kw1 ++ ("tools", JArr []) :: kw2) "tools" = Some (JArr [])) as ->;
        [| done].
      apply dict_get_Some; [done |]. apply elem_of_app. right. by left. }
    assert (Hasher.kwarg (kw1 ++ kw2) "tools" = JNull) as Ht'.
    { unfold Hasher.kwarg, dict_get_default.
      by rewrite (proj2 (dict_get_None (kw1 ++ kw2) "tools") Hfresh). }
    assert (filter Hasher.is_extra (kw1 ++ ("tools", JArr []) :: kw2)%list
            = filter Hasher.is_extra (kw1 ++ kw2)%list) as Hextra.
    { rewrite !filter_app, filter_cons_False; [done |].
      unfold Hasher.is_extra, Hasher.named_params. simpl. intros Hn. apply Hn.
      compute_done. }
    unfold Hasher.hash_request, Hasher.canonical_json, Hasher.request_data.
    rewrite Ht, Ht', Hextra, !Hother by done. simpl. eauto.
Qed.

Lemma hash_request_empty_tools_is_no_tools_witness :
  dict_get (Hasher.request_data example_messages (JStr "gpt-x") (JFloat "0.7") JNull (JArr [])
              [("seed", JInt 7)]) "tools" = None
  ∧ Hasher.call_hash_request example_messages (JStr "gpt-x")
      [("temperature", JFloat "0.7"); ("tools", JArr []); ("seed", JInt 7)]
    = Hasher.call_hash_request example_messages (JStr "gpt-x")
        [("temperature", JFloat "0.7"); ("seed", JInt 7)].
Proof.
  destruct (hash_request_empty_tools_is_no_tools example_messages (JStr "gpt-x")
              (JFloat "0.7") JNull [("seed", JInt 7)]) as (_ & _ & Hno & Hcall).
  split.
  - apply Hno. compute_done.
  - destruct (Hcall [("temperature", JFloat "0.7")] [("seed", JInt 7)])
      as (digest & H1 & H2); [| simpl in *; congruence].
    split; compute_done.
Defined.

(** ** cache.py: rows and keys *)

Lemma select_Some_key (rows : list Cache.row) (k : string) (r : Cache.row) :
  Cache.select rows k = Some r → Cache.key r = k ∧ r ∈ rows.
Proof.
  unfold Cache.select. intros H. apply find_some in H as [Hin Heq].
  apply String.eqb_eq in Heq. split; [done | by apply list_elem_of_In].
Qed.

Lemma select_None (rows : list Cache.row) (k : string) :
  Cache.select rows k = None ↔ k ∉ Cache.key <$> rows.
Proof.
  unfold Cache.select. induction rows as [|r rows IH]; simpl.
  - split; [intros _; apply not_elem_of_nil | done].
  - rewrite not_elem_of_cons.
    destruct (String.eqb_spec (Cache.key r) k) as [He|Hne].
    + split; [done | intros [? _]; congruence].
    + rewrite IH. split; [intros ?; split; [congruence | done] | intros [_ ?]; done].
Qed.

Lemma select_delete_key_eq (rows : list Cache.row) (k : string) :
  Cache.select (Cache.delete_key rows k) k = None.
Proof.
  apply select_None. intros [r [-> Hin]]%list_elem_of_fmap.
  by apply list_elem_of_filter in Hin as [Hne _].
Qed.

Lemma select_filter_other (P : Cache.row → Prop) `{∀ r, Decision (P r)}
    (rows : list Cache.row) (k : string) :
  (∀ r, Cache.key r = k → P r) →
  Cache.select (filter P rows) k = Cache.select rows k.
Proof.
  intros HP. unfold Cache.select. induction rows as [|r rows IH]; [done |].
  rewrite filter_cons. simpl.
  destruct (String.eqb_spec (Cache.key r) k) as [He|Hne].
  - rewrite decide_True by auto. simpl. by rewrite (proj2 (String.eqb_eq _ _) He).
  - destruct (decide (P r)); [| done]. simpl.
    by rewrite (proj2 (String.eqb_neq _ _) Hne).
Qed.

Lemma select_delete_key_ne (rows : list Cache.row) (k k' : string) :
  k' ≠ k → Cache.select (Cache.delete_key rows k) k' = Cache.select rows k'.
Proof. intros Hne. apply select_filter_other. intros r ->. done. Qed.

Lemma key_touch (now : Z) (k : string) (r : Cache.row) :
  Cache.key (Cache.touch now k r) = Cache.key r.
Proof. unfold Cache.touch. by destruct (String.eqb _ _). Qed.




(** ** cache.py: insertion and eviction *)

Lemma select_app_r (l l' : list Cache.row) (k : string) :
  k ∉ Cache.key <$> l → Cache.select (l ++ l') k = Cache.select l' k.
Proof.
  intros Hn. unfold Cache.select. induction l as [|r l IH]; [done |]. simpl.
  apply not_elem_of_cons in Hn as [Hne Hn].
  rewrite (proj2 (String.eqb_neq _ _)) by done. by apply IH.
Qed.

Lemma select_app_l (l l' : list Cache.row) (k' : string) :
  k' ∉ Cache.key <$> l' → Cache.select (l ++ l') k' = Cache.select l k'.
Proof.
  intros Hn. unfold Cache.select. induction l as [|r l IH]; simpl.
  - by apply select_None.
  - destruct (String.eqb (Cache.key r) k'); [done | apply IH].
Qed.

Lemma key_not_in_delete_key (rows : list Cache.row) (k : string) :
  k ∉ Cache.key <$> Cache.delete_key rows k.
Proof. apply select_None, select_delete_key_eq. Qed.

Lemma select_insert_or_replace_eq (rows : list Cache.row) (r : Cache.row) :
  Cache.select (Cache.insert_or_replace rows r) (Cache.key r) = Some r.
Proof.
  unfold Cache.insert_or_replace.
  rewrite select_app_r by apply key_not_in_delete_key.
  unfold Cache.select. simpl. by rewrite String.eqb_refl.
Qed.

Lemma select_insert_or_replace_ne (rows : list Cache.row) (r : Cache.row) (k' : string) :
  k' ≠ Cache.key r →
  Cache.select (Cache.insert_or_replace rows r) k' = Cache.select rows k'.
Proof.
  intros Hne. unfold Cache.insert_or_replace.
  rewrite select_app_l.
  - by apply select_delete_key_ne.
  - simpl. intros [->|[]%elem_of_nil]%elem_of_cons. done.
Qed.

Lemma insert_by_access_perm (r : Cache.row) (l : list Cache.row) :
  Cache.insert_by_access r l ≡ₚ r :: l.
Proof.
  induction l as [|y l IH]; simpl; [done |].
  destruct (Cache.last_accessed r <=? Cache.last_accessed y); [done |].
  rewrite IH. apply Permutation_swap.
Qed.

Lemma order_by_last_accessed_perm (rows : list Cache.row) :
  Cache.order_by_last_accessed rows ≡ₚ rows.
Proof.
  induction rows as [|r rows IH]; [done |].
  unfold Cache.order_by_last_accessed in *. simpl.
  by rewrite insert_by_access_perm, IH.
Qed.

Lemma insert_by_access_sorted (r : Cache.row) (l : list Cache.row) :
  StronglySorted access_le l → StronglySorted access_le (Cache.insert_by_access r l).
Proof.
  induction 1 as [|y l Hl IH Hy]; simpl.
  - repeat constructor.
  - destruct (Z.leb_spec (Cache.last_accessed r) (Cache.last_accessed y)) as [Hle|Hgt].
    + constructor; [by constructor |]. constructor; [done |].
      eapply Forall_impl; [exact Hy |]. unfold access_le. intros; lia.
    + constructor; [done |]. rewrite insert_by_access_perm.
      constructor; [unfold access_le; lia | done].
Qed.

Lemma order_by_last_accessed_sorted (rows : list Cache.row) :
  StronglySorted access_le (Cache.order_by_last_accessed rows).
Proof.
  induction rows as [|r rows IH]; [constructor |].
  unfold Cache.order_by_last_accessed in *. simpl. by apply insert_by_access_sorted.
Qed.

(** A row accessed no earlier than all the others, and inserted last,
    comes last in the eviction order. *)
Lemma insert_by_access_snoc (x r : Cache.row) (l : list Cache.row) :
  access_le x r →
  Cache.insert_by_access x (l ++ [r]) = Cache.insert_by_access x l ++ [r].
Proof.
  intros Hle. induction l as [|y l IH]; simpl.
  - unfold access_le in Hle. by rewrite (proj2 (Z.leb_le _ _) Hle).
  - destruct (Cache.last_accessed x <=? Cache.last_accessed y); [done |].
    by rewrite IH.
Qed.

Lemma order_by_last_accessed_snoc (rows : list Cache.row) (r : Cache.row) :
  Forall (fun x => access_le x r) rows →
  Cache.order_by_last_accessed (rows ++ [r]) = Cache.order_by_last_accessed rows ++ [r].
Proof.
  induction 1 as [|x rows Hx Hrows IH]; [done |].
  unfold Cache.order_by_last_accessed in *. simpl.
  rewrite IH. by apply insert_by_access_snoc.
Qed.

(** What [Cache.set] leaves in the table: rows of the table after the
    insertion, in their order. *)
Lemma set_cache_filter (self : Cache.t) (db : Cache.database) (k : string) (v : json)
    (m : string) (ttl_override : option Z) (now : Z) :
  ∃ ks : list string,
    Cache.cache (Cache.set self db k v m ttl_override now)
    = Cache.delete_keys
        (Cache.insert_or_replace (Cache.cache db) (fresh_row self k v m ttl_override now)) ks.
Proof.
  assert (∀ rows : list Cache.row, rows = Cache.delete_keys rows []) as Hnil.
  { intros rows. unfold Cache.delete_keys. induction rows as [|r rows IH]; [done |].
    rewrite filter_cons_True by apply not_elem_of_nil. by f_equal. }
  unfold Cache.set. fold (effective_ttl self ttl_override).
  fold (fresh_row self k v m ttl_override now).
  destruct (Cache.max_entries self) as [limit|]; [| by exists []; simpl].
  destruct (limit =? 0); [by exists []; simpl |].
  unfold Cache._evict_lru. simpl.
  destruct (_ >? limit); [by eexists | by exists []; simpl].
Qed.

Lemma set_stats (self : Cache.t) (db : Cache.database) (k : string) (v : json)
    (m : string) (ttl_override : option Z) (now : Z) :
  Cache.stats (Cache.set self db k v m ttl_override now) = Cache.stats db.
Proof.
  unfold Cache.set. destruct (Cache.max_entries self) as [limit|]; [| done].
  destruct (limit =? 0); [done |]. unfold Cache._evict_lru. simpl.
  by destruct (_ >? limit).
Qed.

(** An entry found under the key after [Cache.set] is the inserted one. *)
Lemma select_after_set_fresh (self : Cache.t) (db : Cache.database) (k : string)
    (v : json) (m : string) (ttl_override : option Z) (now : Z) (r' : Cache.row) :
  Cache.select (Cache.cache (Cache.set self db k v m ttl_override now)) k = Some r' →
  r' = fresh_row self k v m ttl_override now.
Proof.
  destruct (set_cache_filter self db k v m ttl_override now) as [ks ->].
  intros [Hk Hin]%select_Some_key.
  apply list_elem_of_filter in Hin as [_ Hin].
  unfold Cache.insert_or_replace in Hin. apply elem_of_app in Hin as [Hin|Hin].
  - exfalso. apply (key_not_in_delete_key (Cache.cache db) k).
    apply list_elem_of_fmap. exists r'. split; [done |]. by rewrite <- Hk in Hin |- *.
  - by apply list_elem_of_singleton in Hin.
Qed.

(** With a limit that is not negative and a clock that has not run
    backwards, the inserted entry is not the one evicted. *)
Lemma select_after_set (self : Cache.t) (db : Cache.database) (k : string)
    (v : json) (m : string) (ttl_override : option Z) (now : Z) :
  limit_ok self → clock_ok db now →
  Cache.select (Cache.cache (Cache.set self db k v m ttl_override now)) k
  = Some (fresh_row self k v m ttl_override now).
Proof.
  intros Hlimit Hclock.
  pose proof (select_insert_or_replace_eq (Cache.cache db)
                (fresh_row self k v m ttl_override now)) as Hins.
  unfold Cache.set. fold (effective_ttl self ttl_override).
  fold (fresh_row self k v m ttl_override now).
  set (r := fresh_row self k v m ttl_override now) in *.
  destruct (Cache.max_entries self) as [limit|] eqn:Hmax; [| done].
  destruct (Z.eqb_spec limit 0) as [|Hnz]; [done |].
  assert (0 < limit) as Hpos by (specialize (Hlimit limit Hmax); lia).
  unfold Cache._evict_lru. simpl.
  destruct (_ >? limit) eqn:Hover; [| done]. simpl.
  unfold Cache.delete_keys. rewrite select_filter_other; [done |].
  intros r0 Hr0. unfold Cache.insert_or_replace.
  change (Cache.key r) with k.
  set (old := Cache.delete_key (Cache.cache db) k).
  rewrite order_by_last_accessed_snoc.
  2:{ apply Forall_forall. intros x [_ Hx]%list_elem_of_filter.
      unfold clock_ok in Hclock. rewrite Forall_forall in Hclock.
      unfold access_le. simpl. by apply Hclock. }
  rewrite length_app. simpl.
  rewrite take_app_le.
  2:{ rewrite (Permutation_length (order_by_last_accessed_perm old)). lia. }
  intros [x [Hkx Hx]]%list_elem_of_fmap.
  apply elem_of_take in Hx as (i & Hx & _). apply list_elem_of_lookup_2 in Hx.
  rewrite order_by_last_accessed_perm in Hx.
  apply (key_not_in_delete_key (Cache.cache db) k).
  apply list_elem_of_fmap. exists x. split; [| done]. congruence.
Qed.

(** C3 (amended). [Cache.set(k, v, m)] followed at once by
    [Cache.get(k)] returns [v], for a JSON-representable [v], when no more
    time has passed than the effective TTL, on a store whose entry limit
    is not negative and whose clock has not run backwards since the last
    access it recorded. *)
Theorem set_then_get_round_trip (self : Cache.t) (db : Cache.database) (k : string)
    (v : json) (m : string) (ttl_override : option Z) (now now' : Z) :
  json_representable v →
  limit_ok self →
  clock_ok db now →
  (∀ ttl, effective_ttl self ttl_override = Some ttl → now' ≤ now + ttl) →
  (Cache.get (Cache.set self db k v m ttl_override now) k now').1 = Cache.Found v.
Proof.
  intros Hv Hlimit Hclock Httl. unfold Cache.get.
  rewrite select_after_set by done.
  assert (Cache.expired (fresh_row self k v m ttl_override now) now' = false) as ->.
  { unfold Cache.expired, fresh_row. simpl.
    destruct (effective_ttl self ttl_override) as [ttl|]; [| done].
    apply Z.ltb_ge. by apply Httl. }
  unfold fresh_row at 1. simpl. unfold json_representable in Hv. by rewrite Hv.
Qed.

Lemma set_then_get_round_trip_witness :
  (Cache.get (Cache.set example_store example_db "k1" example_response "gpt-x" None 100)
     "k1" 160).1
  = Cache.Found example_response.
Proof.
  apply set_then_get_round_trip.
  - vm_compute. reflexivity.
  - intros n [= <-]. lia.
  - repeat constructor. simpl. lia.
  - intros ttl [= <-]. lia.
Defined.

(** Without either condition the entry just inserted is the one evicted:
    with the limit -1 the surplus is two rows, more than the table holds;
    and on a full store that holds an entry accessed at a later clock
    reading, the new entry is the least recently used. *)
Lemma set_then_get_round_trip_counterexample :
  json_representable (JInt 1)
  ∧ (Cache.get (Cache.set (Cache.Config None (Some (-1))) Cache.empty "k"
                  (JInt 1) "gpt-x" None 10) "k" 10).1
    = Cache.Absent
  ∧ (Cache.get (Cache.set (Cache.Config None (Some 1))
                  (Cache.Database [Cache.Row "j" "2" "gpt-x" 20 None 0 20]
                     (Cache.Counters 0 0))
                  "k" (JInt 1) "gpt-x" None 10) "k" 10).1
    = Cache.Absent.
Proof. vm_compute. auto. Qed.

(** C4. [Cache.set] inserts a fresh entry or replaces the entry of the
    key as a whole: the row under the key after the insertion has
    [hit_count] 0, [created_at] and [last_accessed] equal to the insertion
    time, and [expires_at] equal to that time plus the effective TTL (the
    override of the call, else the default of the store, else none).  An
    entry found under the key when [set] returns is that row, never one
    merged with the previous state, and it is found whenever the entry
    limit is not negative and the clock has not run backwards. *)
Theorem set_inserts_fresh_entry (self : Cache.t) (db : Cache.database) (k : string)
    (v : json) (m : string) (ttl_override : option Z) (now : Z) :
  let fresh := fresh_row self k v m ttl_override now in
  let db' := Cache.set self db k v m ttl_override now in
  Cache.select (Cache.insert_or_replace (Cache.cache db) fresh) k = Some fresh
  ∧ (∀ k', k' ≠ k →
       Cache.select (Cache.insert_or_replace (Cache.cache db) fresh) k'
       = Cache.select (Cache.cache db) k')
  ∧ (∀ r', Cache.select (Cache.cache db') k = Some r' → r' = fresh)
  ∧ (limit_ok self → clock_ok db now → Cache.select (Cache.cache db') k = Some fresh)
  ∧ Cache.key fresh = k
  ∧ Cache.response fresh = Json.dumps false ", " ": " v
  ∧ Cache.model fresh = m
  ∧ Cache.hit_count fresh = 0
  ∧ Cache.created_at fresh = now
  ∧ Cache.last_accessed fresh = now
  ∧ Cache.expires_at fresh
    = match ttl_override, Cache.ttl_seconds self with
      | Some ttl, _ => Some (now + ttl)
      | None, Some ttl => Some (now + ttl)
      | None, None => None
      end
  ∧ Cache.stats db' = Cache.stats db.
Proof.
  simpl. split_and!; try done.
  - apply (select_insert_or_replace_eq (Cache.cache db)
             (fresh_row self k v m ttl_override now)).
  - intros k' Hne. by apply select_insert_or_replace_ne.
  - apply select_after_set_fresh.
  - apply select_after_set.
  - unfold effective_ttl. by destruct ttl_override, (Cache.ttl_seconds self).
  - apply set_stats.
Qed.

Lemma set_inserts_fresh_entry_witness :
  Cache.select
    (Cache.cache (Cache.set example_store example_db "k0" example_response "gpt-y"
                    (Some 5) 100)) "k0"
  = Some (Cache.Row "k0" (Json.dumps false ", " ": " example_response) "gpt-y"
            100 (Some 105) 0 100).
Proof.
  destruct (set_inserts_fresh_entry example_store example_db "k0" example_response
              "gpt-y" (Some 5) 100) as (_ & _ & _ & H & _).
  apply H.
  - intros n [= <-]. lia.
  - repeat constructor. simpl. lia.
Defined.

Lemma filter_all {A} (P : A → Prop) `{∀ x, Decision (P x)} (l : list A) :
  Forall P l → filter P l = l.
Proof.
  induction 1 as [|x l Hx Hl IH]; [done |]. rewrite filter_cons_True by done. by f_equal.
Qed.

Lemma filter_none {A} (P : A → Prop) `{∀ x, Decision (P x)} (l : list A) :
  Forall (fun x => ¬ P x) l → filter P l = [].
Proof.
  induction 1 as [|x l Hx Hl IH]; [done |]. by rewrite filter_cons_False.
Qed.

(** Rows accessed at the same time keep their rowid order in the eviction
    order. *)
Lemma insert_by_access_stable (t : Z) (x : Cache.row) (l : list Cache.row) :
  filter (fun r => Cache.last_accessed r = t) (Cache.insert_by_access x l)
  = filter (fun r => Cache.last_accessed r = t) (x :: l).
Proof.
  induction l as [|y l IH]; [done |]. simpl.
  destruct (Z.leb_spec (Cache.last_accessed x) (Cache.last_accessed y)) as [Hle|Hgt];
    [done |].
  rewrite (filter_cons _ y), IH, !filter_cons.
  repeat case_decide; try done. lia.
Qed.

Lemma order_by_last_accessed_stable (t : Z) (rows : list Cache.row) :
  filter (fun r => Cache.last_accessed r = t) (Cache.order_by_last_accessed rows)
  = filter (fun r => Cache.last_accessed r = t) rows.
Proof.
  induction rows as [|x rows IH]; [done |].
  unfold Cache.order_by_last_accessed in *. simpl.
  by rewrite insert_by_access_stable, !filter_cons, IH.
Qed.

Lemma keys_unique_insert_or_replace (rows : list Cache.row) (r : Cache.row) :
  NoDup (Cache.key <$> rows) →
  NoDup (Cache.key <$> Cache.insert_or_replace rows r).
Proof.
  intros Hnd. unfold Cache.insert_or_replace. rewrite fmap_app.
  apply NoDup_app. split_and!.
  - eapply sublist_NoDup; [exact Hnd |]. apply fmap_sublist, sublist_filter.
  - intros k Hk [->|[]%elem_of_nil]%elem_of_cons.
    by apply (key_not_in_delete_key rows (Cache.key r)).
  - apply NoDup_singleton.
Qed.

(** What an eviction removes: the first rows of the eviction order, as
    many as the table holds beyond the limit. *)
Lemma evict_lru_over (limit : Z) (db : Cache.database) :
  keys_unique db → 0 ≤ limit → limit < Z.of_nat (List.length (Cache.cache db)) →
  ∃ victims kept : list Cache.row,
    Cache.order_by_last_accessed (Cache.cache db) = victims ++ kept
    ∧ Z.of_nat (List.length victims) = Z.of_nat (List.length (Cache.cache db)) - limit
    ∧ Cache.cache (Cache._evict_lru limit db)
      = Cache.delete_keys (Cache.cache db) (Cache.key <$> victims)
    ∧ Cache.cache (Cache._evict_lru limit db) ≡ₚ kept
    ∧ Z.of_nat (List.length (Cache.cache (Cache._evict_lru limit db))) = limit
    ∧ (∀ x y, x ∈ victims → y ∈ kept → Cache.last_accessed x ≤ Cache.last_accessed y).
Proof.
  intros Hnd Hlimit Hover. unfold Cache._evict_lru.
  rewrite (proj2 (Z.gtb_gt _ _)) by lia. simpl.
  set (rows := Cache.cache db) in *.
  set (n := Z.to_nat (Z.of_nat (List.length rows) - limit)).
  pose proof (order_by_last_accessed_perm rows) as Hperm.
  pose proof (Permutation_length Hperm) as Hlen.
  exists (take n (Cache.order_by_last_accessed rows)),
         (drop n (Cache.order_by_last_accessed rows)).
  assert (List.length (take n (Cache.order_by_last_accessed rows)) = n) as Hvict.
  { apply length_take_le. lia. }
  assert (Cache.delete_keys rows (Cache.key <$> take n (Cache.order_by_last_accessed rows))
          ≡ₚ drop n (Cache.order_by_last_accessed rows)) as Hkept.
  { unfold Cache.delete_keys. rewrite <- Hperm at 1.
    rewrite <- (take_drop n (Cache.order_by_last_accessed rows)) at 1.
    rewrite filter_app, filter_none, filter_all; [done | |].
    - apply Forall_forall. intros y Hy Hin.
      unfold keys_unique in Hnd. fold rows in Hnd. rewrite <- Hperm in Hnd.
      rewrite <- (take_drop n (Cache.order_by_last_accessed rows)), fmap_app in Hnd.
      apply NoDup_app in Hnd as (_ & Hdisj & _).
      apply (Hdisj _ Hin). apply list_elem_of_fmap. by exists y.
    - apply Forall_forall. intros x Hx Hn. apply Hn.
      apply list_elem_of_fmap. by exists x. }
  split_and!.
  - by rewrite take_drop.
  - rewrite Hvict. lia.
  - done.
  - done.
  - rewrite (Permutation_length Hkept), length_drop. lia.
  - intros x y Hx Hy.
    apply (StronglySorted_app_1_elem_of access_le
             (take n (Cache.order_by_last_accessed rows))
             (drop n (Cache.order_by_last_accessed rows))); [| done..].
    rewrite take_drop. apply order_by_last_accessed_sorted.
Qed.

Lemma get_keeps_other_rows (db : Cache.database) (k : string) (now : Z) (r : Cache.row) :
  r ∈ Cache.cache db → Cache.key r ≠ k → r ∈ Cache.cache (Cache.get db k now).2.
Proof.
  intros Hin Hne. unfold Cache.get.
  destruct (Cache.select (Cache.cache db) k) as [r0|]; [| done].
  destruct (Cache.expired r0 now); simpl.
  - by apply list_elem_of_filter.
  - assert (r ∈ List.map (Cache.touch now k) (Cache.cache db)).
    { apply list_elem_of_In, in_map_iff. exists r. split; [| by apply list_elem_of_In].
      unfold Cache.touch. by rewrite (proj2 (String.eqb_neq _ _) Hne). }
    by destruct (Json.loads _).
Qed.

Lemma set_cache_under (self : Cache.t) (db : Cache.database) (k : string) (v : json)
    (m : string) (ttl_override : option Z) (now limit : Z) :
  Cache.max_entries self = Some limit →
  Z.of_nat (List.length (Cache.insert_or_replace (Cache.cache db)
                           (fresh_row self k v m ttl_override now))) ≤ limit →
  Cache.cache (Cache.set self db k v m ttl_override now)
  = Cache.insert_or_replace (Cache.cache db) (fresh_row self k v m ttl_override now).
Proof.
  intros Hmax Hle. unfold Cache.set. rewrite Hmax.
  fold (effective_ttl self ttl_override). fold (fresh_row self k v m ttl_override now).
  destruct (limit =? 0); [done |]. unfold Cache._evict_lru. simpl.
  by rewrite Z.gtb_ltb, (proj2 (Z.ltb_ge _ _)) by lia.
Qed.

Lemma set_cache_over (self : Cache.t) (db : Cache.database) (k : string) (v : json)
    (m : string) (ttl_override : option Z) (now limit : Z) :
  Cache.max_entries self = Some limit → limit ≠ 0 →
  let rows := Cache.insert_or_replace (Cache.cache db)
                (fresh_row self k v m ttl_override now) in
  limit < Z.of_nat (List.length rows) →
  Cache.cache (Cache.set self db k v m ttl_override now)
  = Cache.delete_keys rows
      (Cache.key <$> take (Z.to_nat (Z.of_nat (List.length rows) - limit))
                       (Cache.order_by_last_accessed rows)).
Proof.
  intros Hmax Hnz rows Hover. unfold Cache.set. rewrite Hmax.
  fold (effective_ttl self ttl_override). fold (fresh_row self k v m ttl_override now).
  rewrite (proj2 (Z.eqb_neq limit 0)) by done. unfold Cache._evict_lru. simpl.
  fold rows. by rewrite (proj2 (Z.gtb_gt _ _)) by lia.
Qed.

(** With the limit 2, three distinct keys inserted in turn. *)
Lemma three_inserts (self : Cache.t) (kA kB kC : string) (vA vB vC : json)
    (mA mB mC : string) (tA tB tC : Z) :
  Cache.max_entries self = Some 2 →
  kA ≠ kB → kA ≠ kC → kB ≠ kC → tA ≤ tB → tB ≤ tC →
  Cache.cache
    (Cache.set self
       (Cache.set self (Cache.set self Cache.empty kA vA mA None tA) kB vB mB None tB)
       kC vC mC None tC)
  = [fresh_row self kB vB mB None tB; fresh_row self kC vC mC None tC].
Proof.
  intros Hmax HAB HAC HBC Hab Hbc.
  set (rA := fresh_row self kA vA mA None tA).
  set (rB := fresh_row self kB vB mB None tB).
  set (rC := fresh_row self kC vC mC None tC).
  set (db1 := Cache.set self Cache.empty kA vA mA None tA).
  set (db2 := Cache.set self db1 kB vB mB None tB).
  assert (Cache.cache db1 = [rA]) as H1.
  { unfold db1. by rewrite (set_cache_under _ _ _ _ _ _ _ 2) by (done || simpl; lia). }
  assert (Cache.insert_or_replace [rA] rB = [rA; rB]) as HrB.
  { unfold Cache.insert_or_replace, Cache.delete_key.
    by rewrite filter_cons_True by done. }
  assert (Cache.cache db2 = [rA; rB]) as H2.
  { unfold db2. rewrite (set_cache_under _ _ _ _ _ _ _ 2); rewrite ?H1; fold rB;
      rewrite ?HrB; (done || simpl; lia). }
  assert (Cache.insert_or_replace [rA; rB] rC = [rA; rB; rC]) as HrC.
  { unfold Cache.insert_or_replace, Cache.delete_key.
    by rewrite !filter_cons_True by done. }
  rewrite (set_cache_over _ _ _ _ _ _ _ 2); rewrite ?H2; fold rC; rewrite ?HrC;
    [| done | done | simpl; lia].
  assert (Cache.order_by_last_accessed [rA; rB; rC] = [rA; rB; rC]) as ->.
  { unfold Cache.order_by_last_accessed. simpl.
    rewrite (proj2 (Z.leb_le tB tC)) by done. simpl.
    by rewrite (proj2 (Z.leb_le tA tB)) by done. }
  simpl. unfold Cache.delete_keys.
  rewrite filter_cons_False by (simpl; intros Hn; apply Hn; by left).
  rewrite !filter_cons_True
    by (simpl; intros [?|[]%elem_of_nil]%elem_of_cons; congruence).
  done.
Qed.

(** C5, as the code behaves. For a store with a positive [max_entries],
    eviction runs after an insertion and never on [get]; when the table
    then holds more than [max_entries] rows, exactly the surplus is
    removed, the rows first in ascending order of [last_accessed] (the
    sort of the embedding is stable).  With [max_entries = 2], inserting
    the distinct keys A, B, C in turn, at clock readings that do not
    decrease, leaves B and C.  For [max_entries = 0] the test
    [if self.max_entries:] fails and [set] evicts nothing, whatever the
    table holds. *)
Theorem evict_lru_after_insert :
  (∀ db k now r,
      r ∈ Cache.cache db → Cache.key r ≠ k → r ∈ Cache.cache (Cache.get db k now).2)
  ∧ (∀ self db k v m ttl_override now limit,
        Cache.max_entries self = Some limit → 0 < limit → keys_unique db →
        let rows := Cache.insert_or_replace (Cache.cache db)
                      (fresh_row self k v m ttl_override now) in
        let count := Z.of_nat (List.length rows) in
        let db' := Cache.set self db k v m ttl_override now in
        (count ≤ limit → Cache.cache db' = rows)
        ∧ (limit < count →
             ∃ victims kept : list Cache.row,
               Cache.order_by_last_accessed rows = victims ++ kept
               ∧ Z.of_nat (List.length victims) = count - limit
               ∧ Cache.cache db' = Cache.delete_keys rows (Cache.key <$> victims)
               ∧ Cache.cache db' ≡ₚ kept
               ∧ Z.of_nat (List.length (Cache.cache db')) = limit
               ∧ (∀ x y, x ∈ victims → y ∈ kept →
                         Cache.last_accessed x ≤ Cache.last_accessed y)))
  ∧ (∀ rows : list Cache.row,
        Cache.order_by_last_accessed rows ≡ₚ rows
        ∧ StronglySorted access_le (Cache.order_by_last_accessed rows)
        ∧ ∀ t, filter (fun r => Cache.last_accessed r = t)
                 (Cache.order_by_last_accessed rows)
               = filter (fun r => Cache.last_accessed r = t) rows)
  ∧ (∀ self kA kB kC vA vB vC mA mB mC tA tB tC,
        Cache.max_entries self = Some 2 →
        kA ≠ kB → kA ≠ kC → kB ≠ kC → tA ≤ tB → tB ≤ tC →
        Cache.key <$>
          Cache.cache
            (Cache.set self
               (Cache.set self (Cache.set self Cache.empty kA vA mA None tA)
                  kB vB mB None tB)
               kC vC mC None tC)
        = [kB; kC])
  ∧ (∀ self db k v m ttl_override now,
        Cache.max_entries self = Some 0 →
        Cache.cache (Cache.set self db k v m ttl_override now)
        = Cache.insert_or_replace (Cache.cache db)
            (fresh_row self k v m ttl_override now)).
Proof.
  split_and!.
  - apply get_keeps_other_rows.
  - intros self db k v m ttl_override now limit Hmax Hpos Hnd. simpl.
    assert (Cache.set self db k v m ttl_override now
            = Cache._evict_lru limit
                (Cache.Database
                   (Cache.insert_or_replace (Cache.cache db)
                      (fresh_row self k v m ttl_override now)) (Cache.stats db))) as ->.
    { unfold Cache.set. rewrite Hmax.
      by rewrite (proj2 (Z.eqb_neq limit 0)) by lia. }
    split.
    + intros Hle. unfold Cache._evict_lru. simpl.
      by rewrite Z.gtb_ltb, (proj2 (Z.ltb_ge _ _)) by lia.
    + intros Hover.
      apply (evict_lru_over limit
               (Cache.Database
                  (Cache.insert_or_replace (Cache.cache db)
                     (fresh_row self k v m ttl_override now)) (Cache.stats db)));
        [| lia | done].
      by apply keys_unique_insert_or_replace.
  - intros rows. split_and!.
    + apply order_by_last_accessed_perm.
    + apply order_by_last_accessed_sorted.
    + intros t. apply order_by_last_accessed_stable.
  - intros. by rewrite three_inserts.
  - intros self db k v m ttl_override now Hmax. unfold Cache.set. by rewrite Hmax.
Qed.

Lemma evict_lru_after_insert_witness :
  Cache.key <$>
    Cache.cache
      (Cache.set example_store
         (Cache.set example_store
            (Cache.set example_store Cache.empty "A" example_response "gpt-x" None 10)
            "B" example_response "gpt-x" None 11)
         "C" example_response "gpt-x" None 12)
  = ["B"; "C"].
Proof.
  destruct evict_lru_after_insert as (_ & _ & _ & H & _).
  apply H; [reflexivity | done | done | done | lia | lia].
Defined.

(** A store made with [max_entries = 0] exceeds its maximum after the
    first insertion, and nothing has been evicted. *)
Lemma evict_lru_zero_limit_counterexample :
  Cache.max_entries (Cache.Config None (Some 0)) = Some 0
  ∧ Cache.cache (Cache.set (Cache.Config None (Some 0)) Cache.empty "A"
                   (JInt 1) "gpt-x" None 10)
    = [Cache.Row "A" "1" "gpt-x" 10 None 0 10]
  ∧ Z.of_nat (List.length
                (Cache.cache (Cache.set (Cache.Config None (Some 0)) Cache.empty "A"
                                (JInt 1) "gpt-x" None 10)))
    > 0.
Proof. vm_compute. auto. Qed.

(** ** cache.py: clearing *)

(** C6. [Cache.clear] with an age in days removes exactly the entries
    whose [created_at] is earlier than the current time minus that age and
    keeps the other entries, in their order; without an argument it
    removes every entry; in both cases the counters of hits and misses are
    set to zero. *)
Theorem clear_removes_old_and_resets_stats (db : Cache.database) (now : Z) :
  (∀ days r,
      r ∈ Cache.cache (Cache.clear db (Some days) now)
      ↔ r ∈ Cache.cache db ∧ ¬ Cache.created_at r < now - days * 86400)
  ∧ (∀ days, Cache.cache (Cache.clear db (Some days) now) `sublist_of` Cache.cache db)
  ∧ (∀ days k,
        Cache.select (Cache.cache (Cache.clear db (Some days) now)) k
        = Cache.select
            (filter (fun r => ¬ Cache.created_at r < now - days * 86400) (Cache.cache db)) k)
  ∧ Cache.cache (Cache.clear db None now) = []
  ∧ (∀ older_than_days,
        Cache.hits (Cache.stats (Cache.clear db older_than_days now)) = 0
        ∧ Cache.misses (Cache.stats (Cache.clear db older_than_days now)) = 0).
Proof.
  split_and!; try done.
  - intros days r. simpl. rewrite list_elem_of_filter. tauto.
  - intros days. simpl. apply sublist_filter.
Qed.

(** ** proxy.py: the ways of a request *)

Ltac norm_log := rewrite <- ?app_assoc; simpl.

Ltac fold_upstream :=
  match goal with
  | |- context [Proxy.post ?e (Proxy.target_url ?self +:+ _) (Proxy.get_json ?req) _] =>
      fold (upstream_url self); fold (upstream_answer self e req);
      fold (posted self req)
  end.

(** The way of a request whose cache lookup gave nothing. *)
Ltac miss_path :=
  unfold Proxy._forward_request, Proxy.bind, Proxy.emit, Proxy.lift, Proxy.ret; simpl;
  fold_upstream;
  match goal with
  | |- context [upstream_answer ?self ?e ?req] =>
      let Hup := fresh "Hup" in
      destruct (upstream_answer self e req) as [status content|msg] eqn:Hup; simpl;
      [ destruct (Z.eqb_spec status 200) as [->|Hstatus]; simpl;
        [ let Hload := fresh "Hload" in
          destruct (Json.loads content) as [v'|] eqn:Hload; simpl;
          [ unfold Proxy.cache_set, Proxy.bind, Proxy.lift, Proxy.emit;
            fold (payload_model req);
            let Hbind := fresh "Hbind" in
            destruct (Proxy.bind_model e (payload_model req)) as [m|ex] eqn:Hbind;
            simpl; norm_log; intros [= <- <-];
            [ eapply served_miss_stored; eauto
            | eapply served_miss_unbound; eauto ]
          | norm_log; intros [= <- <-]; eapply served_miss_undecodable; eauto ]
        | norm_log; intros [= <- <-];
          eapply (served_miss_relayed _ _ _ _ _ _ _ status content); eauto ]
      | norm_log; intros [= <- <-]; eapply served_miss_transport_error; eauto ]
  end.

(** Every run of the handler is one of the ways of [served]. *)
Lemma serve_served (self : Proxy.t) (e : Proxy.env) (req : Proxy.request) (w : Proxy.world)
    (r : Proxy.response) (w' : Proxy.world) :
  Proxy.serve self e req w = (r, w') → served self e req w r w'.
Proof.
  unfold Proxy.serve, Proxy._handle_chat_completion.
  fold (streaming req). destruct (streaming req) eqn:Hstream.
  - unfold Proxy._forward_request, Proxy.bind, Proxy.emit. simpl.
    fold_upstream.
    pose proof (served_stream self e req w Hstream) as H.
    destruct (upstream_answer self e req); intros [= <- <-]; exact H.
  - unfold Proxy.hash_request, Proxy.bind at 1 2, Proxy.lift.
    fold (payload_messages req) (payload_model req).
    destruct (Proxy.as_messages (payload_messages req)) as [msgs|ex] eqn:Hmsgs.
    2:{ simpl. intros [= <- <-]. by eapply served_bad_messages. }
    unfold Proxy.emit, Proxy.ret, Proxy.cache_get, Proxy.bind at 1 2 3 4, Proxy.emit.
    simpl. fold (payload_model req). fold (payload_key req msgs).
    destruct (Cache.get (Proxy.db w) (payload_key req msgs) (Proxy.clock_get e))
      as [res db1] eqn:Hget.
    destruct res as [|v|]; simpl.
    + miss_path.
    + destruct v; simpl; try (norm_log; intros [= <- <-]; by eapply served_hit).
      miss_path.
    + norm_log. intros [= <- <-]. by eapply served_corrupt.
Qed.

Ltac run_handler req msgs Hstream Hmsgs Hget :=
  unfold Proxy.serve, Proxy._handle_chat_completion;
  fold (streaming req); rewrite Hstream;
  unfold Proxy.hash_request, Proxy.bind at 1 2, Proxy.lift;
  fold (payload_messages req) (payload_model req);
  rewrite Hmsgs;
  unfold Proxy.emit, Proxy.ret, Proxy.cache_get, Proxy.bind at 1 2 3 4, Proxy.emit;
  simpl; fold (payload_model req); fold (payload_key req msgs);
  rewrite Hget; simpl.

Ltac run_forward Hres Hup :=
  destruct Hres as [-> | ->]; simpl;
  unfold Proxy._forward_request, Proxy.bind, Proxy.emit, Proxy.lift, Proxy.ret; simpl;
  fold_upstream; rewrite Hup; simpl.

(** And each way of [served] is the run of the handler. *)
Lemma served_serve (self : Proxy.t) (e : Proxy.env) (req : Proxy.request) (w : Proxy.world)
    (r : Proxy.response) (w' : Proxy.world) :
  served self e req w r w' → Proxy.serve self e req w = (r, w').
Proof.
  destruct 1 as [Hstream|ex Hstream Hmsgs
                |msgs db1 Hstream Hmsgs Hget
                |msgs v db1 Hstream Hmsgs Hget Hv
                |msgs m res db1 content v Hstream Hmsgs Hget Hres Hup Hload Hbind
                |msgs ex res db1 content v Hstream Hmsgs Hget Hres Hup Hload Hbind
                |msgs res db1 status content Hstream Hmsgs Hget Hres Hup Hstatus
                |msgs res db1 content Hstream Hmsgs Hget Hres Hup Hload
                |msgs res db1 msg Hstream Hmsgs Hget Hres Hup].
  - unfold Proxy.serve, Proxy._handle_chat_completion.
    fold (streaming req). rewrite Hstream.
    unfold Proxy._forward_request, Proxy.bind, Proxy.emit. simpl.
    fold_upstream. by destruct (upstream_answer self e req).
  - unfold Proxy.serve, Proxy._handle_chat_completion.
    fold (streaming req). rewrite Hstream.
    unfold Proxy.hash_request, Proxy.bind at 1 2, Proxy.lift.
    fold (payload_messages req). rewrite Hmsgs. by destruct w.
  - run_handler req msgs Hstream Hmsgs Hget. by norm_log.
  - run_handler req msgs Hstream Hmsgs Hget. destruct v; try done; by norm_log.
  - run_handler req msgs Hstream Hmsgs Hget.
    run_forward Hres Hup; rewrite Hload; simpl;
      unfold Proxy.cache_set, Proxy.bind, Proxy.lift, Proxy.emit;
      fold (payload_model req); rewrite Hbind; simpl; by norm_log.
  - run_handler req msgs Hstream Hmsgs Hget.
    run_forward Hres Hup; rewrite Hload; simpl;
      unfold Proxy.cache_set, Proxy.bind, Proxy.lift, Proxy.emit;
      fold (payload_model req); rewrite Hbind; simpl; by norm_log.
  - run_handler req msgs Hstream Hmsgs Hget.
    run_forward Hres Hup;
      rewrite (proj2 (Z.eqb_neq status 200)) by done; simpl; by norm_log.
  - run_handler req msgs Hstream Hmsgs Hget.
    run_forward Hres Hup; rewrite Hload; simpl; by norm_log.
  - run_handler req msgs Hstream Hmsgs Hget.
    run_forward Hres Hup; by norm_log.
Qed.

Lemma x_cache_relay (t : Proxy.transport) : x_cache (relay t) = None.
Proof. by destruct t. Qed.

Lemma x_cache_set (value : string) (v : json) :
  x_cache (Proxy.set_header "X-Cache" value (Proxy.jsonify v)) = Some value.
Proof. done. Qed.

Ltac invert_events :=
  repeat match goal with
         | H : _ ∈ [] |- _ => by apply elem_of_nil in H
         | H : _ ∈ _ :: _ |- _ => apply elem_of_cons in H as [H|H]
         | H : @eq Proxy.event _ _ |- _ =>
             unfold posted in H;
             first [discriminate H | injection H; clear H; intros; subst | clear H]
         end.

(** The header on the responses of the handler proper. *)
Lemma serve_cache_status (self : Proxy.t) (e : Proxy.env) (req : Proxy.request)
    (w : Proxy.world) :
  let r := (Proxy.serve self e req w).1 in
  let w' := (Proxy.serve self e req w).2 in
  let evs := drop (List.length (Proxy.log w)) (Proxy.log w') in
  (streaming req = true → x_cache r = None)
  ∧ (streaming req = false →
       (∀ key v,
           Proxy.CacheGet key ∈ evs →
           (Cache.get (Proxy.db w) key (Proxy.clock_get e)).1 = Cache.Found v →
           v ≠ JNull →
           r = Proxy.set_header "X-Cache" "HIT" (Proxy.jsonify v)
           ∧ x_cache r = Some "HIT")
       ∧ (∀ key v m,
             Proxy.CacheSet key v m ∈ evs →
             r = Proxy.set_header "X-Cache" "MISS" (Proxy.jsonify v)
             ∧ x_cache r = Some "MISS")
       ∧ (∀ status content,
             posted self req ∈ evs →
             upstream_answer self e req = Proxy.Upstream status content →
             status ≠ 200 →
             r = relay (Proxy.Upstream status content) ∧ x_cache r = None)
       ∧ (x_cache r = Some "HIT" →
            (posted self req ∉ evs)
            ∧ ∃ key v, Proxy.CacheGet key ∈ evs
                       ∧ (Cache.get (Proxy.db w) key (Proxy.clock_get e)).1 = Cache.Found v
                       ∧ Proxy.payload r = Proxy.JsonBody v)
       ∧ (x_cache r = Some "MISS" →
            posted self req ∈ evs
            ∧ ∃ key v m, Proxy.CacheSet key v m ∈ evs
                         ∧ Proxy.payload r = Proxy.JsonBody v)
       ∧ (∀ s, x_cache r = Some s → s = "HIT" ∨ s = "MISS")).
Proof.
  destruct (Proxy.serve self e req w) as [r w'] eqn:Hserve. simpl.
  apply serve_served in Hserve.
  destruct Hserve as [Hstream|ex Hstream Hmsgs
                |msgs db1 Hstream Hmsgs Hget
                |msgs v db1 Hstream Hmsgs Hget Hv
                |msgs m res db1 content v Hstream Hmsgs Hget Hres Hup Hload Hbind
                |msgs ex res db1 content v Hstream Hmsgs Hget Hres Hup Hload Hbind
                |msgs res db1 status content Hstream Hmsgs Hget Hres Hup Hstatus
                |msgs res db1 content Hstream Hmsgs Hget Hres Hup Hload
                |msgs res db1 msg Hstream Hmsgs Hget Hres Hup];
    simpl; rewrite ?drop_app_length, ?drop_all;
    (split; [intros Hs; try congruence; try apply x_cache_relay |]);
    ((intros Hs; congruence) || intros _).
  all: try (set (k := payload_key req msgs) in *; clearbody k).
  all: split_and!.
  all: try (intros; invert_events; fail).
  all: try (intros key0 v0 Hin Hfound Hnn; invert_events; rewrite Hget in Hfound;
            simpl in Hfound; destruct Hres; simplify_eq; fail).
  all: try (intros key0 v0 Hin Hfound Hnn; invert_events; rewrite Hget in Hfound;
            simpl in Hfound; simplify_eq; done).
  all: try (intros status0 content0 Hin Hup0 Hne; rewrite Hup in Hup0; simplify_eq; done).
  all: try (intros Hx; cbv in Hx; discriminate Hx).
  all: try (intros s Hx; cbv in Hx; simplify_eq; fail).
  all: try (intros s Hx; cbv in Hx; simplify_eq; (by left) || (by right)).
  - intros _. split; [intros Hin; invert_events |].
    exists k, v. rewrite Hget. split_and!; try done.
    apply elem_of_cons. right. by apply elem_of_cons; left.
  - intros key0 v0 m0 Hin. by invert_events.
  - intros _. split.
    + do 2 (apply elem_of_cons; right). by apply elem_of_cons; left.
    + exists k, v, m. split; [| done].
      do 3 (apply elem_of_cons; right). by apply elem_of_cons; left.
Qed.

(** C7 (amended). A response served from the cache carries the header
    [X-Cache: HIT], and one fetched upstream with status 200 and stored
    carries [X-Cache: MISS]; the header has no other value and no other
    origin.  A response that relays an upstream status other than 200
    carries no such header, and neither does a streaming response, nor
    the answer to a request whose body [request.get_json()] refuses or
    reads as something other than a JSON object; such a request changes
    nothing. *)
Theorem cache_status_header (self : Proxy.t) (e : Proxy.env) (i : Proxy.http_request)
    (w : Proxy.world) :
  let r := (Proxy.chat_completions self e i w).1 in
  let w' := (Proxy.chat_completions self e i w).2 in
  let evs := drop (List.length (Proxy.log w)) (Proxy.log w') in
  (∀ s, x_cache r = Some s → s = "HIT" ∨ s = "MISS")
  ∧ (read_request i = None → x_cache r = None ∧ w' = w)
  ∧ (∀ req, read_request i = Some req →
       (streaming req = true → x_cache r = None)
       ∧ (streaming req = false →
            (∀ key v,
                Proxy.CacheGet key ∈ evs →
                (Cache.get (Proxy.db w) key (Proxy.clock_get e)).1 = Cache.Found v →
                v ≠ JNull →
                r = Proxy.set_header "X-Cache" "HIT" (Proxy.jsonify v)
                ∧ x_cache r = Some "HIT")
            ∧ (∀ key v m,
                  Proxy.CacheSet key v m ∈ evs →
                  r = Proxy.set_header "X-Cache" "MISS" (Proxy.jsonify v)
                  ∧ x_cache r = Some "MISS")
            ∧ (∀ status content,
                  posted self req ∈ evs →
                  upstream_answer self e req = Proxy.Upstream status content →
                  status ≠ 200 →
                  r = relay (Proxy.Upstream status content) ∧ x_cache r = None)
            ∧ (x_cache r = Some "HIT" →
                 (posted self req ∉ evs)
                 ∧ ∃ key v, Proxy.CacheGet key ∈ evs
                            ∧ (Cache.get (Proxy.db w) key (Proxy.clock_get e)).1
                              = Cache.Found v
                            ∧ Proxy.payload r = Proxy.JsonBody v)
            ∧ (x_cache r = Some "MISS" →
                 posted self req ∈ evs
                 ∧ ∃ key v m, Proxy.CacheSet key v m ∈ evs
                              ∧ Proxy.payload r = Proxy.JsonBody v))).
Proof.
  unfold Proxy.chat_completions, read_request.
  destruct (Proxy.body_json i) as [data|status description];
    [destruct data as [|b|n|repr|text|items|fields] |];
    cbv zeta; cbn [fst snd].
  1-6, 8: split_and!; [intros s Hs; cbv in Hs; discriminate Hs | done | intros req [=]].
  pose proof (serve_cache_status self e (Proxy.Request fields (Proxy.http_headers i)) w)
    as Hserve.
  cbv zeta in Hserve. destruct Hserve as [Hstream Hplain].
  split_and!.
  - intros s Hs.
    destruct (streaming (Proxy.Request fields (Proxy.http_headers i))) eqn:Hstreaming.
    + rewrite Hstream in Hs by done. discriminate Hs.
    + destruct (Hplain eq_refl) as (_ & _ & _ & _ & _ & Hvalues). by apply Hvalues.
  - intros [=].
  - intros req [= <-]. split; [exact Hstream |].
    intros Hs. destruct (Hplain Hs) as (H1 & H2 & H3 & H4 & H5 & _). by split_and!.
Qed.

(** The claim as first worded also gives the header to every response
    that is not streamed.  A request that misses the cache while the
    upstream answers with status 500 is not streamed, and its response
    carries no [X-Cache] header. *)
Lemma cache_status_header_counterexample :
  streaming example_request = false
  ∧ Proxy.serve example_proxy overloaded example_request fresh_world
    = (Proxy.Response 500 [("Content-Type", "application/json")] (Proxy.RawBody "[]"),
       Proxy.World (Cache.Database [] (Cache.Counters 0 1))
         [Proxy.Hashed (payload_key example_request example_messages);
          Proxy.CacheGet (payload_key example_request example_messages);
          posted example_proxy example_request])
  ∧ x_cache (Proxy.serve example_proxy overloaded example_request fresh_world).1 = None.
Proof. vm_compute. done. Qed.

(** The handler does not look at the type of [model]: a request whose
    model is the number 5 is fingerprinted, posted and stored like any
    other, and the row holds the text SQLite makes of the number. *)
Example numbered_model_is_stored :
  let out := Proxy.serve example_proxy answering example_request_numbered fresh_world in
  out.1 = Proxy.set_header "X-Cache" "MISS" (Proxy.jsonify (JArr [JInt 1; JInt 2]))
  ∧ Cache.model <$> Cache.cache (Proxy.db out.2) = ["5"].
Proof. vm_compute. done. Qed.

(** ** proxy.py: streaming requests *)

Lemma stream_true_streaming (req : Proxy.request) :
  dict_get (Proxy.get_json req) "stream" = Some (JBool true) → streaming req = true.
Proof. unfold streaming, dict_get_default. by intros ->. Qed.

Lemma serve_streaming (self : Proxy.t) (e : Proxy.env) (req : Proxy.request)
    (w : Proxy.world) :
  streaming req = true →
  Proxy.serve self e req w
  = (relay (upstream_answer self e req),
     Proxy.World (Proxy.db w) (Proxy.log w ++ [posted self req])).
Proof. intros Hstream. apply served_serve. by apply served_stream. Qed.

(** C8. Requests whose payload has [stream] true, served one after the
    other in any surroundings and however often the same request comes
    again: each response is what the upstream sent, relayed; the database
    of the cache is afterwards the very database it was, so nothing was
    read from it and nothing written; and the only calls made are the
    posts upstream, one per request, so nothing was fingerprinted. *)
Theorem streaming_bypasses_cache (self : Proxy.t)
    (reqs : list (Proxy.env * Proxy.request)) (w : Proxy.world) :
  Forall (λ er, streaming er.2 = true) reqs →
  let out := Proxy.serve_all self reqs w in
  out.1 = (λ er, relay (upstream_answer self er.1 er.2)) <$> reqs
  ∧ Proxy.db out.2 = Proxy.db w
  ∧ Proxy.log out.2 = Proxy.log w ++ ((λ er, posted self er.2) <$> reqs)
  ∧ (∀ ev, ev ∈ new_events w out.2 →
       ∀ key v m, ev ≠ Proxy.Hashed key ∧ ev ≠ Proxy.CacheGet key
                  ∧ ev ≠ Proxy.CacheSet key v m).
Proof.
  intros Hall. simpl.
  assert (Proxy.serve_all self reqs w
          = ((λ er, relay (upstream_answer self er.1 er.2)) <$> reqs,
             Proxy.World (Proxy.db w)
               (Proxy.log w ++ ((λ er, posted self er.2) <$> reqs)))) as ->.
  { revert w. induction Hall as [|[e req] reqs Hreq _ IH]; intros w; simpl.
    - rewrite app_nil_r. by destruct w.
    - simpl in Hreq. rewrite (serve_streaming _ _ _ _ Hreq), IH. simpl.
      by rewrite <- app_assoc. }
  simpl. split_and!; try done.
  unfold new_events. simpl. rewrite drop_app_length.
  intros ev [[e req] [-> _]]%list_elem_of_fmap key v m. by unfold posted.
Qed.

Lemma streaming_bypasses_cache_witness :
  let out :=
    Proxy.serve_all example_proxy
      [(answering, example_stream_request); (unreachable, example_stream_request);
       (answering, example_stream_request)] fresh_world in
  Proxy.status_code <$> out.1 = [200; 502; 200]
  ∧ Proxy.db out.2 = Cache.empty
  ∧ List.length (Proxy.log out.2) = 3%nat.
Proof.
  pose proof (streaming_bypasses_cache example_proxy
                [(answering, example_stream_request); (unreachable, example_stream_request);
                 (answering, example_stream_request)] fresh_world) as H.
  cbv zeta in H. destruct H as (H1 & H2 & H3 & _).
  { repeat constructor. }
  cbv zeta. rewrite H1, H2, H3. done.
Defined.

(** ** proxy.py: a request that misses the cache *)

(** C9, as the code behaves. A request that is not streamed and finds
    nothing under its key is stored exactly when the upstream answers with
    status 200 and a body that parses as JSON, and the [model] of the
    request is a value that SQLite binds; an answer of any other status
    is relayed, status and body, and nothing is written.  When the post
    itself fails, [_forward_request] returns the pair of a response and
    502, the handler then reads [status_code] off that pair, and the
    client receives status 500 rather than 502; nothing is written. *)
Theorem miss_outcomes (self : Proxy.t) (e : Proxy.env) (req : Proxy.request)
    (w : Proxy.world) (msgs : list dict) (db1 : Cache.database) :
  streaming req = false →
  Proxy.as_messages (payload_messages req) = Proxy.Returned msgs →
  Cache.get (Proxy.db w) (payload_key req msgs) (Proxy.clock_get e) = (Cache.Absent, db1) →
  let r := (Proxy.serve self e req w).1 in
  let w' := (Proxy.serve self e req w).2 in
  (∀ content v m,
      upstream_answer self e req = Proxy.Upstream 200 content →
      Json.loads content = Some v →
      Proxy.bind_model e (payload_model req) = Proxy.Returned m →
      r = Proxy.set_header "X-Cache" "MISS" (Proxy.jsonify v)
      ∧ Proxy.db w' = Cache.set (Proxy.cache self) db1 (payload_key req msgs) v m None
                        (Proxy.clock_set e))
  ∧ (∀ status content,
        upstream_answer self e req = Proxy.Upstream status content →
        status ≠ 200 →
        r = Proxy.Response status [("Content-Type", "application/json")]
              (Proxy.RawBody content)
        ∧ Proxy.db w' = db1)
  ∧ (∀ content,
        upstream_answer self e req = Proxy.Upstream 200 content →
        Json.loads content = None →
        r = Proxy.internal_server_error ∧ Proxy.db w' = db1)
  ∧ (∀ msg,
        upstream_answer self e req = Proxy.RequestException msg →
        r = Proxy.internal_server_error
        ∧ Proxy.status_code r = 500
        ∧ Proxy.db w' = db1)
  ∧ (∀ content v ex,
        upstream_answer self e req = Proxy.Upstream 200 content →
        Json.loads content = Some v →
        Proxy.bind_model e (payload_model req) = Proxy.Raised ex →
        r = Proxy.internal_server_error ∧ Proxy.db w' = db1)
  ∧ ((∃ key v m, Proxy.CacheSet key v m ∈ new_events w w')
     ↔ ∃ content v m, upstream_answer self e req = Proxy.Upstream 200 content
                      ∧ Json.loads content = Some v
                      ∧ Proxy.bind_model e (payload_model req) = Proxy.Returned m).
Proof.
  intros Hstream Hmsgs Hget r w'. subst r w'.
  assert (Cache.Absent = Cache.Absent ∨ Cache.Absent = Cache.Found JNull) as Hres
    by by left.
  split_and!.
  - intros content v m Hup Hload Hbind.
    by rewrite (served_serve _ _ _ _ _ _
                  (served_miss_stored self e req w msgs m _ db1 content v
                     Hstream Hmsgs Hget Hres Hup Hload Hbind)).
  - intros status content Hup Hstatus.
    by rewrite (served_serve _ _ _ _ _ _
                  (served_miss_relayed self e req w msgs _ db1 status content
                     Hstream Hmsgs Hget Hres Hup Hstatus)).
  - intros content Hup Hload.
    by rewrite (served_serve _ _ _ _ _ _
                  (served_miss_undecodable self e req w msgs _ db1 content
                     Hstream Hmsgs Hget Hres Hup Hload)).
  - intros msg Hup.
    by rewrite (served_serve _ _ _ _ _ _
                  (served_miss_transport_error self e req w msgs _ db1 msg
                     Hstream Hmsgs Hget Hres Hup)).
  - intros content v ex Hup Hload Hbind.
    by rewrite (served_serve _ _ _ _ _ _
                  (served_miss_unbound self e req w msgs ex _ db1 content v
                     Hstream Hmsgs Hget Hres Hup Hload Hbind)).
  - destruct (upstream_answer self e req) as [status content|msg] eqn:Hup.
    + destruct (decide (status = 200)) as [->|Hstatus].
      * destruct (Json.loads content) as [v|] eqn:Hload.
        -- destruct (Proxy.bind_model e (payload_model req)) as [m|ex] eqn:Hbind.
           ++ rewrite (served_serve _ _ _ _ _ _
                         (served_miss_stored self e req w msgs m _ db1 content v
                            Hstream Hmsgs Hget Hres Hup Hload Hbind)).
              unfold new_events. simpl. rewrite drop_app_length. split.
              ** intros _. by exists content, v, m.
              ** intros _. exists (payload_key req msgs), v, m.
                 do 3 (apply elem_of_cons; right). by apply elem_of_cons; left.
           ++ rewrite (served_serve _ _ _ _ _ _
                         (served_miss_unbound self e req w msgs ex _ db1 content v
                            Hstream Hmsgs Hget Hres Hup Hload Hbind)).
              unfold new_events. simpl. rewrite drop_app_length. split.
              ** intros (key & v' & m' & Hin). by invert_events.
              ** intros (content' & v' & m' & _ & _ & [=]).
        -- rewrite (served_serve _ _ _ _ _ _
                      (served_miss_undecodable self e req w msgs _ db1 content
                         Hstream Hmsgs Hget Hres Hup Hload)).
           unfold new_events. simpl. rewrite drop_app_length. split.
           ++ intros (key & v & m' & Hin). by invert_events.
           ++ intros (content' & v & m' & [= <-] & Hload' & _). congruence.
      * rewrite (served_serve _ _ _ _ _ _
                   (served_miss_relayed self e req w msgs _ db1 status content
                      Hstream Hmsgs Hget Hres Hup Hstatus)).
        unfold new_events. simpl. rewrite drop_app_length. split.
        -- intros (key & v & m' & Hin). by invert_events.
        -- intros (content' & v & m' & [= -> <-] & _). done.
    + rewrite (served_serve _ _ _ _ _ _
                 (served_miss_transport_error self e req w msgs _ db1 msg
                    Hstream Hmsgs Hget Hres Hup)).
      unfold new_events. simpl. rewrite drop_app_length. split.
      * intros (key & v & m' & Hin). by invert_events.
      * intros (content' & v & m' & [=] & _).
Qed.

Lemma miss_outcomes_witness :
  Proxy.status_code
    (Proxy.serve example_proxy unreachable example_request fresh_world).1 = 500
  ∧ Proxy.db (Proxy.serve example_proxy unreachable example_request fresh_world).2
    = Cache.Database [] (Cache.Counters 0 1)
  ∧ Proxy.status_code
      (Proxy.serve example_proxy unreachable example_stream_request fresh_world).1 = 502.
Proof.
  pose proof (miss_outcomes example_proxy unreachable example_request fresh_world
                example_messages (Cache.Database [] (Cache.Counters 0 1))
                eq_refl eq_refl eq_refl) as H.
  cbv zeta in H. destruct H as (_ & _ & _ & H & _).
  destruct (H "connection refused" eq_refl) as (_ & Hstatus & Hdb).
  split_and!; [exact Hstatus | exact Hdb | reflexivity].
Defined.

(** * Further properties of the code *)

(** ** cache.py: [Cache.delete] *)

Lemma length_delete_key (rows : list Cache.row) (k : string) :
  List.length (Cache.delete_key rows k) = List.length rows ↔ k ∉ Cache.key <$> rows.
Proof.
  unfold Cache.delete_key. induction rows as [|r rows IH]; simpl.
  - split; [intros _; apply not_elem_of_nil | done].
  - rewrite filter_cons, not_elem_of_cons.
    pose proof (length_filter (fun r => Cache.key r ≠ k) rows) as Hle.
    destruct (decide (Cache.key r ≠ k)) as [Hne|Heq]; simpl.
    + rewrite <- IH. split; [intros [= ?]; split; [congruence | done] | intros [_ ->]; done].
    + split; [intros ?; lia | intros [Hne _]; destruct Heq; congruence].
Qed.

(** [Cache.delete(key)] returns [True] exactly when the key was stored;
    afterwards the key is not stored and a lookup of it is a miss; every
    other entry and both counters are as they were. *)
Theorem delete_removes_entry (db : Cache.database) (k : string) :
  let out := Cache.delete db k in
  (out.1 = true ↔ k ∈ Cache.key <$> Cache.cache db)
  ∧ Cache.select (Cache.cache out.2) k = None
  ∧ (∀ now, (Cache.get out.2 k now).1 = Cache.Absent)
  ∧ (∀ k', k' ≠ k →
       Cache.select (Cache.cache out.2) k' = Cache.select (Cache.cache db) k')
  ∧ Cache.stats out.2 = Cache.stats db
  ∧ (Cache.delete out.2 k).1 = false.
Proof.
  simpl. split_and!.
  - rewrite negb_true_iff, Nat.eqb_neq, length_delete_key.
    destruct (decide (k ∈ Cache.key <$> Cache.cache db)); tauto.
  - apply select_delete_key_eq.
  - intros now. unfold Cache.get. simpl. by rewrite select_delete_key_eq.
  - intros k' Hne. by apply select_delete_key_ne.
  - done.
  - rewrite negb_false_iff, Nat.eqb_eq, length_delete_key.
    apply key_not_in_delete_key.
Qed.

(** ** cache.py: what every sequence of calls keeps *)

Lemma keys_filter_NoDup (P : Cache.row → Prop) `{∀ r, Decision (P r)}
    (rows : list Cache.row) :
  NoDup (Cache.key <$> rows) → NoDup (Cache.key <$> filter P rows).
Proof.
  intros Hnd. eapply sublist_NoDup; [exact Hnd |].
  apply fmap_sublist, sublist_filter.
Qed.

Lemma keys_touch (now : Z) (k : string) (rows : list Cache.row) :
  Cache.key <$> List.map (Cache.touch now k) rows = Cache.key <$> rows.
Proof.
  induction rows as [|r rows IH]; [done |]. simpl. rewrite key_touch. by f_equal.
Qed.

Lemma get_cache_cases (db : Cache.database) (k : string) (now : Z) :
  Cache.cache (Cache.get db k now).2 = Cache.cache db
  ∨ Cache.cache (Cache.get db k now).2 = Cache.delete_key (Cache.cache db) k
  ∨ Cache.cache (Cache.get db k now).2 = List.map (Cache.touch now k) (Cache.cache db).
Proof.
  unfold Cache.get. destruct (Cache.select (Cache.cache db) k) as [r|]; [| by left].
  destruct (Cache.expired r now); [by right; left |].
  right. right. by destruct (Json.loads (Cache.response r)).
Qed.

Lemma keys_unique_step (self : Cache.t) (db : Cache.database) (tc : Z * call) :
  keys_unique db → keys_unique (step self db tc).
Proof.
  unfold keys_unique. intros Hnd.
  destruct tc as [now [k|k v m ttl|k|older]]; unfold step; cbn [fst snd].
  - destruct (get_cache_cases db k now) as [-> | [-> | ->]]; [done | |].
    + by apply keys_filter_NoDup.
    + by rewrite keys_touch.
  - destruct (set_cache_filter self db k v m ttl now) as [ks ->].
    apply keys_filter_NoDup. by apply keys_unique_insert_or_replace.
  - by apply keys_filter_NoDup.
  - destruct older; simpl; [by apply keys_filter_NoDup | constructor].
Qed.

(** The primary key of the table: whatever calls are made, in whatever
    order and at whatever times, no two rows of the table have the same
    key. *)
Theorem keys_stay_unique (self : Cache.t) (calls : list (Z * call)) :
  keys_unique (run self calls Cache.empty)
  ∧ (∀ db, keys_unique db → keys_unique (run self calls db))
  ∧ (∀ db k r r',
        keys_unique db →
        r ∈ Cache.cache (run self calls db) → r' ∈ Cache.cache (run self calls db) →
        Cache.key r = k → Cache.key r' = k → r = r').
Proof.
  assert (∀ db, keys_unique db → keys_unique (run self calls db)) as Hrun.
  { unfold run. induction calls as [|tc calls IH]; intros db Hdb; [done |].
    simpl. apply IH. by apply keys_unique_step. }
  split_and!; [| done |].
  - apply Hrun. constructor.
  - intros db k r r' Hdb Hr Hr' Hk Hk'.
    specialize (Hrun db Hdb). unfold keys_unique in Hrun.
    apply list_elem_of_lookup in Hr as [i Hi], Hr' as [j Hj].
    assert (i = j) as ->; [| congruence].
    eapply NoDup_lookup; [exact Hrun | |].
    + rewrite list_lookup_fmap, Hi. done.
    + rewrite list_lookup_fmap, Hj. simpl. congruence.
Qed.

Lemma clock_ok_later (db : Cache.database) (t t' : Z) :
  t ≤ t' → clock_ok db t → clock_ok db t'.
Proof.
  intros Hle. unfold clock_ok. intros Hall.
  eapply Forall_impl; [exact Hall |]. simpl. intros r Hr. lia.
Qed.

Lemma clock_ok_filter (P : Cache.row → Prop) `{∀ r, Decision (P r)}
    (rows : list Cache.row) (st st' : Cache.counters) (t : Z) :
  clock_ok (Cache.Database rows st) t → clock_ok (Cache.Database (filter P rows) st') t.
Proof.
  unfold clock_ok. simpl. intros Hall. apply Forall_forall.
  intros r [_ Hr]%list_elem_of_filter. by eapply Forall_forall in Hall.
Qed.

Lemma clock_ok_step (self : Cache.t) (db : Cache.database) (tc : Z * call) :
  clock_ok db tc.1 → clock_ok (step self db tc) tc.1.
Proof.
  destruct db as [rows st].
  destruct tc as [now [k|k v m ttl|k|older]]; unfold step; cbn [fst snd]; intros Hok.
  - unfold clock_ok in *.
    destruct (get_cache_cases (Cache.Database rows st) k now) as [-> | [-> | ->]];
      simpl in *; [done | |].
    + apply Forall_forall. intros r [_ Hr]%list_elem_of_filter.
      by eapply Forall_forall in Hok.
    + apply Forall_forall. intros r [r0 [-> Hr0]]%list_elem_of_fmap.
      eapply Forall_forall in Hok; [| exact Hr0].
      unfold Cache.touch. destruct (String.eqb (Cache.key r0) k); simpl; lia.
  - unfold clock_ok in *.
    destruct (set_cache_filter self (Cache.Database rows st) k v m ttl now) as [ks ->].
    simpl in *. apply Forall_forall. intros r [_ Hr]%list_elem_of_filter.
    unfold Cache.insert_or_replace in Hr. apply elem_of_app in Hr as [Hr|Hr].
    + apply list_elem_of_filter in Hr as [_ Hr]. by eapply Forall_forall in Hok.
    + apply list_elem_of_singleton in Hr as ->. simpl. lia.
  - by apply (clock_ok_filter _ rows st).
  - destruct older; simpl; [by apply (clock_ok_filter _ rows st) | constructor].
Qed.

Lemma last_reading_cons (t : Z) (tc : Z * call) (calls : list (Z * call)) :
  last_reading t (tc :: calls) = last_reading tc.1 calls.
Proof.
  unfold last_reading. destruct calls as [|p calls]; [reflexivity |].
  change (last (tc :: p :: calls)) with (last (p :: calls)).
  destruct (last (p :: calls)) eqn:E; [done |]. by apply last_None in E.
Qed.

(** When the clock does not run backwards, no entry is ever recorded as
    accessed later than the last clock reading: [clock_ok] holds in every
    state the store reaches from a new database. *)
Theorem clock_stays_ok (self : Cache.t) (calls : list (Z * call)) (t : Z) :
  clock_monotone t calls →
  clock_ok (run self calls Cache.empty) (last_reading t calls)
  ∧ (∀ db, clock_ok db t → clock_ok (run self calls db) (last_reading t calls)).
Proof.
  intros Hmono.
  assert (∀ db, clock_ok db t → clock_ok (run self calls db) (last_reading t calls))
    as Hrun.
  { revert t Hmono. unfold run.
    induction calls as [|tc calls IH]; intros t Hmono db Hdb; [done |].
    destruct Hmono as [Hle Hmono]. simpl. rewrite last_reading_cons.
    apply IH; [done |]. apply clock_ok_step. by eapply clock_ok_later. }
  split; [| done]. apply Hrun. constructor.
Qed.

Lemma clock_stays_ok_witness :
  clock_ok
    (run example_store
       [(10, CallSet "A" example_response "gpt-x" None); (12, CallGet "A");
        (12, CallSet "B" example_response "gpt-x" (Some 5)); (30, CallGet "B")]
       Cache.empty) 30.
Proof.
  destruct (clock_stays_ok example_store
              [(10, CallSet "A" example_response "gpt-x" None); (12, CallGet "A");
               (12, CallSet "B" example_response "gpt-x" (Some 5)); (30, CallGet "B")] 0)
    as [H _]; [| exact H].
  repeat split; simpl; lia.
Defined.

(** ** cache.py: the entry limit is kept *)

Lemma entry_count_set (self : Cache.t) (db : Cache.database) (k : string) (v : json)
    (m : string) (ttl_override : option Z) (now limit : Z) :
  Cache.max_entries self = Some limit → 0 < limit → keys_unique db →
  entry_count (Cache.set self db k v m ttl_override now) ≤ limit.
Proof.
  intros Hmax Hpos Hnd. unfold entry_count.
  set (rows := Cache.insert_or_replace (Cache.cache db)
                 (fresh_row self k v m ttl_override now)).
  destruct (decide (Z.of_nat (List.length rows) ≤ limit)) as [Hle|Hgt].
  - by rewrite (set_cache_under self db k v m ttl_override now limit).
  - assert (Cache.set self db k v m ttl_override now
            = Cache._evict_lru limit (Cache.Database rows (Cache.stats db))) as ->.
    { unfold Cache.set. rewrite Hmax.
      by rewrite (proj2 (Z.eqb_neq limit 0)) by lia. }
    destruct (evict_lru_over limit (Cache.Database rows (Cache.stats db)))
      as (victims & kept & _ & _ & _ & _ & Hlen & _).
    + by apply keys_unique_insert_or_replace.
    + lia.
    + simpl. lia.
    + lia.
Qed.

Lemma entry_count_step_other (self : Cache.t) (db : Cache.database) (tc : Z * call) :
  (∀ k v m ttl, tc.2 ≠ CallSet k v m ttl) →
  entry_count (step self db tc) ≤ entry_count db.
Proof.
  unfold entry_count.
  destruct tc as [now [k|k v m ttl|k|older]]; unfold step; cbn [fst snd]; intros Hset.
  - destruct (get_cache_cases db k now) as [-> | [-> | ->]]; [lia | |].
    + pose proof (length_filter (fun r => Cache.key r ≠ k) (Cache.cache db)).
      unfold Cache.delete_key. lia.
    + rewrite length_map. lia.
  - by destruct (Hset k v m ttl).
  - simpl. pose proof (length_filter (fun r => Cache.key r ≠ k) (Cache.cache db)).
    unfold Cache.delete_key. lia.
  - destruct older as [days|]; simpl; [| lia].
    pose proof (length_filter
                  (fun r => ¬ Cache.created_at r < now - days * 86400) (Cache.cache db)).
    lia.
Qed.

(** A store with a positive [max_entries] never holds more entries than
    that when a call returns: not after any sequence of calls on a new
    database, and not after an insertion into a table that held more
    (a database written under a larger limit). *)
Theorem entry_limit_kept (self : Cache.t) (limit : Z) :
  Cache.max_entries self = Some limit → 0 < limit →
  (∀ calls, entry_count (run self calls Cache.empty) ≤ limit)
  ∧ (∀ calls db, keys_unique db → entry_count db ≤ limit →
                 entry_count (run self calls db) ≤ limit)
  ∧ (∀ db k v m ttl_override now, keys_unique db →
       entry_count (Cache.set self db k v m ttl_override now) ≤ limit).
Proof.
  intros Hmax Hpos.
  assert (∀ calls db, keys_unique db → entry_count db ≤ limit →
                      entry_count (run self calls db) ≤ limit) as Hrun.
  { unfold run. induction calls as [|tc calls IH]; intros db Hnd Hle; [done |].
    simpl. apply IH; [by apply keys_unique_step |].
    destruct tc as [now c].
    destruct c as [k|k v m ttl|k|older];
      [| by apply entry_count_set | |];
      (etrans; [by apply entry_count_step_other | done]). }
  split_and!; [| done |].
  - intros calls. apply Hrun; [constructor | unfold entry_count; simpl; lia].
  - intros. by apply entry_count_set.
Qed.

Lemma entry_limit_kept_witness :
  entry_count
    (run example_store
       [(10, CallSet "A" example_response "gpt-x" None);
        (11, CallSet "B" example_response "gpt-x" None);
        (12, CallGet "A");
        (13, CallSet "C" example_response "gpt-x" None);
        (14, CallSet "D" example_response "gpt-x" None)]
       Cache.empty) ≤ 2.
Proof.
  destruct (entry_limit_kept example_store 2) as [H _]; [done | lia |].
  apply H.
Defined.

(** ** cache.py: the counters of hits and misses *)

Lemma lookups_get (db : Cache.database) (k : string) (now : Z) :
  lookups (Cache.get db k now).2 = lookups db + 1.
Proof.
  unfold lookups, Cache.get.
  destruct (Cache.select (Cache.cache db) k) as [r|]; simpl; [| lia].
  destruct (Cache.expired r now); simpl; [lia |].
  destruct (Json.loads (Cache.response r)); simpl; lia.
Qed.

Lemma lookups_step (self : Cache.t) (db : Cache.database) (tc : Z * call) :
  is_clear tc = false →
  lookups (step self db tc) = lookups db + (if is_get tc then 1 else 0).
Proof.
  destruct tc as [now [k|k v m ttl|k|older]]; unfold step, is_clear, is_get;
    cbn [fst snd]; intros Hclear; try done.
  - apply lookups_get.
  - unfold lookups. rewrite set_stats. lia.
  - unfold lookups. simpl. lia.
Qed.

Lemma lookups_run (self : Cache.t) (calls : list (Z * call)) (db : Cache.database) :
  forallb (fun tc => negb (is_clear tc)) calls = true →
  lookups (run self calls db) = lookups db + Z.of_nat (List.length (List.filter is_get calls)).
Proof.
  unfold run. revert db. induction calls as [|tc calls IH]; intros db Hno; simpl.
  - lia.
  - simpl in Hno. apply andb_true_iff in Hno as [Htc Hno].
    apply negb_true_iff in Htc.
    rewrite IH, lookups_step by done. destruct (is_get tc); simpl; lia.
Qed.

(** Every lookup is counted once, as a hit or as a miss, and nothing
    else is counted: after any calls of [get], [set] and [delete] the two
    counters have grown together by the number of calls of [get], also
    when a [get] found an entry expired or could not decode it; after a
    [clear] they hold the number of calls of [get] made since. *)
Theorem lookups_counted_once (self : Cache.t) (calls : list (Z * call)) :
  forallb (fun tc => negb (is_clear tc)) calls = true →
  (∀ db, lookups (run self calls db)
         = lookups db + Z.of_nat (List.length (List.filter is_get calls)))
  ∧ (∀ db before t older_than_days,
        lookups (run self (before ++ (t, CallClear older_than_days) :: calls) db)
        = Z.of_nat (List.length (List.filter is_get calls)))
  ∧ (∀ db, Cache.hits (Cache.stats db) ≤ Cache.hits (Cache.stats (run self calls db))
           ∧ Cache.misses (Cache.stats db) ≤ Cache.misses (Cache.stats (run self calls db))).
Proof.
  intros Hno. split_and!.
  - intros db. by apply lookups_run.
  - intros db before t older. unfold run. rewrite fold_left_app. simpl.
    fold (run self calls
            (step self (fold_left (step self) before db) (t, CallClear older))).
    rewrite lookups_run by done. unfold step, lookups. simpl. lia.
  - unfold run. induction calls as [|tc calls IH]; intros db; simpl; [lia |].
    simpl in Hno. apply andb_true_iff in Hno as [Htc Hno].
    specialize (IH Hno (step self db tc)).
    assert (Cache.hits (Cache.stats db) ≤ Cache.hits (Cache.stats (step self db tc))
            ∧ Cache.misses (Cache.stats db) ≤ Cache.misses (Cache.stats (step self db tc)));
      [| lia].
    destruct tc as [now [k|k v m ttl|k|older]]; unfold step; cbn [fst snd].
    + unfold Cache.get.
      destruct (Cache.select (Cache.cache db) k) as [r|]; simpl; [| lia].
      destruct (Cache.expired r now); simpl; [lia |].
      destruct (Json.loads (Cache.response r)); simpl; lia.
    + rewrite set_stats. lia.
    + simpl. lia.
    + done.
Qed.

Lemma lookups_counted_once_witness :
  lookups
    (run example_store
       [(10, CallGet "A"); (11, CallSet "A" example_response "gpt-x" (Some 5));
        (12, CallGet "A"); (20, CallGet "A"); (21, CallDelete "A"); (22, CallGet "A")]
       example_db)
  = 4 + 4.
Proof.
  destruct (lookups_counted_once example_store
              [(10, CallGet "A"); (11, CallSet "A" example_response "gpt-x" (Some 5));
               (12, CallGet "A"); (20, CallGet "A"); (21, CallDelete "A");
               (22, CallGet "A")]) as [H _]; [done |].
  rewrite H. reflexivity.
Defined.

(** ** cache.py: an insertion and the other entries *)

Lemma select_delete_keys (rows : list Cache.row) (ks : list string) (k : string) :
  Cache.select (Cache.delete_keys rows ks) k
  = if decide (k ∈ ks) then None else Cache.select rows k.
Proof.
  unfold Cache.delete_keys, Cache.select.
  induction rows as [|r rows IH]; simpl; [by destruct (decide (k ∈ ks)) |].
  rewrite filter_cons. destruct (String.eqb_spec (Cache.key r) k) as [Hk|Hk].
  - destruct (decide (Cache.key r ∉ ks)) as [Hin|Hin]; simpl.
    + rewrite (proj2 (String.eqb_eq (Cache.key r) k) Hk). subst k.
      rewrite decide_False; [done |]. by intros ?.
    + rewrite IH. subst k. by destruct (decide (Cache.key r ∈ ks)).
  - destruct (decide (Cache.key r ∉ ks)); simpl; [| done].
    by rewrite (proj2 (String.eqb_neq (Cache.key r) k) Hk).
Qed.

Lemma length_insert_or_replace (rows : list Cache.row) (r : Cache.row) :
  (List.length (Cache.insert_or_replace rows r) ≤ S (List.length rows))%nat.
Proof.
  unfold Cache.insert_or_replace, Cache.delete_key. rewrite length_app. simpl.
  pose proof (length_filter (fun r0 => Cache.key r0 ≠ Cache.key r) rows). lia.
Qed.

(** [Cache.set] never changes the entry of another key: after the call
    that entry is what it was, or it is gone, evicted.  It is what it was
    when the store has no limit (none, or 0) or held fewer entries than
    its limit. *)
Theorem set_leaves_other_entries (self : Cache.t) (db : Cache.database) (k k' : string)
    (v : json) (m : string) (ttl_override : option Z) (now : Z) :
  k' ≠ k →
  let db' := Cache.set self db k v m ttl_override now in
  (Cache.select (Cache.cache db') k' = Cache.select (Cache.cache db) k'
   ∨ Cache.select (Cache.cache db') k' = None)
  ∧ (Cache.max_entries self = None ∨ Cache.max_entries self = Some 0
     ∨ (∃ limit, Cache.max_entries self = Some limit ∧ entry_count db < limit) →
     Cache.select (Cache.cache db') k' = Cache.select (Cache.cache db) k').
Proof.
  intros Hne. simpl. split.
  - destruct (set_cache_filter self db k v m ttl_override now) as [ks ->].
    rewrite select_delete_keys. destruct (decide (k' ∈ ks)); [by right | left].
    by apply select_insert_or_replace_ne.
  - intros Hcase.
    assert (Cache.cache (Cache.set self db k v m ttl_override now)
            = Cache.insert_or_replace (Cache.cache db)
                (fresh_row self k v m ttl_override now)) as ->.
    { destruct Hcase as [Hmax | [Hmax | (limit & Hmax & Hlt)]].
      - unfold Cache.set. by rewrite Hmax.
      - unfold Cache.set. by rewrite Hmax.
      - apply (set_cache_under self db k v m ttl_override now limit Hmax).
        pose proof (length_insert_or_replace (Cache.cache db)
                      (fresh_row self k v m ttl_override now)).
        unfold entry_count in Hlt. lia. }
    by apply select_insert_or_replace_ne.
Qed.

Lemma set_leaves_other_entries_witness :
  Cache.select
    (Cache.cache (Cache.set example_store example_db "k1" example_response "gpt-x"
                    None 100)) "k0"
  = Some (Cache.Row "k0" "{}" "gpt-x" 40 None 3 90).
Proof.
  destruct (set_leaves_other_entries example_store example_db "k1" "k0"
              example_response "gpt-x" None 100) as [_ H]; [done |].
  rewrite H; [reflexivity |].
  right. right. exists 2. split; [reflexivity | unfold entry_count; simpl; lia].
Defined.

(** ** cache.py: expiry *)

(** An entry stored with an effective TTL is gone once the clock has
    passed the moment of insertion plus that TTL: the lookup returns
    nothing, deletes the entry and counts a miss.  The TTL may be 0 or
    negative; the entry is then expired at any later reading. *)
Theorem entry_expires_after_ttl (self : Cache.t) (db : Cache.database) (k : string)
    (v : json) (m : string) (ttl_override : option Z) (now now' ttl : Z) :
  limit_ok self → clock_ok db now →
  effective_ttl self ttl_override = Some ttl → now + ttl < now' →
  let out := Cache.get (Cache.set self db k v m ttl_override now) k now' in
  out.1 = Cache.Absent
  ∧ Cache.select (Cache.cache out.2) k = None
  ∧ Cache.misses (Cache.stats out.2) = Cache.misses (Cache.stats db) + 1
  ∧ Cache.hits (Cache.stats out.2) = Cache.hits (Cache.stats db)
  ∧ (∀ now'', (Cache.get out.2 k now'').1 = Cache.Absent).
Proof.
  intros Hlimit Hclock Httl Hlate. simpl.
  assert (Cache.get (Cache.set self db k v m ttl_override now) k now'
          = (Cache.Absent,
             Cache.Database
               (Cache.delete_key
                  (Cache.cache (Cache.set self db k v m ttl_override now)) k)
               (Cache.count_miss (Cache.stats db)))) as ->.
  { unfold Cache.get. rewrite select_after_set by done.
    assert (Cache.expired (fresh_row self k v m ttl_override now) now' = true) as ->.
    { unfold Cache.expired, fresh_row. simpl. rewrite Httl. apply Z.ltb_lt. lia. }
    by rewrite set_stats. }
  simpl. split_and!; try done.
  - apply select_delete_key_eq.
  - intros now''. unfold Cache.get. simpl. by rewrite select_delete_key_eq.
Qed.

Lemma entry_expires_after_ttl_witness :
  (Cache.get (Cache.set example_store example_db "k1" example_response "gpt-x" None 100)
     "k1" 161).1
  = Cache.Absent.
Proof.
  destruct (entry_expires_after_ttl example_store example_db "k1" example_response
              "gpt-x" None 100 161 60) as [H _]; [| | reflexivity | lia | exact H].
  - intros n [= <-]. lia.
  - repeat constructor. simpl. lia.
Defined.

(** ** proxy.py: a repeated request *)

Lemma get_after_set (self : Cache.t) (db : Cache.database) (k : string) (v : json)
    (m : string) (ttl_override : option Z) (now now' : Z) :
  json_representable v → limit_ok self → clock_ok db now →
  (∀ ttl, effective_ttl self ttl_override = Some ttl → now' ≤ now + ttl) →
  ∃ db', Cache.get (Cache.set self db k v m ttl_override now) k now' = (Cache.Found v, db').
Proof.
  intros Hv Hlimit Hclock Httl. unfold Cache.get.
  rewrite select_after_set by done.
  assert (Cache.expired (fresh_row self k v m ttl_override now) now' = false) as ->.
  { unfold Cache.expired, fresh_row. simpl.
    destruct (effective_ttl self ttl_override) as [ttl|]; [| done].
    apply Z.ltb_ge. by apply Httl. }
  unfold fresh_row at 1. simpl. unfold json_representable in Hv. rewrite Hv. eauto.
Qed.

Lemma same_fingerprint_fields_payload (req req' : Proxy.request) :
  same_fingerprint_fields req req' →
  payload_messages req' = payload_messages req
  ∧ payload_model req' = payload_model req
  ∧ ∀ msgs, payload_key req' msgs = payload_key req msgs.
Proof.
  unfold same_fingerprint_fields, fingerprint_fields. intros Hsame.
  apply Forall_cons in Hsame as [H1 Hsame]. apply Forall_cons in Hsame as [H2 Hsame].
  apply Forall_cons in Hsame as [H3 Hsame]. apply Forall_cons in Hsame as [H4 Hsame].
  apply Forall_cons in Hsame as [H5 _].
  unfold payload_key, payload_messages, payload_model, dict_get_default.
  split_and!; [by rewrite H1 | by rewrite H2 |]. intros msgs. by rewrite H2, H3, H4, H5.
Qed.

(** Once a request that is not streamed has been answered with
    [X-Cache: MISS], a request with the same messages, model, temperature,
    max_tokens and tools, whatever else its payload holds, is answered
    from the cache with [X-Cache: HIT] and the same body, and nothing is
    posted upstream.  This holds while the TTL of the store has not run
    out, for a body other than [null] that [json.dumps] and [json.loads]
    give back, a limit that is not negative and a clock that has not run
    backwards. *)
Theorem repeated_request_hits (self : Proxy.t) (e1 e2 : Proxy.env)
    (req1 req2 : Proxy.request) (w : Proxy.world) (v : json) :
  let r1 := (Proxy.serve self e1 req1 w).1 in
  let w1 := (Proxy.serve self e1 req1 w).2 in
  let r2 := (Proxy.serve self e2 req2 w1).1 in
  let w2 := (Proxy.serve self e2 req2 w1).2 in
  streaming req1 = false → streaming req2 = false →
  same_fingerprint_fields req1 req2 →
  x_cache r1 = Some "MISS" →
  Proxy.payload r1 = Proxy.JsonBody v →
  json_representable v → v ≠ JNull →
  limit_ok (Proxy.cache self) →
  clock_ok (Proxy.db w) (Proxy.clock_get e1) →
  Proxy.clock_get e1 ≤ Proxy.clock_set e1 →
  (∀ ttl, Cache.ttl_seconds (Proxy.cache self) = Some ttl →
          Proxy.clock_get e2 ≤ Proxy.clock_set e1 + ttl) →
  r2 = Proxy.set_header "X-Cache" "HIT" (Proxy.jsonify v)
  ∧ Proxy.payload r2 = Proxy.payload r1
  ∧ x_cache r2 = Some "HIT"
  ∧ (posted self req2 ∉ new_events w1 w2)
  ∧ (∃ key, new_events w1 w2 = [Proxy.Hashed key; Proxy.CacheGet key]).
Proof.
  intros r1 w1 r2 w2 Hs1 Hs2 Hsame Hx Hbody Hv Hnn Hlimit Hclock Hle Httl.
  subst r1 w1 r2 w2.
  destruct (Proxy.serve self e1 req1 w) as [r1 w1] eqn:Hserve1. simpl in *.
  apply serve_served in Hserve1.
  destruct Hserve1 as [Hstream|ex Hstream Hmsgs
                |msgs db1 Hstream Hmsgs Hget
                |msgs v0 db1 Hstream Hmsgs Hget Hv0
                |msgs m res db1 content v0 Hstream Hmsgs Hget Hres Hup Hload Hbind
                |msgs ex res db1 content v0 Hstream Hmsgs Hget Hres Hup Hload Hbind
                |msgs res db1 status content Hstream Hmsgs Hget Hres Hup Hstatus
                |msgs res db1 content Hstream Hmsgs Hget Hres Hup Hload
                |msgs res db1 msg Hstream Hmsgs Hget Hres Hup];
    try (rewrite x_cache_relay in Hx; discriminate Hx);
    try (vm_compute in Hx; discriminate Hx).
  simpl in Hbody. injection Hbody as ->.
  destruct (same_fingerprint_fields_payload req1 req2 Hsame) as (Hpm & Hpmo & Hpk).
  set (k := payload_key req1 msgs) in *.
  assert (clock_ok db1 (Proxy.clock_set e1)) as Hclock1.
  { apply (clock_ok_later _ (Proxy.clock_get e1)); [done |].
    replace db1 with (step (Proxy.cache self) (Proxy.db w) (Proxy.clock_get e1, CallGet k))
      by (unfold step; simpl; by rewrite Hget).
    by apply clock_ok_step. }
  destruct (get_after_set (Proxy.cache self) db1 k v m None (Proxy.clock_set e1)
              (Proxy.clock_get e2)) as [db2 Hget2]; try done.
  set (w1 := Proxy.World
               (Cache.set (Proxy.cache self) db1 k v m None (Proxy.clock_set e1))
               (Proxy.log w ++ [Proxy.Hashed k; Proxy.CacheGet k; posted self req1;
                                Proxy.CacheSet k v m])).
  assert (served self e2 req2 w1
            (Proxy.set_header "X-Cache" "HIT" (Proxy.jsonify v))
            (Proxy.World db2
               (Proxy.log w1 ++ [Proxy.Hashed (payload_key req2 msgs);
                                 Proxy.CacheGet (payload_key req2 msgs)]))) as Hserved.
  { apply (served_hit self e2 req2 w1 msgs v db2); try done.
    - by rewrite Hpm.
    - rewrite Hpk. exact Hget2. }
  apply served_serve in Hserved. rewrite Hserved. simpl.
  unfold new_events. simpl. rewrite drop_app_length.
  split_and!; try done.
  - intros Hin. clearbody k. rewrite Hpk in Hin. by invert_events.
  - eauto.
Qed.

Lemma repeated_request_hits_witness :
  x_cache
    (Proxy.serve example_proxy answering example_request_more
       (Proxy.serve example_proxy answering example_request fresh_world).2).1
  = Some "HIT".
Proof.
  destruct (repeated_request_hits example_proxy answering answering example_request
              example_request_more fresh_world (JArr [JInt 1; JInt 2]))
    as (_ & _ & H & _); try exact H.
  - reflexivity.
  - reflexivity.
  - repeat constructor.
  - vm_compute. reflexivity.
  - vm_compute. reflexivity.
  - vm_compute. reflexivity.
  - done.
  - intros n [= <-]. lia.
  - constructor.
  - simpl. lia.
  - intros ttl [= <-]. simpl. lia.
Defined.

(** A lookup that gives the handler nothing to serve sends the request
    upstream, whatever the upstream then answers. *)
Lemma miss_goes_upstream (self : Proxy.t) (e : Proxy.env) (req : Proxy.request)
    (w : Proxy.world) (msgs : list dict) (res : Cache.lookup)
    (db1 : Cache.database) :
  streaming req = false →
  Proxy.as_messages (payload_messages req) = Proxy.Returned msgs →
  Cache.get (Proxy.db w) (payload_key req msgs) (Proxy.clock_get e) = (res, db1) →
  res = Cache.Absent ∨ res = Cache.Found JNull →
  posted self req ∈ new_events w (Proxy.serve self e req w).2
  ∧ x_cache (Proxy.serve self e req w).1 ≠ Some "HIT"
  ∧ Cache.stats (Proxy.db (Proxy.serve self e req w).2) = Cache.stats db1.
Proof.
  intros Hstream Hmsgs Hget Hres.
  assert (∀ evs : list Proxy.event,
            posted self req
            ∈ [Proxy.Hashed (payload_key req msgs);
               Proxy.CacheGet (payload_key req msgs); posted self req] ++ evs) as Hin.
  { intros evs. do 2 (apply elem_of_cons; right). by apply elem_of_cons; left. }
  destruct (upstream_answer self e req) as [status content|msg] eqn:Hup.
  - destruct (decide (status = 200)) as [->|Hstatus].
    + destruct (Json.loads content) as [v|] eqn:Hload.
      * destruct (Proxy.bind_model e (payload_model req)) as [m|ex] eqn:Hbind.
        -- rewrite (served_serve _ _ _ _ _ _
                      (served_miss_stored self e req w msgs m res db1 content v
                         Hstream Hmsgs Hget Hres Hup Hload Hbind)).
           unfold new_events. simpl. rewrite drop_app_length.
           split_and!; [apply (Hin [_]) | done | apply set_stats].
        -- rewrite (served_serve _ _ _ _ _ _
                      (served_miss_unbound self e req w msgs ex res db1 content v
                         Hstream Hmsgs Hget Hres Hup Hload Hbind)).
           unfold new_events. simpl. rewrite drop_app_length.
           split_and!; [apply (Hin []) | done | done].
      * rewrite (served_serve _ _ _ _ _ _
                   (served_miss_undecodable self e req w msgs res db1 content
                      Hstream Hmsgs Hget Hres Hup Hload)).
        unfold new_events. simpl. rewrite drop_app_length.
        split_and!; [apply (Hin []) | done | done].
    + rewrite (served_serve _ _ _ _ _ _
                 (served_miss_relayed self e req w msgs res db1 status content
                    Hstream Hmsgs Hget Hres Hup Hstatus)).
      unfold new_events. simpl. rewrite drop_app_length.
      split_and!; [apply (Hin []) | done | done].
  - rewrite (served_serve _ _ _ _ _ _
               (served_miss_transport_error self e req w msgs res db1 msg
                  Hstream Hmsgs Hget Hres Hup)).
    unfold new_events. simpl. rewrite drop_app_length.
    split_and!; [apply (Hin []) | done | done].
Qed.

(** An upstream answer of status 200 whose body is the JSON text [null]
    is stored, yet it is never served: [Cache.get] returns [None] for it
    as for an absent key, so a repeated request is posted upstream again,
    while the store counts the lookup as a hit. *)
Theorem null_body_is_never_served (self : Proxy.t) (e1 e2 : Proxy.env)
    (req1 req2 : Proxy.request) (w : Proxy.world) :
  let r1 := (Proxy.serve self e1 req1 w).1 in
  let w1 := (Proxy.serve self e1 req1 w).2 in
  let r2 := (Proxy.serve self e2 req2 w1).1 in
  let w2 := (Proxy.serve self e2 req2 w1).2 in
  streaming req1 = false → streaming req2 = false →
  same_fingerprint_fields req1 req2 →
  x_cache r1 = Some "MISS" →
  Proxy.payload r1 = Proxy.JsonBody JNull →
  limit_ok (Proxy.cache self) →
  clock_ok (Proxy.db w) (Proxy.clock_get e1) →
  Proxy.clock_get e1 ≤ Proxy.clock_set e1 →
  (∀ ttl, Cache.ttl_seconds (Proxy.cache self) = Some ttl →
          Proxy.clock_get e2 ≤ Proxy.clock_set e1 + ttl) →
  (∃ key m, Proxy.CacheSet key JNull m ∈ new_events w w1)
  ∧ posted self req2 ∈ new_events w1 w2
  ∧ x_cache r2 ≠ Some "HIT"
  ∧ Cache.hits (Cache.stats (Proxy.db w2)) = Cache.hits (Cache.stats (Proxy.db w1)) + 1
  ∧ Cache.misses (Cache.stats (Proxy.db w2)) = Cache.misses (Cache.stats (Proxy.db w1)).
Proof.
  intros r1 w1 r2 w2 Hs1 Hs2 Hsame Hx Hbody Hlimit Hclock Hle Httl.
  subst r1 w1 r2 w2.
  destruct (Proxy.serve self e1 req1 w) as [r1 w1] eqn:Hserve1. simpl in *.
  apply serve_served in Hserve1.
  destruct Hserve1 as [Hstream|ex Hstream Hmsgs
                |msgs db1 Hstream Hmsgs Hget
                |msgs v0 db1 Hstream Hmsgs Hget Hv0
                |msgs m res db1 content v0 Hstream Hmsgs Hget Hres Hup Hload Hbind
                |msgs ex res db1 content v0 Hstream Hmsgs Hget Hres Hup Hload Hbind
                |msgs res db1 status content Hstream Hmsgs Hget Hres Hup Hstatus
                |msgs res db1 content Hstream Hmsgs Hget Hres Hup Hload
                |msgs res db1 msg Hstream Hmsgs Hget Hres Hup];
    try (rewrite x_cache_relay in Hx; discriminate Hx);
    try (vm_compute in Hx; discriminate Hx).
  simpl in Hbody. injection Hbody as ->.
  destruct (same_fingerprint_fields_payload req1 req2 Hsame) as (Hpm & Hpmo & Hpk).
  set (k := payload_key req1 msgs) in *.
  assert (clock_ok db1 (Proxy.clock_set e1)) as Hclock1.
  { apply (clock_ok_later _ (Proxy.clock_get e1)); [done |].
    replace db1 with (step (Proxy.cache self) (Proxy.db w) (Proxy.clock_get e1, CallGet k))
      by (unfold step; simpl; by rewrite Hget).
    by apply clock_ok_step. }
  set (db1' := Cache.set (Proxy.cache self) db1 k JNull m None (Proxy.clock_set e1)).
  destruct (get_after_set (Proxy.cache self) db1 k JNull m None (Proxy.clock_set e1)
              (Proxy.clock_get e2)) as [db2 Hget2]; try done.
  set (w1 := Proxy.World db1'
               (Proxy.log w ++ [Proxy.Hashed k; Proxy.CacheGet k; posted self req1;
                                Proxy.CacheSet k JNull m])).
  destruct (miss_goes_upstream self e2 req2 w1 msgs (Cache.Found JNull) db2)
    as (Hposted & Hnohit & Hstats); try done.
  { by rewrite Hpm. }
  { rewrite Hpk. exact Hget2. }
  { by right. }
  split_and!; try done.
  - exists k, m. unfold new_events. simpl. rewrite drop_app_length.
    do 3 (apply elem_of_cons; right). by apply elem_of_cons; left.
  - rewrite Hstats. fold db1' in Hget2. unfold Cache.get in Hget2.
    destruct (Cache.select (Cache.cache db1') k) as [r|]; [| done].
    destruct (Cache.expired r (Proxy.clock_get e2)); [done |].
    destruct (Json.loads (Cache.response r)); by simplify_eq.
  - rewrite Hstats. fold db1' in Hget2. unfold Cache.get in Hget2.
    destruct (Cache.select (Cache.cache db1') k) as [r|]; [| done].
    destruct (Cache.expired r (Proxy.clock_get e2)); [done |].
    destruct (Json.loads (Cache.response r)); by simplify_eq.
Qed.

Lemma null_body_is_never_served_witness :
  posted example_proxy example_request
  ∈ new_events
      (Proxy.serve example_proxy answering_null example_request fresh_world).2
      (Proxy.serve example_proxy answering_null example_request
         (Proxy.serve example_proxy answering_null example_request fresh_world).2).2.
Proof.
  destruct (null_body_is_never_served example_proxy answering_null answering_null
              example_request example_request fresh_world)
    as (_ & H & _); try exact H.
  - reflexivity.
  - reflexivity.
  - repeat constructor.
  - vm_compute. reflexivity.
  - vm_compute. reflexivity.
  - intros n [= <-]. lia.
  - constructor.
  - simpl. lia.
  - intros ttl [= <-]. simpl. lia.
Defined.

(** ** proxy.py: the headers sent upstream *)

Lemma forward_headers_eq (req : Proxy.request) :
  let sent name :=
    match Proxy.header_get (Proxy.request_headers req) name with
    | Some value => [(name, value)]
    | None => []
    end in
  Proxy.forward_headers req
  = sent "Authorization" ++ sent "X-Api-Key" ++ sent "Anthropic-Version"
    ++ [("Content-Type",
         match Proxy.header_get (Proxy.request_headers req) "Content-Type" with
         | Some value => value
         | None => "application/json"
         end)].
Proof.
  unfold Proxy.forward_headers, Proxy.forwarded_names. cbn [fold_left].
  destruct (Proxy.header_get (Proxy.request_headers req) "Authorization") as [a|];
    destruct (Proxy.header_get (Proxy.request_headers req) "X-Api-Key") as [b|];
    destruct (Proxy.header_get (Proxy.request_headers req) "Anthropic-Version") as [c|];
    destruct (Proxy.header_get (Proxy.request_headers req) "Content-Type") as [d|];
    reflexivity.
Qed.

(** Of the headers of the inbound request only [Authorization],
    [X-Api-Key], [Anthropic-Version] and [Content-Type] are sent
    upstream, each once, under these names and with the value the request
    has for the name in any letter case; [Content-Type] is always sent,
    as [application/json] when the request has none. *)
Theorem forward_headers_are_the_known_ones (req : Proxy.request) :
  Forall (fun kv => kv.1 ∈ Proxy.forwarded_names) (Proxy.forward_headers req)
  ∧ NoDup (Proxy.forward_headers req).*1
  ∧ (∀ name, name ∈ ["Authorization"; "X-Api-Key"; "Anthropic-Version"] →
       dict_get (Proxy.forward_headers req) name
       = Proxy.header_get (Proxy.request_headers req) name)
  ∧ dict_get (Proxy.forward_headers req) "Content-Type"
    = Some (match Proxy.header_get (Proxy.request_headers req) "Content-Type" with
            | Some value => value
            | None => "application/json"
            end)
  ∧ (∀ name, name ∉ Proxy.forwarded_names →
       dict_get (Proxy.forward_headers req) name = None).
Proof.
  rewrite forward_headers_eq. unfold Proxy.forwarded_names.
  destruct (Proxy.header_get (Proxy.request_headers req) "Authorization") as [a|] eqn:Ha;
    destruct (Proxy.header_get (Proxy.request_headers req) "X-Api-Key") as [b|] eqn:Hb;
    destruct (Proxy.header_get (Proxy.request_headers req) "Anthropic-Version") as [c|] eqn:Hc;
    destruct (Proxy.header_get (Proxy.request_headers req) "Content-Type") as [d|] eqn:Hd;
    cbn [app].
  all: split_and!;
    [ apply Forall_forall; intros [n v] Hin;
      apply (list_elem_of_fmap_2 fst) in Hin; cbn [fmap list_fmap fst] in Hin;
      repeat (apply elem_of_cons in Hin as [-> | Hin]; [compute_done |]);
      by apply elem_of_nil in Hin
    | cbn [fmap list_fmap fst];
      repeat (apply NoDup_cons; split; [compute_done |]); apply NoDup_nil
    | intros name Hname;
      repeat (apply elem_of_cons in Hname as [-> | Hname];
              [rewrite ?Ha, ?Hb, ?Hc; reflexivity |]);
      by apply elem_of_nil in Hname
    | reflexivity
    | intros name Hname; apply dict_get_None; cbn [fmap list_fmap fst];
      intros Hin; apply Hname;
      repeat (apply elem_of_cons in Hin as [-> | Hin]; [compute_done |]);
      by apply elem_of_nil in Hin ].
  all: done.
Qed.

(** ** proxy.py: the constructor *)

Lemma rstrip_no_trailing (c : ascii) (s t : string) :
  Proxy.rstrip c s ≠ t +:+ String c "".
Proof.
  revert t. induction s as [|a s IH]; intros t; simpl.
  - by destruct t.
  - destruct (Ascii.eqb_spec a c) as [->|Hne]; simpl.
    + destruct (String.eqb_spec (Proxy.rstrip c s) "") as [Hr|Hr].
      * by destruct t.
      * destruct t as [|b t]; simpl; [intros [= ?]; done |].
        intros [= _ Ht]. by apply (IH t).
    + destruct t as [|b t]; simpl; [intros [= ? _]; done |].
      intros [= _ Ht]. by apply (IH t).
Qed.

Lemma rstrip_prefix (c : ascii) (s : string) :
  ∃ n, s = Proxy.rstrip c s +:+ replicate_char n c.
Proof.
  induction s as [|a s [n IH]]; simpl.
  - by exists 0%nat.
  - destruct (Ascii.eqb_spec a c) as [->|Hne]; simpl.
    + destruct (String.eqb_spec (Proxy.rstrip c s) "") as [Hr|Hr].
      * exists (S n). rewrite Hr in IH.
        change (String c s = String c (replicate_char n c)). f_equal. exact IH.
      * exists n.
        change (String c s = String c (Proxy.rstrip c s +:+ replicate_char n c)).
        by rewrite <- IH.
    + exists n.
      change (String a s = String a (Proxy.rstrip c s +:+ replicate_char n c)).
      by rewrite <- IH.
Qed.

Lemma rstrip_all (c : ascii) (n : nat) : Proxy.rstrip c (replicate_char n c) = "".
Proof.
  induction n as [|n IH]; [done |]. simpl. by rewrite IH, Ascii.eqb_refl.
Qed.

(** The target URL of a proxy built with a URL is that URL without its
    trailing slashes, so it never ends in a slash; a URL made of slashes
    alone leaves the empty target URL.  Built without a URL, or with the
    empty one, the proxy posts to the Anthropic endpoint for the provider
    [anthropic] and to the OpenAI endpoint for every other provider, known
    or not. *)
Theorem init_target_url (cache : option Cache.t) (provider : string) :
  (∀ url, url ≠ "" →
     Proxy.target_url (Proxy.__init__ cache (Some url) provider) = Proxy.rstrip "/" url
     ∧ (∀ t, Proxy.target_url (Proxy.__init__ cache (Some url) provider) ≠ t +:+ "/")
     ∧ ∃ n, url = Proxy.target_url (Proxy.__init__ cache (Some url) provider)
                  +:+ replicate_char n "/")
  ∧ (∀ n, Proxy.target_url
            (Proxy.__init__ cache (Some (replicate_char (S n) "/")) provider) = "")
  ∧ (∀ target_url, target_url = None ∨ target_url = Some "" →
       upstream_url (Proxy.__init__ cache target_url provider)
       = if String.eqb provider "anthropic"
         then "https://api.anthropic.com/v1/messages"
         else "https://api.openai.com/v1/chat/completions").
Proof.
  split_and!.
  - intros url Hurl. unfold Proxy.__init__. simpl.
    rewrite (proj2 (String.eqb_neq url "")) by done.
    split_and!; [done | apply rstrip_no_trailing | apply rstrip_prefix].
  - intros n. unfold Proxy.__init__.
    change (String.eqb (replicate_char (S n) "/") "") with false.
    cbn [Proxy.target_url]. apply rstrip_all.
  - intros target_url Hnone. unfold upstream_url, Proxy.__init__.
    assert ((match target_url with
             | Some u => if String.eqb u "" then
                 dict_get_default (dict_get_default Proxy.ENDPOINTS provider []) "base_url"
                   "https://api.openai.com/v1"
               else Proxy.rstrip "/" u
             | None =>
                 dict_get_default (dict_get_default Proxy.ENDPOINTS provider []) "base_url"
                   "https://api.openai.com/v1"
             end)
            = dict_get_default (dict_get_default Proxy.ENDPOINTS provider []) "base_url"
                "https://api.openai.com/v1") as Hurl
      by (by destruct Hnone as [-> | ->]).
    cbn [Proxy.target_url Proxy.provider]. rewrite Hurl.
    unfold Proxy.ENDPOINTS, dict_get_default. cbn [dict_get].
    destruct (String.eqb_spec "openai" provider) as [<-|Hopenai]; [done |].
    rewrite (String.eqb_sym "anthropic" provider).
    by destruct (String.eqb provider "anthropic").
Qed.

(** ** proxy.py: the route [/cache/clear] *)

(** The route [/cache/clear] empties the table and sets both counters to
    zero, whatever the cache held, and answers [{"status": "cleared"}]; it
    posts nothing.  The next request that is not streamed finds nothing
    and is posted upstream, and the store has then counted one miss. *)
Theorem cache_clear_route (self : Proxy.t) (e : Proxy.env) (req : Proxy.request)
    (w : Proxy.world) (now : Z) :
  let out := Proxy.cache_clear now w in
  Proxy.finalize out.1 = Proxy.jsonify (JObj [("status", JStr "cleared")])
  ∧ Proxy.db out.2 = Cache.empty
  ∧ Proxy.log out.2 = Proxy.log w
  ∧ (streaming req = false →
     (∃ msgs, Proxy.as_messages (payload_messages req) = Proxy.Returned msgs) →
     posted self req ∈ new_events out.2 (Proxy.serve self e req out.2).2
     ∧ x_cache (Proxy.serve self e req out.2).1 ≠ Some "HIT"
     ∧ Cache.stats (Proxy.db (Proxy.serve self e req out.2).2) = Cache.Counters 0 1).
Proof.
  simpl. split_and!; try done.
  intros Hstream [msgs Hmsgs].
  apply (miss_goes_upstream self e req _ msgs Cache.Absent
           (Cache.Database [] (Cache.Counters 0 1))); try done.
  by left.
Qed.

(** ** hasher.py: what of a message is fingerprinted *)

Lemma normalize_message_same (msg msg' : dict) :
  same_hashed_fields msg msg' →
  Hasher.normalize_message msg = Hasher.normalize_message msg'.
Proof.
  intros (Hrole & Hcontent & Hrest).
  apply Forall_cons in Hrest as [H1 Hrest]. apply Forall_cons in Hrest as [H2 Hrest].
  apply Forall_cons in Hrest as [H3 _].
  unfold Hasher.normalize_message, Hasher.copy_if_present.
  by rewrite Hrole, Hcontent, H1, H2, H3.
Qed.

Lemma normalize_messages_same (ms ms' : list dict) :
  Forall2 same_hashed_fields ms ms' →
  Hasher.normalize_messages ms = Hasher.normalize_messages ms'.
Proof.
  unfold Hasher.normalize_messages.
  induction 1 as [|msg msg' ms ms' Hmsg _ IH]; [done |].
  simpl. by rewrite (normalize_message_same msg msg'), IH.
Qed.

(** The fingerprint of a request reads five fields of each message and
    nothing else: [role] and [content], an absent one counting as the
    empty string, and [name], [tool_calls] and [tool_call_id] when
    present.  A field of any other name in a message, and the order of
    the fields of a message, do not change the fingerprint. *)
Theorem fingerprint_reads_hashed_fields (model : json)
    (temperature max_tokens tools : json) (kwargs : dict) :
  (∀ ms ms', Forall2 same_hashed_fields ms ms' →
     Hasher.hash_request ms model temperature max_tokens tools kwargs
     = Hasher.hash_request ms' model temperature max_tokens tools kwargs)
  ∧ (∀ msg name v, name ∉ hashed_fields → same_hashed_fields msg (dict_set msg name v))
  ∧ (∀ msg msg', NoDup msg.*1 → msg ≡ₚ msg' → same_hashed_fields msg msg')
  ∧ (∀ msg, dict_get msg "role" = None →
       same_hashed_fields msg (dict_set msg "role" (JStr "")))
  ∧ (∀ msg, dict_get msg "content" = None →
       same_hashed_fields msg (dict_set msg "content" (JStr ""))).
Proof.
  split_and!.
  - intros ms ms' Hsame.
    unfold Hasher.hash_request, Hasher.canonical_json, Hasher.request_data.
    by rewrite (normalize_messages_same ms ms').
  - intros msg name v Hname. unfold same_hashed_fields, dict_get_default.
    assert (∀ field, field ∈ hashed_fields →
              dict_get msg field = dict_get (dict_set msg name v) field) as Hget.
    { intros field Hfield. symmetry. apply dict_get_set_ne. by intros ->. }
    rewrite <- !Hget by compute_done.
    split_and!; [done | done |].
    repeat constructor; apply Hget; compute_done.
  - intros msg msg' Hnd Hperm. unfold same_hashed_fields, dict_get_default.
    split_and!;
      [by rewrite (dict_get_perm msg msg' "role")
      | by rewrite (dict_get_perm msg msg' "content") |].
    repeat constructor; by apply dict_get_perm.
  - intros msg Hrole. unfold same_hashed_fields, dict_get_default.
    rewrite dict_get_set_eq, Hrole, !dict_get_set_ne by done.
    split_and!; [done | done |]. repeat constructor; by rewrite dict_get_set_ne.
  - intros msg Hcontent. unfold same_hashed_fields, dict_get_default.
    rewrite dict_get_set_eq, Hcontent, !dict_get_set_ne by done.
    split_and!; [done | done |]. repeat constructor; by rewrite dict_get_set_ne.
Qed.

Lemma normalize_message_idempotent (msg : dict) :
  Hasher.normalize_message (Hasher.normalize_message msg) = Hasher.normalize_message msg.
Proof.
  unfold Hasher.normalize_message, Hasher.copy_if_present.
  generalize (dict_get_default msg "role" (JStr "")).
  generalize (dict_get_default msg "content" (JStr "")).
  intros content role.
  by destruct (dict_get msg "name"), (dict_get msg "tool_calls"),
    (dict_get msg "tool_call_id").
Qed.

(** Normalizing messages that are normalized already changes nothing, so
    a request whose messages went through [normalize_messages] before has
    the fingerprint of the request itself. *)
Theorem normalize_messages_idempotent (ms : list dict) :
  Hasher.normalize_messages (Hasher.normalize_messages ms) = Hasher.normalize_messages ms
  ∧ (∀ model temperature max_tokens tools kwargs,
       Hasher.hash_request (Hasher.normalize_messages ms) model temperature max_tokens
         tools kwargs
       = Hasher.hash_request ms model temperature max_tokens tools kwargs)
  ∧ Forall (fun msg => NoDup msg.*1 ∧ Forall (fun kv => kv.1 ∈ hashed_fields) msg
                       ∧ dict_get msg "role" ≠ None ∧ dict_get msg "content" ≠ None)
      (Hasher.normalize_messages ms).
Proof.
  assert (Hasher.normalize_messages (Hasher.normalize_messages ms)
          = Hasher.normalize_messages ms) as Hidem.
  { unfold Hasher.normalize_messages. rewrite map_map. apply map_ext.
    intros msg. apply normalize_message_idempotent. }
  split_and!; [done | |].
  - intros. unfold Hasher.hash_request, Hasher.canonical_json, Hasher.request_data.
    by rewrite Hidem.
  - unfold Hasher.normalize_messages. apply Forall_forall.
    intros msg' Hin. apply list_elem_of_In, in_map_iff in Hin as (msg & <- & _).
    unfold Hasher.normalize_message, Hasher.copy_if_present.
    generalize (dict_get_default msg "role" (JStr "")).
    generalize (dict_get_default msg "content" (JStr "")).
    intros content role.
    destruct (dict_get msg "name"), (dict_get msg "tool_calls"),
      (dict_get msg "tool_call_id"); simpl;
      (split_and!; [compute_done | | done | done]);
      repeat constructor; compute_done.
Qed.

(** ** hasher.py: what is serialized *)

Lemma dict_set_keys {A} (d : list (string * A)) (k : string) (v : A) :
  (dict_set d k v).*1 = if decide (k ∈ d.*1) then d.*1 else d.*1 ++ [k].
Proof.
  induction d as [|[k' v'] d IH]; [done |].
  cbn [dict_set]. rewrite fmap_cons. cbn [fst].
  destruct (String.eqb_spec k' k) as [->|Hne].
  - rewrite decide_True; [done | by left].
  - rewrite fmap_cons, IH. cbn [fst]. destruct (decide (k ∈ d.*1)) as [Hin|Hin].
    + rewrite decide_True; [done | by right].
    + rewrite decide_False; [done |]. rewrite not_elem_of_cons. split; [congruence | done].
Qed.

Lemma NoDup_dict_set {A} (d : list (string * A)) (k : string) (v : A) :
  NoDup d.*1 → NoDup (dict_set d k v).*1.
Proof.
  intros Hnd. rewrite dict_set_keys. destruct (decide (k ∈ d.*1)); [done |].
  apply NoDup_app. split_and!; [done | | apply NoDup_singleton].
  intros x Hx ->%list_elem_of_singleton. done.
Qed.

Lemma NoDup_add_kwargs (l rd : dict) :
  NoDup rd.*1 → NoDup (fold_left Hasher.add_kwarg l rd).*1.
Proof.
  revert rd. induction l as [|[k v] l IH]; intros rd Hnd; [done |].
  simpl. apply IH. unfold Hasher.add_kwarg. simpl.
  destruct (is_not_none v); [by apply NoDup_dict_set | done].
Qed.

Lemma dict_get_add_kwargs (l rd : dict) (name : string) :
  NoDup l.*1 →
  dict_get (fold_left Hasher.add_kwarg l rd) name
  = match dict_get l name with
    | Some v => if is_not_none v then Some v else dict_get rd name
    | None => dict_get rd name
    end.
Proof.
  revert rd. induction l as [|[k v] l IH]; intros rd Hnd; [done |].
  apply NoDup_cons in Hnd as [Hk Hnd]. simpl. rewrite IH by done.
  unfold Hasher.add_kwarg. simpl.
  destruct (String.eqb_spec k name) as [->|Hne].
  - rewrite (proj2 (dict_get_None l name) Hk).
    destruct (is_not_none v); [apply dict_get_set_eq | done].
  - destruct (is_not_none v); [| done].
    rewrite dict_get_set_ne by done. done.
Qed.

(** The value a key has in the dict built from the keywords. *)
Lemma dict_get_sorted_kwargs (kwargs rd : dict) (name : string) :
  NoDup kwargs.*1 →
  dict_get (fold_left Hasher.add_kwarg (sorted_items kwargs) rd) name
  = match dict_get kwargs name with
    | Some v => if is_not_none v then Some v else dict_get rd name
    | None => dict_get rd name
    end.
Proof.
  intros Hnd. rewrite dict_get_add_kwargs by (by rewrite sorted_items_perm).
  rewrite (dict_get_perm (sorted_items kwargs) kwargs name);
    [done | by rewrite sorted_items_perm | apply sorted_items_perm].
Qed.

(** The dict that [hash_request] serializes has one item per key, and
    these are: the normalized messages; the model; [temperature] and
    [max_tokens] unless they are [None]; [tools] unless it is [None] or
    empty; and each extra keyword whose value is not [None].  Nothing else
    enters the fingerprint. *)
Theorem request_data_items (messages : list dict) (model : json)
    (temperature max_tokens tools : json) (kwargs : dict) :
  NoDup kwargs.*1 →
  Forall (fun kv : string * json =>
            (kv.1 ∉ Hasher.required_params) ∧ (kv.1 ∉ Hasher.named_params)) kwargs →
  let data := Hasher.request_data messages model temperature max_tokens tools kwargs in
  NoDup data.*1
  ∧ dict_get data "messages"
    = Some (JArr (List.map JObj (Hasher.normalize_messages messages)))
  ∧ dict_get data "model" = Some model
  ∧ dict_get data "temperature" = (if is_not_none temperature then Some temperature else None)
  ∧ dict_get data "max_tokens" = (if is_not_none max_tokens then Some max_tokens else None)
  ∧ dict_get data "tools" = (if truthy tools then Some tools else None)
  ∧ (∀ name, name ∉ Hasher.required_params → name ∉ Hasher.named_params →
       dict_get data name
       = match dict_get kwargs name with
         | Some v => if is_not_none v then Some v else None
         | None => None
         end).
Proof.
  intros Hnd Hkeys data.
  assert (∀ name, name ∈ Hasher.required_params ++ Hasher.named_params →
            dict_get kwargs name = None) as Hfresh.
  { intros name Hname. apply dict_get_None. intros [kv [-> Hin]]%list_elem_of_fmap.
    eapply Forall_forall in Hkeys as [H1 H2]; [| exact Hin].
    apply elem_of_app in Hname as [?|?]; done. }
  set (base := [("messages", JArr (List.map JObj (Hasher.normalize_messages messages)));
                ("model", model)]).
  set (base1 := if is_not_none temperature
                then dict_set base "temperature" temperature else base).
  set (base2 := if is_not_none max_tokens
                then dict_set base1 "max_tokens" max_tokens else base1).
  set (base3 := if truthy tools then dict_set base2 "tools" tools else base2).
  assert (data = fold_left Hasher.add_kwarg (sorted_items kwargs) base3) as -> by done.
  assert (NoDup base3.*1) as Hbase.
  { unfold base3, base2, base1.
    destruct (truthy tools), (is_not_none max_tokens), (is_not_none temperature);
      repeat apply NoDup_dict_set; unfold base; simpl; compute_done. }
  split_and!.
  - by apply NoDup_add_kwargs.
  - rewrite dict_get_sorted_kwargs, Hfresh by (done || compute_done).
    unfold base3, base2, base1.
    by destruct (truthy tools), (is_not_none max_tokens), (is_not_none temperature).
  - rewrite dict_get_sorted_kwargs, Hfresh by (done || compute_done).
    unfold base3, base2, base1.
    by destruct (truthy tools), (is_not_none max_tokens), (is_not_none temperature).
  - rewrite dict_get_sorted_kwargs, Hfresh by (done || compute_done).
    unfold base3, base2, base1.
    by destruct (truthy tools), (is_not_none max_tokens), (is_not_none temperature).
  - rewrite dict_get_sorted_kwargs, Hfresh by (done || compute_done).
    unfold base3, base2, base1.
    by destruct (truthy tools), (is_not_none max_tokens), (is_not_none temperature).
  - rewrite dict_get_sorted_kwargs, Hfresh by (done || compute_done).
    unfold base3, base2, base1.
    by destruct (truthy tools), (is_not_none max_tokens), (is_not_none temperature).
  - intros name Hreq Hnamed. rewrite dict_get_sorted_kwargs by done.
    assert (dict_get base3 name = None) as ->.
    { apply dict_get_None. unfold base3, base2, base1.
      intros Hin.
      assert (name ∈ Hasher.required_params ++ Hasher.named_params) as Hname.
      { destruct (truthy tools), (is_not_none max_tokens), (is_not_none temperature);
          simpl in Hin;
          repeat (apply elem_of_cons in Hin as [-> | Hin]; [compute_done |]);
          by apply elem_of_nil in Hin. }
      apply elem_of_app in Hname as [?|?]; done. }
    by destruct (dict_get kwargs name) as [[]|].
Qed.

Lemma request_data_items_witness :
  dict_get
    (Hasher.request_data example_messages (JStr "gpt-x") (JFloat "0.7") JNull (JArr [])
       [("seed", JInt 7); ("user", JNull)]) "seed"
  = Some (JInt 7).
Proof.
  destruct (request_data_items example_messages (JStr "gpt-x") (JFloat "0.7") JNull (JArr [])
              [("seed", JInt 7); ("user", JNull)]) as (_ & _ & _ & _ & _ & _ & H).
  - compute_done.
  - repeat constructor; compute_done.
  - rewrite H; [reflexivity | compute_done | compute_done].
Defined.

(** ** hasher.py: [hash_completion_request] *)

Lemma completion_extras_perm (kw kw' : dict) :
  NoDup kw.*1 → NoDup kw'.*1 → supplied kw ≡ₚ supplied kw' →
  supplied (sorted_items (filter Hasher.is_completion_extra kw))
  = supplied (sorted_items (filter Hasher.is_completion_extra kw')).
Proof.
  intros Hnd Hnd' Hp. apply sorted_unique.
  - apply NoDup_keys_filter. rewrite sorted_items_perm. by apply NoDup_keys_filter.
  - apply filter_sorted, sorted_items_sorted.
  - apply filter_sorted, sorted_items_sorted.
  - unfold supplied in *. rewrite !sorted_items_perm.
    rewrite !(filter_comm _ Hasher.is_completion_extra). by rewrite Hp.
Qed.

Lemma call_hash_completion_request_supplied (prompt model : string) (kw kw' : dict) :
  Hasher.completion_call_ok kw → Hasher.completion_call_ok kw' →
  supplied kw ≡ₚ supplied kw' →
  Hasher.call_hash_completion_request prompt model kw
  = Hasher.call_hash_completion_request prompt model kw'.
Proof.
  intros Hok Hok' Hp. unfold Hasher.call_hash_completion_request.
  rewrite !decide_True by done. f_equal.
  destruct Hok as [Hnd _], Hok' as [Hnd' _].
  unfold Hasher.hash_completion_request, Hasher.completion_data.
  rewrite (kwarg_perm kw kw' "temperature"), (kwarg_perm kw kw' "max_tokens") by done.
  do 3 f_equal.
  rewrite (add_kwarg_supplied (sorted_items (filter Hasher.is_completion_extra kw))).
  rewrite (add_kwarg_supplied (sorted_items (filter Hasher.is_completion_extra kw'))).
  by rewrite (completion_extras_perm kw kw').
Qed.

(** A legal call of [hash_completion_request] returns the same digest
    whatever the order of its keywords, and a keyword with value [None]
    gives the digest of the call without it.  Unlike [hash_request] it has
    no parameter [tools]: a keyword [tools] is one of the extra keywords
    and is serialized also when it is the empty list. *)
Theorem hash_completion_request_keywords (prompt model : string) :
  (∀ kw kw' : dict,
      Hasher.completion_call_ok kw → kw ≡ₚ kw' →
      ∃ digest,
        Hasher.call_hash_completion_request prompt model kw = Some digest
        ∧ Hasher.call_hash_completion_request prompt model kw' = Some digest)
  ∧ (∀ (kw1 kw2 : dict) (name : string),
        Hasher.completion_call_ok (kw1 ++ (name, JNull) :: kw2) →
        ∃ digest,
          Hasher.call_hash_completion_request prompt model (kw1 ++ (name, JNull) :: kw2)
          = Some digest
          ∧ Hasher.call_hash_completion_request prompt model (kw1 ++ kw2) = Some digest)
  ∧ (∀ (kwargs : dict) (temperature max_tokens : json),
        NoDup kwargs.*1 → dict_get kwargs "tools" = Some (JArr []) →
        dict_get (Hasher.completion_data prompt model temperature max_tokens kwargs) "tools"
        = Some (JArr [])).
Proof.
  assert (∀ kw kw', kw ≡ₚ kw' → Hasher.completion_call_ok kw →
                    Hasher.completion_call_ok kw') as Hok_perm.
  { intros kw kw' Hp [Hnd Hall]. split; by rewrite <- Hp. }
  assert (∀ kw1 kw2 kv, Hasher.completion_call_ok (kw1 ++ kv :: kw2) →
                        Hasher.completion_call_ok (kw1 ++ kw2)) as Hok_drop.
  { intros kw1 kw2 kv [Hnd Hall]. split.
    - rewrite fmap_app, fmap_cons in Hnd. rewrite fmap_app.
      apply NoDup_app in Hnd as (H1 & H12 & H2). apply NoDup_cons in H2 as [_ H2].
      apply NoDup_app. split_and!; [done | | done].
      intros x Hx Hx2. apply (H12 x Hx). by right.
    - apply Forall_app in Hall as [H1 H2]. apply Forall_cons in H2 as [_ H2].
      by apply Forall_app. }
  split_and!.
  - intros kw kw' Hok Hp.
    assert (Hasher.completion_call_ok kw') as Hok' by (by eapply Hok_perm).
    rewrite <- (call_hash_completion_request_supplied prompt model kw kw') by
      (try done; unfold supplied; by rewrite Hp).
    unfold Hasher.call_hash_completion_request. rewrite decide_True by done. eauto.
  - intros kw1 kw2 name Hok.
    assert (Hasher.completion_call_ok (kw1 ++ kw2)) as Hok' by (by eapply Hok_drop).
    rewrite <- (call_hash_completion_request_supplied prompt model
                  (kw1 ++ (name, JNull) :: kw2) (kw1 ++ kw2)); try done.
    + unfold Hasher.call_hash_completion_request. rewrite decide_True by done. eauto.
    + unfold supplied. rewrite !filter_app, filter_cons_False; [done |]. simpl. tauto.
  - intros kwargs temperature max_tokens Hnd Htools.
    unfold Hasher.completion_data. rewrite dict_get_sorted_kwargs by done.
    by rewrite Htools.
Qed.

(** ** cache.py: a lookup protects an entry from eviction *)

(** The eviction is by last access, not by insertion: in a store with
    [max_entries = 2] and no TTL, after inserting A and B, a lookup of A
    at a later clock reading makes B the entry evicted by the insertion of
    C.  A stays, with the hit counted. *)
Theorem get_protects_from_eviction (self : Cache.t) (kA kB kC : string)
    (vA vB vC : json) (mA mB mC : string) (tA tB tG tC : Z) :
  Cache.max_entries self = Some 2 → Cache.ttl_seconds self = None →
  kA ≠ kB → kA ≠ kC → kB ≠ kC → tA ≤ tB → tB < tG → tG ≤ tC →
  Cache.cache
    (run self
       [(tA, CallSet kA vA mA None); (tB, CallSet kB vB mB None); (tG, CallGet kA);
        (tC, CallSet kC vC mC None)] Cache.empty)
  = [Cache.Row kA (Json.dumps false ", " ": " vA) mA tA None 1 tG;
     fresh_row self kC vC mC None tC].
Proof.
  intros Hmax Httl HAB HAC HBC Hab Hbg Hgc. unfold run. simpl. unfold step. simpl.
  set (rA := fresh_row self kA vA mA None tA).
  set (rB := fresh_row self kB vB mB None tB).
  set (rC := fresh_row self kC vC mC None tC).
  set (db1 := Cache.set self Cache.empty kA vA mA None tA).
  set (db2 := Cache.set self db1 kB vB mB None tB).
  assert (Cache.cache db1 = [rA]) as H1.
  { unfold db1. by rewrite (set_cache_under _ _ _ _ _ _ _ 2) by (done || simpl; lia). }
  assert (Cache.insert_or_replace [rA] rB = [rA; rB]) as HrB.
  { unfold Cache.insert_or_replace, Cache.delete_key.
    by rewrite filter_cons_True by done. }
  assert (Cache.cache db2 = [rA; rB]) as H2.
  { unfold db2. rewrite (set_cache_under _ _ _ _ _ _ _ 2); rewrite ?H1; fold rB;
      rewrite ?HrB; (done || simpl; lia). }
  set (rA' := Cache.Row kA (Json.dumps false ", " ": " vA) mA tA None 1 tG).
  assert (Cache.cache (Cache.get db2 kA tG).2 = [rA'; rB]) as H3.
  { unfold Cache.get. rewrite H2. unfold Cache.select. simpl.
    rewrite String.eqb_refl. unfold Cache.expired. simpl.
    unfold effective_ttl. rewrite Httl. simpl.
    assert (List.map (Cache.touch tG kA) [rA; rB] = [rA'; rB]) as Htouch.
    { simpl. unfold Cache.touch. simpl. rewrite String.eqb_refl.
      rewrite (proj2 (String.eqb_neq kB kA)) by done.
      unfold rA', effective_ttl. by rewrite Httl. }
    simpl in Htouch.
    destruct (Json.loads (Json.dumps false ", " ": " vA)); simpl; by rewrite Htouch. }
  set (db3 := (Cache.get db2 kA tG).2) in *.
  assert (Cache.insert_or_replace [rA'; rB] rC = [rA'; rB; rC]) as HrC.
  { unfold Cache.insert_or_replace, Cache.delete_key.
    by rewrite !filter_cons_True by done. }
  rewrite (set_cache_over _ _ _ _ _ _ _ 2); rewrite ?H3; fold rC; rewrite ?HrC;
    [| done | done | simpl; lia].
  assert (Cache.order_by_last_accessed [rA'; rB; rC] = [rB; rA'; rC]) as ->.
  { unfold Cache.order_by_last_accessed. simpl.
    rewrite (proj2 (Z.leb_le tB tC)) by lia. simpl.
    rewrite (proj2 (Z.leb_gt tG tB)) by lia.
    by rewrite (proj2 (Z.leb_le tG tC)) by lia. }
  simpl. unfold Cache.delete_keys.
  rewrite filter_cons_True
    by (simpl; intros [?|[]%elem_of_nil]%elem_of_cons; congruence).
  rewrite filter_cons_False by (simpl; intros Hn; apply Hn; by left).
  rewrite !filter_cons_True
    by (simpl; intros [?|[]%elem_of_nil]%elem_of_cons; congruence).
  done.
Qed.

Lemma get_protects_from_eviction_witness :
  Cache.key <$>
    Cache.cache
      (run (Cache.Config None (Some 2))
         [(10, CallSet "A" example_response "gpt-x" None);
          (11, CallSet "B" example_response "gpt-x" None); (12, CallGet "A");
          (13, CallSet "C" example_response "gpt-x" None)] Cache.empty)
  = ["A"; "C"].
Proof.
  rewrite (get_protects_from_eviction (Cache.Config None (Some 2)) "A" "B" "C");
    (done || lia).
Defined.

(** ** json: what is written is read back *)

Lemma ascii_eqb_N (c d : ascii) : Ascii.eqb c d = (N_of_ascii c =? N_of_ascii d)%N.
Proof.
  destruct (Ascii.eqb_spec c d) as [->|Hne].
  - by rewrite N.eqb_refl.
  - symmetry. apply N.eqb_neq. intros Heq. apply Hne.
    by rewrite <- (ascii_N_embedding c), <- (ascii_N_embedding d), Heq.
Qed.

Lemma ascii_of_code (c : ascii) (n : N) : N_of_ascii c = n → c = ascii_of_N n.
Proof. intros <-. by rewrite ascii_N_embedding. Qed.

Lemma hex_value_hex_digit (d : N) :
  (d < 16)%N → Json.hex_value (Json.hex_digit d) = Some d.
Proof.
  intros Hd. rewrite <- (N2Nat.id d).
  assert (N.to_nat d < 16)%nat as Hn by lia. revert Hn.
  generalize (N.to_nat d). intros n Hn.
  do 16 (destruct n as [|n]; [reflexivity |]). lia.
Qed.

Lemma scan_string_unicode (h3 h4 : ascii) (c d : N) (s : string) :
  Json.hex_value h3 = Some c → Json.hex_value h4 = Some d →
  Json.scan_string
    (String Json.backslash (String "u" (String "0" (String "0" (String h3 (String h4 s))))))
  = match Json.scan_string s with
    | Some (body, rest) => Some (String (ascii_of_N (16 * c + d)) body, rest)
    | None => None
    end.
Proof.
  intros H3 H4.
  change (Json.scan_string
            (String Json.backslash
               (String "u" (String "0" (String "0" (String h3 (String h4 s)))))))
    with (a ← Json.hex_value "0"; b ← Json.hex_value "0";
          c ← Json.hex_value h3; d ← Json.hex_value h4;
          if ((a =? 0) && (b =? 0))%N then
            '(body, rest) ← Json.scan_string s;
            Some (String (ascii_of_N (16 * c + d)) body, rest)
          else None).
  rewrite H3, H4. simpl. by destruct (Json.scan_string s) as [[body rest]|].
Qed.

Lemma scan_string_plain_char (c : ascii) (s : string) :
  N_of_ascii c ≠ 34%N → N_of_ascii c ≠ 92%N → (32 ≤ N_of_ascii c)%N →
  Json.scan_string (String c s)
  = match Json.scan_string s with
    | Some (body, rest) => Some (String c body, rest)
    | None => None
    end.
Proof.
  intros H34 H92 H32.
  change (Json.scan_string (String c s))
    with (if Ascii.eqb c Json.dquote then Some ("", s)
          else if Ascii.eqb c Json.backslash then
            match s with
            | String e s'' =>
                if Ascii.eqb e "u" then
                  match s'' with
                  | String h1 (String h2 (String h3 (String h4 r))) =>
                      a ← Json.hex_value h1; b ← Json.hex_value h2;
                      c ← Json.hex_value h3; d ← Json.hex_value h4;
                      if ((a =? 0) && (b =? 0))%N then
                        '(body, rest) ← Json.scan_string r;
                        Some (String (ascii_of_N (16 * c + d)) body, rest)
                      else None
                  | _ => None
                  end
                else
                  c' ← Json.unescape e;
                  '(body, rest) ← Json.scan_string s'';
                  Some (String c' body, rest)
            | EmptyString => None
            end
          else if (N_of_ascii c <? 32)%N then None
          else '(body, rest) ← Json.scan_string s; Some (String c body, rest)).
  rewrite !ascii_eqb_N.
  change (N_of_ascii Json.dquote) with 34%N. change (N_of_ascii Json.backslash) with 92%N.
  rewrite (proj2 (N.eqb_neq _ _) H34), (proj2 (N.eqb_neq _ _) H92).
  rewrite (proj2 (N.ltb_ge _ _) H32).
  by destruct (Json.scan_string s) as [[body rest]|].
Qed.

Lemma scan_string_short (e c' : ascii) (s : string) :
  Ascii.eqb e "u" = false → Json.unescape e = Some c' →
  Json.scan_string (String Json.backslash (String e s))
  = match Json.scan_string s with
    | Some (body, rest) => Some (String c' body, rest)
    | None => None
    end.
Proof.
  intros Hu He.
  change (Json.scan_string (String Json.backslash (String e s)))
    with (if Ascii.eqb e "u" then
            match s with
            | String h1 (String h2 (String h3 (String h4 r))) =>
                a ← Json.hex_value h1; b ← Json.hex_value h2;
                c ← Json.hex_value h3; d ← Json.hex_value h4;
                if ((a =? 0) && (b =? 0))%N then
                  '(body, rest) ← Json.scan_string r;
                  Some (String (ascii_of_N (16 * c + d)) body, rest)
                else None
            | _ => None
            end
          else
            c' ← Json.unescape e;
            '(body, rest) ← Json.scan_string s;
            Some (String c' body, rest)).
  rewrite Hu, He. simpl. by destruct (Json.scan_string s) as [[body rest]|].
Qed.

Lemma scan_string_escape_char (c : ascii) (s : string) :
  Json.scan_string (Json.escape_char c +:+ s)
  = match Json.scan_string s with
    | Some (body, rest) => Some (String c body, rest)
    | None => None
    end.
Proof.
  unfold Json.escape_char.
  pose proof (N_ascii_bounded c) as Hbound.
  destruct (N.eqb_spec (N_of_ascii c) 34) as [->%ascii_of_code|H34];
    [by apply scan_string_short |].
  destruct (N.eqb_spec (N_of_ascii c) 92) as [->%ascii_of_code|H92];
    [by apply scan_string_short |].
  destruct (N.eqb_spec (N_of_ascii c) 8) as [->%ascii_of_code|H8];
    [by apply scan_string_short |].
  destruct (N.eqb_spec (N_of_ascii c) 12) as [->%ascii_of_code|H12];
    [by apply scan_string_short |].
  destruct (N.eqb_spec (N_of_ascii c) 10) as [->%ascii_of_code|H10];
    [by apply scan_string_short |].
  destruct (N.eqb_spec (N_of_ascii c) 13) as [->%ascii_of_code|H13];
    [by apply scan_string_short |].
  destruct (N.eqb_spec (N_of_ascii c) 9) as [->%ascii_of_code|H9];
    [by apply scan_string_short |].
  destruct ((32 <=? N_of_ascii c) && (N_of_ascii c <=? 126))%N eqn:Hrange.
  - apply andb_true_iff in Hrange as [H32%N.leb_le _].
    by apply scan_string_plain_char.
  - change (String Json.backslash
              (String "u" (String "0" (String "0"
                 (String (Json.hex_digit (N_of_ascii c / 16))
                    (String (Json.hex_digit (N_of_ascii c mod 16)) ""))))) +:+ s)
      with (String Json.backslash
              (String "u" (String "0" (String "0"
                 (String (Json.hex_digit (N_of_ascii c / 16))
                    (String (Json.hex_digit (N_of_ascii c mod 16)) s)))))).
    rewrite (scan_string_unicode _ _ (N_of_ascii c / 16) (N_of_ascii c mod 16)).
    + rewrite <- N.div_mod by done. by rewrite ascii_N_embedding.
    + apply hex_value_hex_digit. apply N.Div0.div_lt_upper_bound. lia.
    + apply hex_value_hex_digit. by apply N.mod_lt.
Qed.

Lemma string_app_assoc (a b c : string) : (a +:+ b) +:+ c = a +:+ (b +:+ c).
Proof.
  induction a as [|x a IH]; [done |].
  change ((String x a +:+ b) +:+ c) with (String x ((a +:+ b) +:+ c)).
  change (String x a +:+ (b +:+ c)) with (String x (a +:+ (b +:+ c))).
  by rewrite IH.
Qed.

Lemma scan_string_escape (s rest : string) :
  Json.scan_string (Json.escape s +:+ String Json.dquote rest) = Some (s, rest).
Proof.
  induction s as [|c s IH]; [done |].
  cbn [Json.escape]. rewrite string_app_assoc, scan_string_escape_char. by rewrite IH.
Qed.

Lemma app_String (c : ascii) (a b : string) : String c a +:+ b = String c (a +:+ b).
Proof. reflexivity. Qed.

Lemma span_digits_uint (d : Decimal.uint) (rest : string) :
  after_value rest →
  Json.span_digits (NilEmpty.string_of_uint d +:+ rest)
  = (NilEmpty.string_of_uint d, rest).
Proof.
  intros Hrest. induction d as [|d IH|d IH|d IH|d IH|d IH|d IH|d IH|d IH|d IH|d IH];
    cbn [NilEmpty.string_of_uint]; rewrite ?app_String;
    try (cbn [Json.span_digits]; rewrite IH; reflexivity).
  change ("" +:+ rest) with rest.
  destruct rest as [|c rest]; [done |].
  destruct Hrest as [-> | [-> | ->]]; reflexivity.
Qed.

(** The decimal digits of a positive number do not start with a zero. *)
Lemma to_uint_head (p : positive) :
  ∃ c s, NilEmpty.string_of_uint (Pos.to_uint p) = String c s
         ∧ Json.is_digit c = true ∧ Ascii.eqb c "0" = false.
Proof.
  assert (Pos.to_uint p = Decimal.unorm (Pos.to_uint p)) as Hnorm.
  { rewrite <- (DecimalPos.Unsigned.to_of (Pos.to_uint p)).
    by rewrite DecimalPos.Unsigned.of_to. }
  pose proof (DecimalPos.Unsigned.to_uint_nonzero p) as Hnz.
  pose proof (DecimalPos.Unsigned.to_uint_nonnil p) as Hnn.
  destruct (Pos.to_uint p) as [|d|d|d|d|d|d|d|d|d|d]; try done;
    try (eexists _, _; split; [reflexivity | split; reflexivity]).
  exfalso. rewrite DecimalFacts.unorm_D0 in Hnorm.
  assert (d ≠ Decimal.Nil) as Hd by (intros ->; by apply Hnz).
  pose proof (DecimalFacts.nb_digits_unorm d Hd) as Hle.
  rewrite <- Hnorm in Hle. simpl in Hle. lia.
Qed.

Lemma is_digit_code (c : ascii) :
  Json.is_digit c = true → (48 ≤ N_of_ascii c ≤ 57)%N.
Proof.
  unfold Json.is_digit. intros [H1%N.leb_le H2%N.leb_le]%andb_true_iff. lia.
Qed.

Lemma after_value_code (c : ascii) (rest : string) :
  after_value (String c rest) →
  N_of_ascii c = 44%N ∨ N_of_ascii c = 93%N ∨ N_of_ascii c = 125%N.
Proof. intros [-> | [-> | ->]]; auto. Qed.

Lemma scan_frac_after (rest : string) :
  after_value rest → Json.scan_frac rest = ("", rest).
Proof.
  destruct rest as [|c rest]; [done |]. by intros [-> | [-> | ->]].
Qed.

Lemma scan_exp_after (rest : string) :
  after_value rest → Json.scan_exp rest = ("", rest).
Proof.
  destruct rest as [|c rest]; [done |]. by intros [-> | [-> | ->]].
Qed.

Lemma scan_integer_digits (d : Decimal.uint) (c : ascii) (s rest : string) :
  NilEmpty.string_of_uint d = String c s →
  Json.is_digit c = true → Ascii.eqb c "0" = false → after_value rest →
  Json.scan_integer (NilEmpty.string_of_uint d +:+ rest)
  = Some (NilEmpty.string_of_uint d, rest)
  ∧ Json.scan_integer (String "-" (NilEmpty.string_of_uint d +:+ rest))
    = Some (String "-" (NilEmpty.string_of_uint d), rest).
Proof.
  intros Hd Hdigit Hzero Hrest.
  pose proof (span_digits_uint d rest Hrest) as Hspan.
  pose proof (is_digit_code c Hdigit) as Hcode.
  assert (Ascii.eqb c "-" = false) as Hminus.
  { rewrite ascii_eqb_N. apply N.eqb_neq. change (N_of_ascii "-") with 45%N. lia. }
  rewrite Hd in *. rewrite app_String in *. unfold Json.scan_integer.
  rewrite Hminus. cbn [Ascii.eqb Bool.eqb]. rewrite Hzero, Hdigit, Hspan. done.
Qed.

Lemma scan_number_int (n : Z) (rest : string) :
  after_value rest →
  Json.scan_number (Json.encode_int n +:+ rest) = Some (JInt n, rest).
Proof.
  intros Hrest. unfold Json.encode_int, Json.scan_number.
  pose proof (DecimalZ.of_to n) as Hback.
  destruct n as [|p|p]; cbn [Z.to_int] in *.
  - change (NilZero.string_of_int (Decimal.Pos Decimal.zero) +:+ rest)
      with (String "0" rest).
    unfold Json.scan_integer. cbn [Ascii.eqb Bool.eqb]. simpl.
    by rewrite scan_frac_after, scan_exp_after.
  - destruct (to_uint_head p) as (c & s & Hd & Hdigit & Hzero).
    destruct (scan_integer_digits _ c s rest Hd Hdigit Hzero Hrest) as [Hscan _].
    pose proof (DecimalPos.Unsigned.to_uint_nonnil p) as Hnn.
    assert (NilZero.string_of_int (Decimal.Pos (Pos.to_uint p))
            = NilEmpty.string_of_uint (Pos.to_uint p)) as Hstr.
    { simpl. unfold NilZero.string_of_uint. by destruct (Pos.to_uint p). }
    rewrite Hstr, Hscan. simpl.
    rewrite scan_frac_after, scan_exp_after by done. simpl.
    rewrite <- Hstr, NilZero.isi by congruence. simpl. simpl in Hback. by rewrite Hback.
  - destruct (to_uint_head p) as (c & s & Hd & Hdigit & Hzero).
    destruct (scan_integer_digits _ c s rest Hd Hdigit Hzero Hrest) as [_ Hscan].
    pose proof (DecimalPos.Unsigned.to_uint_nonnil p) as Hnn.
    assert (NilZero.string_of_int (Decimal.Neg (Pos.to_uint p))
            = String "-" (NilEmpty.string_of_uint (Pos.to_uint p))) as Hstr.
    { simpl. unfold NilZero.string_of_uint. by destruct (Pos.to_uint p). }
    rewrite Hstr, app_String, Hscan. simpl.
    rewrite scan_frac_after, scan_exp_after by done. simpl.
    replace (NilEmpty.string_of_uint (Pos.to_uint p))
      with (NilZero.string_of_uint (Pos.to_uint p)) by (by destruct (Pos.to_uint p)).
    rewrite NilZero.usu by done. simpl. simpl in Hback. by rewrite Hback.
Qed.

Lemma json_nested_ind (P : json → Prop) :
  P JNull → (∀ b, P (JBool b)) → (∀ n, P (JInt n)) → (∀ r, P (JFloat r)) →
  (∀ s, P (JStr s)) →
  (∀ items, Forall P items → P (JArr items)) →
  (∀ fields : list (string * json), Forall (fun kv => P kv.2) fields → P (JObj fields)) →
  ∀ v, P v.
Proof.
  intros Hnull Hbool Hint Hfloat Hstr Harr Hobj.
  fix IH 1.
  intros [| b | n | r | s | items | fields];
    [exact Hnull | apply Hbool | apply Hint | apply Hfloat | apply Hstr | |].
  - apply Harr. revert items. fix IHitems 1.
    intros [|x items]; constructor; [apply IH | apply IHitems].
  - apply Hobj. revert fields. fix IHfields 1.
    intros [|[k x] fields]; constructor; [apply IH | apply IHfields].
Qed.

Lemma plain_arr (items : list json) : plain (JArr items) ↔ Forall plain items.
Proof.
  simpl. induction items as [|x items IH]; [by split; [constructor |] |].
  rewrite Forall_cons, <- IH. done.
Qed.

Lemma plain_obj (fields : list (string * json)) :
  plain (JObj fields) ↔ NoDup fields.*1 ∧ Forall (fun kv => plain kv.2) fields.
Proof.
  simpl. apply and_iff_compat_l.
  induction fields as [|kv fields IH]; [by split; [constructor |] |].
  rewrite Forall_cons, <- IH. done.
Qed.

Lemma encode_int_head (n : Z) :
  ∃ c s, Json.encode_int n = String c s ∧ (Json.is_digit c = true ∨ c = "-"%char).
Proof.
  unfold Json.encode_int. destruct n as [|p|p]; simpl.
  - eexists _, _. split; [reflexivity | by left].
  - destruct (to_uint_head p) as (c & s & Hd & Hdigit & _).
    exists c, s. split; [| by left].
    rewrite <- Hd. unfold NilZero.string_of_uint.
    pose proof (DecimalPos.Unsigned.to_uint_nonnil p). by destruct (Pos.to_uint p).
  - eexists _, _. split; [reflexivity | by right].
Qed.

Lemma strip_prefix_cons (a b : ascii) (p s : string) :
  Json.strip_prefix (String a p) (String b s)
  = if Ascii.eqb a b then Json.strip_prefix p s else None.
Proof. reflexivity. Qed.

Lemma scan_value_number (fuel : nat) (c : ascii) (s : string) (res : json * string) :
  Json.is_digit c = true ∨ c = "-"%char →
  Json.scan_number (String c s) = Some res →
  Json.scan_value (S fuel) (String c s) = Some res.
Proof.
  intros Hc Hnum.
  assert (N_of_ascii c = 45 ∨ 48 ≤ N_of_ascii c ≤ 57)%N as Hcode.
  { destruct Hc as [Hd | ->]; [right; by apply is_digit_code | by left]. }
  assert (∀ (d : ascii) (k : N), N_of_ascii d = k → k ≠ 45%N → ¬ (48 ≤ k ≤ 57)%N →
                                 Ascii.eqb c d = false ∧ Ascii.eqb d c = false) as Hne.
  { intros d k <- H1 H2. rewrite !ascii_eqb_N. split; apply N.eqb_neq; lia. }
  change (Json.scan_value (S fuel) (String c s))
    with (if Ascii.eqb c Json.dquote then
            '(str, rest) ← Json.scan_string s; Some (JStr str, rest)
          else if Ascii.eqb c "[" then
            match Json.skip_ws s with
            | String c1 r1 =>
                if Ascii.eqb c1 "]" then Some (JArr [], r1)
                else '(items, rest) ← Json.scan_elements fuel (String c1 r1);
                     Some (JArr items, rest)
            | EmptyString => None
            end
          else if Ascii.eqb c "{" then
            match Json.skip_ws s with
            | String c1 r1 =>
                if Ascii.eqb c1 "}" then Some (JObj [], r1)
                else '(fields, rest) ← Json.scan_members fuel (String c1 r1);
                     Some (JObj (fold_left (fun d kv => dict_set d kv.1 kv.2) fields []), rest)
            | EmptyString => None
            end
          else Json.scan_atom (String c s)).
  rewrite (proj1 (Hne Json.dquote 34%N eq_refl ltac:(lia) ltac:(lia))).
  rewrite (proj1 (Hne "["%char 91%N eq_refl ltac:(lia) ltac:(lia))).
  rewrite (proj1 (Hne "{"%char 123%N eq_refl ltac:(lia) ltac:(lia))).
  unfold Json.scan_atom. rewrite !strip_prefix_cons.
  rewrite (proj2 (Hne "n"%char 110%N eq_refl ltac:(lia) ltac:(lia))).
  rewrite (proj2 (Hne "t"%char 116%N eq_refl ltac:(lia) ltac:(lia))).
  rewrite (proj2 (Hne "f"%char 102%N eq_refl ltac:(lia) ltac:(lia))).
  by rewrite Hnum.
Qed.

Lemma app_empty (s : string) : "" +:+ s = s.
Proof. reflexivity. Qed.

Lemma dumps_head (v : json) :
  plain v →
  ∃ c s, Json.dumps false ", " ": " v = String c s
         ∧ Json.is_ws c = false ∧ Ascii.eqb c "]" = false ∧ Ascii.eqb c "}" = false.
Proof.
  destruct v as [| [] | n | r | s | items | fields]; intros Hplain; try done;
    try (eexists _, _; split; [reflexivity | by split_and!]).
  destruct (encode_int_head n) as (c & s & Hn & Hc).
  exists c, s. split; [done |].
  assert (N_of_ascii c = 45 ∨ 48 ≤ N_of_ascii c ≤ 57)%N as Hcode.
  { destruct Hc as [Hd | ->]; [right; by apply is_digit_code | by left]. }
  unfold Json.is_ws. rewrite !ascii_eqb_N.
  change (N_of_ascii "]") with 93%N. change (N_of_ascii "}") with 125%N.
  split_and!; [| apply N.eqb_neq; lia | apply N.eqb_neq; lia].
  rewrite !orb_false_iff. split_and!; apply N.eqb_neq; lia.
Qed.

Lemma skip_ws_dumps (v : json) (rest : string) :
  plain v →
  Json.skip_ws (Json.dumps false ", " ": " v +:+ rest)
  = Json.dumps false ", " ": " v +:+ rest.
Proof.
  intros (c & s & -> & Hws & _)%dumps_head. rewrite app_String.
  cbn [Json.skip_ws]. by rewrite Hws.
Qed.

Lemma scan_depth_arr (items : list json) :
  scan_depth (JArr items) = S (depth_sum items).
Proof.
  reflexivity.
Qed.

Lemma scan_depth_obj (fields : list (string * json)) :
  scan_depth (JObj fields) = S (depth_sum fields.*2).
Proof.
  induction fields as [|kv fields IH]; [done |].
  simpl in *. injection IH as IH. by rewrite IH.
Qed.

Lemma concat_cons2 (sep a b : string) (l : list string) :
  String.concat sep (a :: b :: l) = a +:+ sep +:+ String.concat sep (b :: l).
Proof. reflexivity. Qed.

Lemma skip_ws_concat (y : json) (items : list json) (rest : string) :
  plain y →
  Json.skip_ws
    (String.concat ", " (List.map (Json.dumps false ", " ": ") (y :: items)) +:+ rest)
  = String.concat ", " (List.map (Json.dumps false ", " ": ") (y :: items)) +:+ rest.
Proof.
  intros Hy. destruct items as [|z items]; cbn [List.map].
  - cbn [String.concat]. by apply skip_ws_dumps.
  - rewrite concat_cons2, !string_app_assoc. by apply skip_ws_dumps.
Qed.

Lemma scan_elements_dumps (items : list json) :
  items ≠ [] →
  Forall (fun v => plain v
                   ∧ ∀ fuel rest, (scan_depth v ≤ fuel)%nat → after_value rest →
                       Json.scan_value fuel (Json.dumps false ", " ": " v +:+ rest)
                       = Some (v, rest)) items →
  ∀ fuel rest, (depth_sum items ≤ fuel)%nat →
    Json.scan_elements fuel
      (String.concat ", " (List.map (Json.dumps false ", " ": ") items)
       +:+ String "]" rest)
    = Some (items, rest).
Proof.
  induction items as [|x items IH]; [done |].
  intros _ [[Hplain Hx] Hall]%Forall_cons fuel rest Hfuel.
  simpl in Hfuel. destruct fuel as [|fuel]; [lia |].
  change (Json.scan_elements (S fuel) ?s)
    with ('(v, r) ← Json.scan_value fuel s;
          match Json.skip_ws r with
          | String c r1 =>
              if Ascii.eqb c "," then
                '(vs, rest) ← Json.scan_elements fuel (Json.skip_ws r1); Some (v :: vs, rest)
              else if Ascii.eqb c "]" then Some ([v], r1)
              else None
          | EmptyString => None
          end).
  destruct items as [|y items].
  - cbn [List.map String.concat]. rewrite Hx by (lia || by right; left).
    reflexivity.
  - cbn [List.map]. rewrite concat_cons2, !string_app_assoc.
    rewrite Hx by (lia || by left).
    rewrite !app_String, app_empty.
    cbn [mbind option_bind].
    change (Json.skip_ws (String "," ?r)) with (String "," r).
    cbn [Ascii.eqb Bool.eqb].
    change (Json.skip_ws (String " " ?r)) with (Json.skip_ws r).
    apply Forall_cons in Hall as Hall'. destruct Hall' as [[Hy _] _].
    change (Json.dumps false ", " ": " y :: map (Json.dumps false ", " ": ") items)
      with (map (Json.dumps false ", " ": ") (y :: items)).
    rewrite skip_ws_concat by done.
    rewrite IH; [done | done | done | lia].
Qed.

Ltac norm_text :=
  repeat (rewrite string_app_assoc || rewrite app_String || rewrite app_empty).

Lemma member_texts_cons (k : string) (x : json) (fields : list (string * json)) :
  member_texts ((k, x) :: fields)
  = (String Json.dquote (Json.escape k +:+ String Json.dquote "")
     +:+ ": " +:+ Json.dumps false ", " ": " x) :: member_texts fields.
Proof. reflexivity. Qed.

Lemma skip_ws_members (kv : string * json) (fields : list (string * json))
    (rest : string) :
  Json.skip_ws (String.concat ", " (member_texts (kv :: fields)) +:+ rest)
  = String.concat ", " (member_texts (kv :: fields)) +:+ rest.
Proof.
  destruct kv as [k x]. rewrite member_texts_cons.
  destruct fields as [|[k' x'] fields].
  - cbn [member_texts List.map String.concat]. norm_text. reflexivity.
  - rewrite member_texts_cons, concat_cons2. norm_text. reflexivity.
Qed.

Lemma scan_members_dumps (fields : list (string * json)) :
  fields ≠ [] →
  Forall (fun kv : string * json =>
            plain kv.2
            ∧ ∀ fuel rest, (scan_depth kv.2 ≤ fuel)%nat → after_value rest →
                Json.scan_value fuel (Json.dumps false ", " ": " kv.2 +:+ rest)
                = Some (kv.2, rest)) fields →
  ∀ fuel rest, (depth_sum fields.*2 ≤ fuel)%nat →
    Json.scan_members fuel
      (String.concat ", " (member_texts fields) +:+ String "}" rest)
    = Some (fields, rest).
Proof.
  induction fields as [|[k x] fields IH]; [done |].
  intros _ [[Hplain Hx] Hall]%Forall_cons fuel rest Hfuel.
  simpl in Hfuel, Hplain, Hx. destruct fuel as [|fuel]; [lia |].
  assert (∀ r : string,
            after_value r →
            Json.scan_members (S fuel)
              (String Json.dquote (Json.escape k +:+ String Json.dquote
                 (String ":" (String " " (Json.dumps false ", " ": " x +:+ r)))))
            = match Json.skip_ws r with
              | String c2 r3 =>
                  if Ascii.eqb c2 "," then
                    '(kvs, rest) ← Json.scan_members fuel (Json.skip_ws r3);
                    Some ((k, x) :: kvs, rest)
                  else if Ascii.eqb c2 "}" then Some ([(k, x)], r3)
                  else None
              | EmptyString => None
              end) as Hstep.
  { intros r Hafter.
    change (Json.scan_members (S fuel) (String Json.dquote ?s'))
      with ('(k, r) ← Json.scan_string s';
            match Json.skip_ws r with
            | String c r1 =>
                if Ascii.eqb c ":" then
                  '(v, r2) ← Json.scan_value fuel (Json.skip_ws r1);
                  match Json.skip_ws r2 with
                  | String c2 r3 =>
                      if Ascii.eqb c2 "," then
                        '(kvs, rest) ← Json.scan_members fuel (Json.skip_ws r3);
                        Some ((k, v) :: kvs, rest)
                      else if Ascii.eqb c2 "}" then Some ([(k, v)], r3)
                      else None
                  | EmptyString => None
                  end
                else None
            | EmptyString => None
            end).
    rewrite scan_string_escape. cbn [mbind option_bind].
    change (Json.skip_ws (String ":" ?r)) with (String ":" r).
    cbn [Ascii.eqb Bool.eqb].
    change (Json.skip_ws (String " " ?r)) with (Json.skip_ws r).
    rewrite skip_ws_dumps by done.
    by rewrite Hx by (lia || done). }
  rewrite member_texts_cons. destruct fields as [|[k' x'] fields].
  - cbn [member_texts List.map String.concat]. norm_text.
    rewrite Hstep by (by right; right). reflexivity.
  - rewrite (member_texts_cons k' x'), concat_cons2, <- (member_texts_cons k' x').
    norm_text. rewrite Hstep by (by left).
    change (Json.skip_ws (String "," ?r)) with (String "," r).
    cbn [Ascii.eqb Bool.eqb].
    change (Json.skip_ws (String " " ?r)) with (Json.skip_ws r).
    rewrite skip_ws_members.
    rewrite IH; [done | done | done | simpl in *; lia].
Qed.

Lemma dict_set_fresh {A} (d : list (string * A)) (k : string) (v : A) :
  k ∉ d.*1 → dict_set d k v = d ++ [(k, v)].
Proof.
  induction d as [|[k' v'] d IH]; [done |].
  intros [Hne Hk]%not_elem_of_cons. cbn [dict_set].
  rewrite (proj2 (String.eqb_neq k' k)) by done. by rewrite IH.
Qed.

Lemma fold_dict_set {A} (fields acc : list (string * A)) :
  NoDup (acc ++ fields).*1 →
  fold_left (fun d kv => dict_set d kv.1 kv.2) fields acc = acc ++ fields.
Proof.
  revert acc. induction fields as [|[k v] fields IH]; intros acc Hnd.
  - by rewrite app_nil_r.
  - cbn [fold_left fst snd]. rewrite dict_set_fresh.
    + rewrite IH; rewrite <- app_assoc; done.
    + rewrite fmap_app in Hnd. apply NoDup_app in Hnd as (_ & Hdisj & _).
      intros Hin. apply (Hdisj k Hin). by left.
Qed.

Lemma concat_head (x : json) (items : list json) (rest : string) :
  plain x →
  ∃ c r,
    String.concat ", " (List.map (Json.dumps false ", " ": ") (x :: items)) +:+ rest
    = String c r
    ∧ Ascii.eqb c "]" = false.
Proof.
  intros (c & s & Hx & _ & Hc & _)%dumps_head.
  destruct items as [|y items]; cbn [List.map].
  - cbn [String.concat]. rewrite Hx, app_String. eauto.
  - rewrite concat_cons2, Hx, !app_String. eauto.
Qed.

Lemma scan_value_dumps (v : json) :
  plain v →
  ∀ fuel rest, (scan_depth v ≤ fuel)%nat → after_value rest →
    Json.scan_value fuel (Json.dumps false ", " ": " v +:+ rest) = Some (v, rest).
Proof.
  induction v as [| b | n | r | s | items IH | fields IH] using json_nested_ind;
    intros Hplain fuel rest Hfuel Hrest;
    (destruct fuel as [|fuel]; [simpl in Hfuel; lia |]).
  - reflexivity.
  - by destruct b.
  - destruct (encode_int_head n) as (c & s & Hn & Hc).
    change (Json.dumps false ", " ": " (JInt n)) with (Json.encode_int n).
    rewrite Hn, app_String. apply scan_value_number; [done |].
    rewrite <- app_String, <- Hn. by apply scan_number_int.
  - done.
  - change (Json.dumps false ", " ": " (JStr s))
      with (String Json.dquote (Json.escape s +:+ String Json.dquote "")).
    norm_text.
    change (Json.scan_value (S fuel) (String Json.dquote ?x))
      with ('(str, rest) ← Json.scan_string x; Some (JStr str, rest)).
    by rewrite scan_string_escape.
  - apply plain_arr in Hplain. rewrite scan_depth_arr in Hfuel.
    change (Json.dumps false ", " ": " (JArr items))
      with ("[" +:+ String.concat ", " (List.map (Json.dumps false ", " ": ") items)
            +:+ "]").
    destruct items as [|x items]; [reflexivity |]. norm_text.
    change (Json.scan_value (S fuel) (String "[" ?s))
      with (match Json.skip_ws s with
            | String c1 r1 =>
                if Ascii.eqb c1 "]" then Some (JArr [], r1)
                else '(items, rest) ← Json.scan_elements fuel (String c1 r1);
                     Some (JArr items, rest)
            | EmptyString => None
            end).
    rewrite skip_ws_concat by (by apply Forall_cons in Hplain as [? _]).
    destruct (concat_head x items (String "]" rest)) as (c & r & Htext & Hc);
      [by apply Forall_cons in Hplain as [? _] |].
    rewrite Htext, Hc, <- Htext.
    rewrite scan_elements_dumps; [done | done | | lia].
    apply Forall_forall. intros v Hv. split.
    + by eapply Forall_forall in Hplain.
    + eapply Forall_forall in IH; [| exact Hv]. apply IH.
      by eapply Forall_forall in Hplain.
  - apply plain_obj in Hplain as [Hnd Hplain]. rewrite scan_depth_obj in Hfuel.
    change (Json.dumps false ", " ": " (JObj fields))
      with ("{" +:+ String.concat ", " (member_texts fields) +:+ "}").
    destruct fields as [|[k x] fields]; [reflexivity |]. norm_text.
    change (Json.scan_value (S fuel) (String "{" ?s))
      with (match Json.skip_ws s with
            | String c1 r1 =>
                if Ascii.eqb c1 "}" then Some (JObj [], r1)
                else '(fields, rest) ← Json.scan_members fuel (String c1 r1);
                     Some (JObj (fold_left (fun d kv => dict_set d kv.1 kv.2) fields []),
                           rest)
            | EmptyString => None
            end).
    rewrite skip_ws_members.
    assert (∃ r, String.concat ", " (member_texts ((k, x) :: fields)) +:+ String "}" rest
                 = String Json.dquote r) as [r Htext].
    { rewrite member_texts_cons. destruct fields as [|[k' x'] fields].
      - cbn [member_texts List.map String.concat]. norm_text. eauto.
      - rewrite (member_texts_cons k' x'), concat_cons2. norm_text. eauto. }
    rewrite Htext. cbn [Ascii.eqb Bool.eqb]. rewrite <- Htext.
    rewrite scan_members_dumps; [| done | | lia].
    + cbn [mbind option_bind]. by rewrite fold_dict_set.
    + apply Forall_forall. intros kv Hkv. split.
      * by eapply Forall_forall in Hplain.
      * eapply Forall_forall in IH; [| exact Hkv]. apply IH.
        by eapply Forall_forall in Hplain.
Qed.

Lemma string_app_nil_r (s : string) : s +:+ "" = s.
Proof. induction s as [|c s IH]; [done |]. by rewrite app_String, IH. Qed.

Lemma string_length_app (a b : string) :
  String.length (a +:+ b) = (String.length a + String.length b)%nat.
Proof.
  induction a as [|c a IH]; [done |]. rewrite app_String. simpl. by rewrite IH.
Qed.

Lemma depth_sum_length (items : list json) :
  Forall (fun v => (scan_depth v ≤ String.length (Json.dumps false ", " ": " v))%nat) items →
  (depth_sum items
   ≤ S (String.length
          (String.concat ", " (List.map (Json.dumps false ", " ": ") items))))%nat.
Proof.
  induction 1 as [|x items Hx Hall IH]; [simpl; lia |].
  destruct items as [|y items].
  - simpl in *. lia.
  - cbn [List.map] in *. rewrite concat_cons2, !string_length_app.
    change (depth_sum (x :: y :: items))
      with (S (scan_depth x + depth_sum (y :: items))).
    simpl String.length at 2. lia.
Qed.

Lemma depth_sum_length_members (fields : list (string * json)) :
  Forall (fun kv : string * json =>
            (scan_depth kv.2 ≤ String.length (Json.dumps false ", " ": " kv.2))%nat)
    fields →
  (depth_sum fields.*2
   ≤ S (String.length (String.concat ", " (member_texts fields))))%nat.
Proof.
  induction 1 as [|[k x] fields Hx Hall IH]; [simpl; lia |].
  rewrite member_texts_cons. simpl in Hx.
  change (depth_sum ((k, x) :: fields).*2)
    with (S (scan_depth x + depth_sum fields.*2)).
  destruct fields as [|[k' x'] fields].
  - cbn [member_texts List.map String.concat]. rewrite !string_length_app.
    simpl. lia.
  - rewrite (member_texts_cons k' x'), concat_cons2,
      <- (member_texts_cons k' x'), !string_length_app.
    simpl String.length at 1. lia.
Qed.

Lemma scan_depth_length (v : json) :
  plain v → (scan_depth v ≤ String.length (Json.dumps false ", " ": " v))%nat.
Proof.
  induction v as [| b | n | r | s | items IH | fields IH] using json_nested_ind;
    intros Hplain.
  - simpl. lia.
  - destruct b; simpl; lia.
  - destruct (encode_int_head n) as (c & s & Hn & _).
    change (Json.dumps false ", " ": " (JInt n)) with (Json.encode_int n).
    rewrite Hn. simpl. lia.
  - done.
  - simpl. lia.
  - apply plain_arr in Hplain. rewrite scan_depth_arr.
    change (Json.dumps false ", " ": " (JArr items))
      with ("[" +:+ String.concat ", " (List.map (Json.dumps false ", " ": ") items)
            +:+ "]").
    rewrite !string_length_app.
    pose proof (depth_sum_length items) as Hsum. simpl String.length.
    assert (Forall (fun v => (scan_depth v
                              ≤ String.length (Json.dumps false ", " ": " v))%nat) items)
      as Hall.
    { apply Forall_forall. intros v Hv. eapply Forall_forall in IH; [| exact Hv].
      apply IH. by eapply Forall_forall in Hplain. }
    specialize (Hsum Hall). lia.
  - apply plain_obj in Hplain as [_ Hplain]. rewrite scan_depth_obj.
    change (Json.dumps false ", " ": " (JObj fields))
      with ("{" +:+ String.concat ", " (member_texts fields) +:+ "}").
    rewrite !string_length_app.
    pose proof (depth_sum_length_members fields) as Hsum. simpl String.length.
    assert (Forall (fun kv : string * json =>
                      (scan_depth kv.2
                       ≤ String.length (Json.dumps false ", " ": " kv.2))%nat) fields)
      as Hall.
    { apply Forall_forall. intros kv Hkv. eapply Forall_forall in IH; [| exact Hkv].
      apply IH. by eapply Forall_forall in Hplain. }
    specialize (Hsum Hall). lia.
Qed.

Lemma loads_dumps (v : json) :
  plain v → Json.loads (Json.dumps false ", " ": " v) = Some v.
Proof.
  intros Hplain. unfold Json.loads.
  rewrite <- (string_app_nil_r (Json.dumps false ", " ": " v)) at 2.
  rewrite skip_ws_dumps by done.
  rewrite scan_value_dumps; [done | done | | done].
  pose proof (scan_depth_length v Hplain). lia.
Qed.

(** Every value built from [None], booleans, integers, strings, lists
    and dicts with distinct string keys is JSON-representable: the text
    [json.dumps] writes for it is read back by [json.loads] as the value
    itself.  So [Cache.set] followed by [Cache.get] returns such a value,
    within the TTL, for a limit that is not negative and a clock that has
    not run backwards. *)
Theorem plain_values_round_trip (self : Cache.t) (db : Cache.database) (k : string)
    (v : json) (m : string) (ttl_override : option Z) (now now' : Z) :
  plain v →
  json_representable v
  ∧ Json.loads (Json.dumps false ", " ": " v) = Some v
  ∧ (limit_ok self → clock_ok db now →
     (∀ ttl, effective_ttl self ttl_override = Some ttl → now' ≤ now + ttl) →
     (Cache.get (Cache.set self db k v m ttl_override now) k now').1 = Cache.Found v).
Proof.
  intros Hplain. pose proof (loads_dumps v Hplain) as Hloads.
  split_and!; [done | done |].
  intros Hlimit Hclock Httl.
  destruct (get_after_set self db k v m ttl_override now now') as [db' ->]; done.
Qed.

Lemma plain_values_round_trip_witness :
  Json.loads (Json.dumps false ", " ": " example_response) = Some example_response.
Proof.
  destruct (plain_values_round_trip example_store example_db "k1" example_response
              "gpt-x" None 100 160) as (_ & H & _); [| exact H].
  cbn. split_and!; try done; compute_done.
Defined.
